(** * Payment-to-settlement backend of how3-chatbot: a shallow embedding

    The development embeds the request handlers of [src/backend/index.js]
    (create-checkout-session, payment-success, payment-status, transfer-sol,
    swap-tokens) and the priority-fee helper [getDynamicPriorityFee] as
    functions over an explicit session store and an explicit record of
    what the outside world (price feed, Stripe, Solana RPC, Jupiter)
    answers during the call.

    Conventions.
    - A JavaScript number is a binary64 value, held as the rational [Q] it
      is equal to.  Every arithmetic operation rounds its exact result to
      the nearest binary64 value, ties to the even significand
      ([binary64]); [Math.round] and [Math.ceil] are exact on the value
      they are given.  The exponent range is taken unbounded above: a
      result of magnitude [2^1024] or more, for which JavaScript gives
      [Infinity], is outside the model, and so is [NaN] except as the
      result of converting a string to a number.
    - A string is held as its UTF-8 bytes; where the code counts or tests
      characters it sees UTF-16 code units ([utf16]).
    - A value read from a JSON body is a [jsval]; objects and arrays are
      not represented.
    - The [Map] [paymentSessions] is a [gmap string session]; the handlers
      mutate the stored object through a reference, which is an update of
      the entry under its key.
    - A handler is atomic: the interleaving of two handlers at an [await]
      is not modelled. *)

From Stdlib Require Import QArith Qround Qabs Qpower ZArith Lia Lqa.
From Stdlib Require Import Ascii String DecimalString.
From stdpp Require Import gmap strings list sorting.

Open Scope Z_scope.

(** ** JavaScript values and numbers *)

Inductive jsval :=
  | JUndefined
  | JNull
  | JBool (b : bool)
  | JNum (n : Q)
  | JStr (s : string).

(** [Boolean(v)], the test of [if (v)], [!v], [v && ..] and [v || ..]. *)
Definition truthy (v : jsval) : bool :=
  match v with
  | JUndefined | JNull => false
  | JBool b => b
  | JNum n => negb (Qeq_bool n 0)
  | JStr s => negb (String.eqb s "")
  end.

(** [v || d] *)
Definition js_or (v d : jsval) : jsval := if truthy v then v else d.

(** [typeof v === 'number' && v > 0], as a partial view of the number. *)
Definition positive_number (v : jsval) : option Q :=
  match v with
  | JNum n => if Qlt_le_dec 0 n then Some n else None
  | _ => None
  end.

(** [Math.round]: the nearest integer, a tie going up. *)
Definition Math_round (x : Q) : Z := Qfloor (x + (1 # 2)).

(** [Math.ceil] *)
Definition Math_ceil (x : Q) : Z := Qceiling x.

(** *** Binary64 arithmetic

    The nearest integer, a tie going to the even one. *)
Definition round_half_even (x : Q) : Z :=
  let f := Qfloor x in
  match (x - inject_Z f ?= 1 # 2)%Q with
  | Lt => f
  | Gt => f + 1
  | Eq => if Z.even f then f else f + 1
  end.

(** For a positive [x], the [k] with [2^k <= x < 2^(k+1)]. *)
Definition floor_log2 (x : Q) : Z :=
  let k := Z.log2 (Qnum x) - Z.log2 (Z.pos (Qden x)) in
  if Qle_bool (2 ^ k) x then k else k - 1.

(** The exponent of the last place of the binary64 values around [x]: 53
    significant bits, and no finer than [2^-1074] (the subnormal
    numbers). *)
Definition ulp_exponent (x : Q) : Z := Z.max (floor_log2 (Qabs x) - 52) (-1074).

(** The binary64 value nearest to [x], a tie going to the even
    significand. *)
Definition binary64 (x : Q) : Q :=
  if Qeq_bool x 0 then 0%Q
  else
    let e := ulp_exponent x in
    Qred (inject_Z (round_half_even (x / 2 ^ e)) * 2 ^ e).

(** The numbers of the format: a significand of at most 53 bits times a
    power of two, the last place no finer than [2^-1074]. *)
Definition is_double (y : Q) : Prop :=
  exists (m e : Z),
    -1074 <= e /\ Z.abs m <= 2 ^ 53 /\ (y == inject_Z m * 2 ^ e)%Q.

(** [a * b], [a / b] and [a + b].  The operands are rounded too, so that a
    decimal literal written in place of a number stands for the number it
    is parsed to. *)
Definition js_mul (a b : Q) : Q := binary64 (binary64 a * binary64 b).
Definition js_div (a b : Q) : Q := binary64 (binary64 a / binary64 b).
Definition js_add (a b : Q) : Q := binary64 (binary64 a + binary64 b).

(** The result of an operation is finite: the exact value is below the
    point from which binary64 rounds to [Infinity]. *)
Definition finite64 (exact : Q) : Prop :=
  (Qabs exact < 2 ^ 1024 - 2 ^ 970)%Q.

Definition mul_finite (a b : Q) : Prop := finite64 (binary64 a * binary64 b).
Definition div_finite (a b : Q) : Prop := finite64 (binary64 a / binary64 b).

(** [x.toFixed(digits)] as a number: the multiple of [10^-digits] nearest
    to the value of [x], a tie going away from zero. *)
Definition decimal_round (digits : nat) (x : Q) : Q :=
  let scale := inject_Z (10 ^ Z.of_nat digits) in
  if Qlt_le_dec x 0
  then - (inject_Z (Math_round (- x * scale)) / scale)
  else inject_Z (Math_round (x * scale)) / scale.

(** [parseFloat(x.toFixed(digits))] *)
Definition toFixed (digits : nat) (x : Q) : Q :=
  binary64 (decimal_round digits (binary64 x)).

(** What an awaited call to the outside world does: it returns, or it
    throws an error whose [message] may be missing. *)
Inductive outcome (A : Type) :=
  | Returned (a : A)
  | Threw (message : option string).
Arguments Returned {A} a.
Arguments Threw {A} message.

(** [String.prototype.includes] *)
Fixpoint includes (needle hay : string) : bool :=
  String.prefix needle hay ||
  match hay with
  | EmptyString => false
  | String _ rest => includes needle rest
  end.

(** A template literal prints a missing message as [undefined]. *)
Definition show_message (m : option string) : string :=
  match m with Some s => s | None => "undefined" end.

(** ** Strings as JavaScript sees them

    The code points of a string held as UTF-8 bytes: [need] bytes of the
    sequence being read are still to come, [acc] holds the bits read so
    far. *)
Fixpoint utf8_decode (need : nat) (acc : N) (l : list ascii) : list N :=
  match l with
  | [] => []
  | c :: l' =>
      let b := N_of_ascii c in
      match need with
      | O =>
          if (b <? 128)%N then b :: utf8_decode 0 0 l'
          else if (b <? 192)%N then utf8_decode 0 0 l'
          else if (b <? 224)%N then utf8_decode 1 (b - 192) l'
          else if (b <? 240)%N then utf8_decode 2 (b - 224) l'
          else utf8_decode 3 (b - 240) l'
      | S O => (acc * 64 + (b - 128))%N :: utf8_decode 0 0 l'
      | S need' => utf8_decode need' (acc * 64 + (b - 128))%N l'
      end
  end.

(** A code point beyond the basic plane takes two code units. *)
Definition code_units (cp : N) : list N :=
  if (cp <? 65536)%N then [cp]
  else [(55296 + (cp - 65536) / 1024)%N; (56320 + (cp - 65536) mod 1024)%N].

(** The UTF-16 code units of a string. *)
Definition utf16 (s : string) : list N :=
  flat_map code_units (utf8_decode 0 0 (list_ascii_of_string s)).

(** [s.length] *)
Definition js_length (s : string) : nat := length (utf16 s).

(** The characters of [\s] in a pattern, which are also the ones that are
    trimmed when a string is converted to a number: the white space and
    the line terminators of the language. *)
Definition is_space (u : N) : bool :=
  ((9 <=? u) && (u <=? 13) || (u =? 32) || (u =? 160) || (u =? 5760)
   || (8192 <=? u) && (u <=? 8202) || (u =? 8232) || (u =? 8233)
   || (u =? 8239) || (u =? 8287) || (u =? 12288) || (u =? 65279))%N.

(** *** Conversion to a number

    What [Number(v)] gives; [NaN] and the infinities arise from strings. *)
Inductive number :=
  | NaN
  | Infinity (negative : bool)
  | Finite (q : Q).

Definition digit_value (base u : N) : option N :=
  let d :=
    if ((48 <=? u) && (u <=? 57))%N then Some (u - 48)%N
    else if ((97 <=? u) && (u <=? 102))%N then Some (u - 87)%N
    else if ((65 <=? u) && (u <=? 70))%N then Some (u - 55)%N
    else None in
  match d with
  | Some v => if (v <? base)%N then Some v else None
  | None => None
  end.

(** The value of a run of digits, [None] when a unit is not a digit. *)
Fixpoint digits_value (base acc : N) (l : list N) : option N :=
  match l with
  | [] => Some acc
  | u :: l' =>
      match digit_value base u with
      | Some d => digits_value base (acc * base + d)%N l'
      | None => None
      end
  end.

(** The longest run of decimal digits at the front, and the rest. *)
Fixpoint span_digits (l : list N) : list N * list N :=
  match l with
  | u :: l' =>
      if ((48 <=? u) && (u <=? 57))%N
      then let '(ds, rest) := span_digits l' in (u :: ds, rest)
      else ([], l)
  | [] => ([], [])
  end.

Fixpoint drop_spaces (l : list N) : list N :=
  match l with
  | u :: l' => if is_space u then drop_spaces l' else l
  | [] => []
  end.

Definition trim (l : list N) : list N :=
  rev (drop_spaces (rev (drop_spaces l))).

(** [0x..], [0o..] and [0b..], in either letter case: at least one digit,
    and nothing but digits. *)
Definition prefixed_integer (base : N) (l : list N) : number :=
  match l with
  | [] => NaN
  | _ =>
      match digits_value base 0 l with
      | Some v => Finite (binary64 (inject_Z (Z.of_N v)))
      | None => NaN
      end
  end.

(** [ExponentPart]: [e] or [E], an optional sign and at least one digit,
    up to the end of the string. *)
Definition exponent_part (l : list N) : option Z :=
  match l with
  | [] => Some 0
  | u :: l' =>
      if ((u =? 101) || (u =? 69))%N then
        let '(negative, ds) :=
          match l' with
          | 43%N :: ds => (false, ds)
          | 45%N :: ds => (true, ds)
          | _ => (false, l')
          end in
        match span_digits ds with
        | ([], _) => None
        | (es, []) =>
            match digits_value 10 0 es with
            | Some e => Some (if negative then - Z.of_N e else Z.of_N e)
            | None => None
            end
        | _ => None
        end
      else None
  end.

(** [StrUnsignedDecimalLiteral] other than [Infinity]: digits with an
    optional fraction and an optional exponent, with at least one digit
    before the exponent. *)
Definition unsigned_decimal (l : list N) : option Q :=
  let '(int_digits, rest) := span_digits l in
  let '(frac_digits, rest) :=
    match rest with
    | 46%N :: rest' => span_digits rest'
    | _ => ([], rest)
    end in
  match int_digits ++ frac_digits with
  | [] => None
  | mantissa =>
      match digits_value 10 0 mantissa, exponent_part rest with
      | Some m, Some e =>
          Some (inject_Z (Z.of_N m) * 10 ^ (e - Z.of_nat (length frac_digits)))%Q
      | _, _ => None
      end
  end.

Definition Infinity_units : list N := [73; 110; 102; 105; 110; 105; 116; 121]%N.

Definition signed_decimal (l : list N) : number :=
  let '(negative, body) :=
    match l with
    | 43%N :: body => (false, body)
    | 45%N :: body => (true, body)
    | _ => (false, l)
    end in
  if bool_decide (body = Infinity_units) then Infinity negative
  else match unsigned_decimal body with
       | Some v => Finite (binary64 (if negative then - v else v))
       | None => NaN
       end.

(** [Number(s)] for a string: [StringToNumber]. *)
Definition StringToNumber (s : string) : number :=
  match trim (utf16 s) with
  | [] => Finite 0
  | 48%N :: u :: digits =>
      if ((u =? 120) || (u =? 88))%N then prefixed_integer 16 digits
      else if ((u =? 111) || (u =? 79))%N then prefixed_integer 8 digits
      else if ((u =? 98) || (u =? 66))%N then prefixed_integer 2 digits
      else signed_decimal (48%N :: u :: digits)
  | l => signed_decimal l
  end.

(** [Number(v)] *)
Definition ToNumber (v : jsval) : number :=
  match v with
  | JUndefined => NaN
  | JNull => Finite 0
  | JBool b => Finite (if b then 1 else 0)
  | JNum n => Finite n
  | JStr s => StringToNumber s
  end.

(** ** Array.prototype.sort

    The sort of the runtime is stable: [a] comes before [b] when
    [cmp a b < 0], and elements that compare equal keep their order. *)

Section ArraySort.
Context {A : Type} (cmp : A -> A -> Z).

Fixpoint sort_insert (x : A) (l : list A) : list A :=
  match l with
  | [] => [x]
  | y :: l' => if cmp y x <? 0 then y :: sort_insert x l' else x :: y :: l'
  end.

Definition Array_sort (l : list A) : list A := foldr sort_insert [] l.
End ArraySort.

(** ** PriorityFeeEstimator: [getDynamicPriorityFee] *)

Record fee_observation := { slot : Z; prioritizationFee : Z }.

(** The argument is what [connection.getRecentPrioritizationFees()] did:
    [Returned fees], or [Threw _] which the [catch] turns into the
    default. *)
Definition getDynamicPriorityFee (sampled : outcome (list fee_observation)) : Z :=
  match sampled with
  | Returned priorityFees =>
      if (0 <? Z.of_nat (length priorityFees)) then
        let sorted := Array_sort (fun a b => slot b - slot a) priorityFees in
        let recentFees := map prioritizationFee (take 5 sorted) in
        let medianFee :=
          nth (Nat.div (length recentFees) 2)
              (Array_sort (fun a b => a - b) recentFees) 0 in
        let suggestedFee := Math_ceil (js_mul (inject_Z medianFee) (12 # 10)) in
        Z.min (Z.max suggestedFee 100000) 1000000
      else 200000
  | Threw _ => 200000
  end.

(** The estimator as the specification words it: median of the five most
    recent observations, times 1.2, rounded to the nearest integer,
    clamped. *)
Module FeeSpec.
Definition median (l : list Z) : Q :=
  let s := merge_sort Z.le l in
  let n := length s in
  if Nat.even n
  then (inject_Z (nth (Nat.div n 2 - 1) s 0) + inject_Z (nth (Nat.div n 2) s 0)) / 2
  else inject_Z (nth (Nat.div n 2) s 0).

Definition most_recent (k : nat) (obs : list fee_observation) : list fee_observation :=
  take k (Array_sort (fun a b => slot b - slot a) obs).

Definition estimate (obs : list fee_observation) : Z :=
  match obs with
  | [] => 200000
  | _ =>
      let m := median (map prioritizationFee (most_recent 5 obs)) in
      Z.min (Z.max (Math_round (m * (12 # 10))) 100000) 1000000
  end.
End FeeSpec.

Definition spec_example_observations : list fee_observation :=
  [ {| slot := 1; prioritizationFee := 50000 |};
    {| slot := 2; prioritizationFee := 100000 |};
    {| slot := 3; prioritizationFee := 150000 |};
    {| slot := 4; prioritizationFee := 200000 |};
    {| slot := 5; prioritizationFee := 9000000 |} ].

(** ** PaymentSessionStore: the records of [paymentSessions] *)

Module Session.
(** The object literal stored by create-checkout-session, with the
    properties the settlement handlers add later ([None]: not set). *)
Record t := mk {
  id : string;
  stripeSessionId : string;
  walletAddress : string;
  amount : Z;
  currency : string;
  status : string;
  timestamp : string;
  solAmount : Q;
  isTokenSwap : bool;
  tokenSymbol : jsval;
  tokenAddress : jsval;
  tokenAmount : jsval;
  signature : option string;
  explorerLink : option string;
  solSignature : option string;
  solExplorerLink : option string;
  transferTimestamp : option string;
  transferredSolAmount : option Q;
  swapTxId : option string;
  transferTxId : option string }.

(** Property assignments [session.f = v] on a stored object. *)
Definition set_status (v : string) (s : t) : t :=
  let 'mk a b c d e _ g h i j k l m n o p q r u w := s in
  mk a b c d e v g h i j k l m n o p q r u w.
Definition set_tokenAmount (v : jsval) (s : t) : t :=
  let 'mk a b c d e f g h i j k _ m n o p q r u w := s in
  mk a b c d e f g h i j k v m n o p q r u w.
Definition set_signature (v : string) (s : t) : t :=
  let 'mk a b c d e f g h i j k l _ n o p q r u w := s in
  mk a b c d e f g h i j k l (Some v) n o p q r u w.
Definition set_explorerLink (v : string) (s : t) : t :=
  let 'mk a b c d e f g h i j k l m _ o p q r u w := s in
  mk a b c d e f g h i j k l m (Some v) o p q r u w.
Definition set_solSignature (v : string) (s : t) : t :=
  let 'mk a b c d e f g h i j k l m n _ p q r u w := s in
  mk a b c d e f g h i j k l m n (Some v) p q r u w.
Definition set_solExplorerLink (v : string) (s : t) : t :=
  let 'mk a b c d e f g h i j k l m n o _ q r u w := s in
  mk a b c d e f g h i j k l m n o (Some v) q r u w.
Definition set_transferTimestamp (v : string) (s : t) : t :=
  let 'mk a b c d e f g h i j k l m n o p _ r u w := s in
  mk a b c d e f g h i j k l m n o p (Some v) r u w.
Definition set_transferredSolAmount (v : Q) (s : t) : t :=
  let 'mk a b c d e f g h i j k l m n o p q _ u w := s in
  mk a b c d e f g h i j k l m n o p q (Some v) u w.
Definition set_swapTxId (v : string) (s : t) : t :=
  let 'mk a b c d e f g h i j k l m n o p q r _ w := s in
  mk a b c d e f g h i j k l m n o p q r (Some v) w.
Definition set_transferTxId (v : string) (s : t) : t :=
  let 'mk a b c d e f g h i j k l m n o p q r u _ := s in
  mk a b c d e f g h i j k l m n o p q r u (Some v).
End Session.

Abbreviation session := Session.t.
Abbreviation session_store := (gmap string session).

(** The terminal statuses of the specification's data model. *)
Definition terminal_status (st : string) : bool :=
  String.eqb st "sol_transferred" || String.eqb st "token_swap_completed"
  || String.eqb st "error".

(** [getStatusMessage] *)
Definition getStatusMessage (sessionData : session) : string :=
  let st := Session.status sessionData in
  if String.eqb st "created" then "Your payment is being processed."
  else if String.eqb st "payment_completed" then
    "Payment received. Sending SOL to your wallet..."
  else if String.eqb st "sol_transferred" then
    "SOL successfully sent to your wallet! View the transaction on Solana Explorer: "
      +:+ show_message (Session.explorerLink sessionData)
  else if String.eqb st "token_swap_completed" then
    "Tokens successfully swapped and sent to your wallet! View the transaction on Solana Explorer: "
      +:+ show_message (Session.explorerLink sessionData)
  else if String.eqb st "error" then "There was an error: undefined"
  else "Processing your transaction...".

(** Process-wide settings read when the module is loaded. *)
Record config := {
  fundingKeypair : option string;   (* public key of the funding wallet, [null] when the secret is missing *)
  env_PRICE_USD : option string;
  env_PRICE_INR : option string }.

(** [process.env.X || 100]: an environment variable is a string. *)
Definition price_setting (v : option string) : jsval :=
  match v with
  | Some s => js_or (JStr s) (JNum 100)
  | None => JNum 100
  end.
Definition PRICE_USD (cfg : config) : jsval := price_setting (env_PRICE_USD cfg).
Definition PRICE_INR (cfg : config) : jsval := price_setting (env_PRICE_INR cfg).

(** [SOL_AMOUNT = 0.1]: the binary64 value nearest to one tenth. *)
Definition SOL_AMOUNT : Q := binary64 (1 # 10).

(** ** The e-mail pattern [/^[^\s@]+@[^\s@]+\.[^\s@]+$/]

    The pattern is matched against the code units of the string. *)

(** [[^\s@]] *)
Definition is_plain (u : N) : bool :=
  negb (is_space u) && negb (u =? 64)%N.

Fixpoint split_at_unit (c : N) (l : list N) : option (list N * list N) :=
  match l with
  | [] => None
  | x :: l' =>
      if (x =? c)%N then Some ([], l')
      else match split_at_unit c l' with
           | Some (a, b) => Some (x :: a, b)
           | None => None
           end
  end.

(** A domain [b.c] with [b] and [c] non-empty has a dot that is neither
    its first nor its last character. *)
Definition has_inner_dot (d : list N) : bool :=
  existsb (fun u => (u =? 46)%N) (removelast (tail d)).

Definition email_pattern_test (s : string) : bool :=
  match split_at_unit 64 (utf16 s) with
  | Some (loc, dom) =>
      negb (Nat.eqb (length loc) 0) && forallb is_plain loc
      && forallb is_plain dom && has_inner_dot dom
  | None => false
  end.

(** [pattern.test(v)] for a truthy body value: a number or [true] prints
    without an [@] and so never matches. *)
Definition email_test (v : jsval) : bool :=
  match v with
  | JStr s => email_pattern_test s
  | _ => false
  end.

(** ** CheckoutSessionService: [POST /api/create-checkout-session] *)

Module CreateCheckout.
Record body := {
  walletAddress : jsval;
  email : jsval;
  country : jsval;
  dollarAmount : jsval;
  solAmount : jsval;
  tokenSymbol : jsval;
  tokenAddress : jsval;
  tokenAmount : jsval }.

(** The part of the argument of [stripe.checkout.sessions.create] that
    carries amounts and identity. *)
Record stripe_request := {
  currency : string;
  unit_amount : Q;
  metadata_solAmount : Q;
  metadata_fiatAmount : Q;
  metadata_sessionId : string;
  metadata_isTokenSwap : bool;
  customer_email : jsval }.

Record stripe_session := {
  stripe_id : string;
  url : string;
  amount_total : Z;
  stripe_currency : string }.

(** The object [{usd, inr}] of the price feed. *)
Record sol_price := { price_usd : Q; price_inr : Q }.

(** What the outside world answers during one call. *)
Record world := {
  getCurrentSolPrice : option sol_price;   (* [null] when the feed fails *)
  Date_now : N;
  random_suffix : string;   (* [Math.random().toString(36).substring(2, 15)] *)
  iso_now : string;         (* [new Date().toISOString()] *)
  stripe_create : stripe_request -> outcome stripe_session }.

Record created := {
  r_url : string;
  r_solAmount : Q;
  r_fiatAmount : Q;
  r_fiatCurrency : string;
  r_sessionId : string;
  r_isTokenSwap : bool;
  r_tokenSymbol : jsval;
  r_tokenAmount : jsval }.

Inductive response :=
  | Error (code : Z) (error : string)
  | Created (r : created).

Record result := {
  resp : response;
  store : session_store;
  stripe_calls : list stripe_request }.

(** [`session_${Date.now()}_${suffix}`] *)
Definition uniqueSessionId (w : world) : string :=
  "session_" +:+ NilZero.string_of_uint (N.to_uint (Date_now w)) +:+ "_"
    +:+ random_suffix w.

(** [country && typeof country !== 'string' || (country && country.length !== 2)] *)
Definition bad_country (c : jsval) : bool :=
  truthy c &&
  match c with
  | JStr s => negb (Nat.eqb (js_length s) 2)
  | _ => true
  end.

Definition is_IN (c : jsval) : bool :=
  match c with JStr s => String.eqb s "IN" | _ => false end.

(** Lines 117-158: the currency, the fiat amount in minor units and the
    SOL amount, or [None] where the handler answers 500 'Invalid price
    configuration'.  In the default branch a setting read from the
    environment is a string, fails [typeof amount !== 'number'], and the
    SOL amount computed from it is never used. *)
Definition resolve_amounts (cfg : config) (b : body) (solPrice : sol_price)
  : option (string * Q * Q) :=
  let currency := if is_IN (country b) then "inr" else "usd" in
  let amount := if is_IN (country b) then PRICE_INR cfg else PRICE_USD cfg in
  let rate :=
    if String.eqb currency "usd" then price_usd solPrice else price_inr solPrice in
  let resolved : option (Q * Q) :=
    match positive_number (solAmount b) with
    | Some s =>
        Some (inject_Z (Math_round (js_mul (js_mul s rate) 100)), s)
    | None =>
        match positive_number (dollarAmount b) with
        | Some d =>
            let amount := inject_Z (Math_round (js_mul d 100)) in
            let paymentAmount := js_div amount 100 in
            Some (amount, js_div paymentAmount rate)
        | None =>
            match amount with
            | JNum a => Some (a, js_div (js_div a 100) rate)
            | _ => None
            end
        end
    end in
  match resolved with
  | Some (amount, finalSolAmount) =>
      if Qlt_le_dec 0 amount then Some (currency, amount, finalSolAmount)
      else None
  | None => None
  end.

Definition handler (cfg : config) (w : world) (b : body) (st : session_store)
  : result :=
  let fail code msg := {| resp := Error code msg; store := st; stripe_calls := [] |} in
  match walletAddress b with
  | JStr wallet =>
    if negb (truthy (walletAddress b)) then fail 400 "Missing or invalid walletAddress"
    else if truthy (email b) && negb (email_test (email b)) then
      fail 400 "Invalid email format"
    else if bad_country (country b) then fail 400 "Invalid country code"
    else
      match getCurrentSolPrice w with
      | None => fail 500 "Unable to fetch current SOL price"
      | Some solPrice =>
        match resolve_amounts cfg b solPrice with
        | None => fail 500 "Invalid price configuration"
        | Some (currency, amount, finalSolAmount) =>
          let finalSolAmount := toFixed 8 finalSolAmount in
          let sid := uniqueSessionId w in
          let isTokenSwap := truthy (tokenSymbol b) in
          let request := {|
            currency := currency;
            unit_amount := amount;
            metadata_solAmount := finalSolAmount;
            metadata_fiatAmount := js_div amount 100;
            metadata_sessionId := sid;
            metadata_isTokenSwap := isTokenSwap;
            customer_email := js_or (email b) JUndefined |} in
          match stripe_create w request with
          | Threw _ =>
              {| resp := Error 500 "Could not create checkout session";
                 store := st; stripe_calls := [request] |}
          | Returned session =>
              let record := {|
                Session.id := sid;
                Session.stripeSessionId := stripe_id session;
                Session.walletAddress := wallet;
                Session.amount := amount_total session;
                Session.currency := stripe_currency session;
                Session.status := "created";
                Session.timestamp := iso_now w;
                Session.solAmount := finalSolAmount;
                Session.isTokenSwap := isTokenSwap;
                Session.tokenSymbol := js_or (tokenSymbol b) JNull;
                Session.tokenAddress := js_or (tokenAddress b) JNull;
                Session.tokenAmount := js_or (tokenAmount b) JNull;
                Session.signature := None;
                Session.explorerLink := None;
                Session.solSignature := None;
                Session.solExplorerLink := None;
                Session.transferTimestamp := None;
                Session.transferredSolAmount := None;
                Session.swapTxId := None;
                Session.transferTxId := None |} in
              {| resp := Created {|
                   r_url := url session;
                   r_solAmount := finalSolAmount;
                   r_fiatAmount := js_div amount 100;
                   r_fiatCurrency := currency;
                   r_sessionId := sid;
                   r_isTokenSwap := isTokenSwap;
                   r_tokenSymbol := js_or (tokenSymbol b) JNull;
                   r_tokenAmount := js_or (tokenAmount b) JNull |};
                 store := <[sid := record]> st;
                 stripe_calls := [request] |}
          end
        end
      end
  | _ => fail 400 "Missing or invalid walletAddress"
  end.

(** The three input checks of lines 96-109 all pass. *)
Definition accepted (b : body) : bool :=
  match walletAddress b with JStr _ => truthy (walletAddress b) | _ => false end
  && negb (truthy (email b) && negb (email_test (email b)))
  && negb (bad_country (country b)).

(** The currency selected by the country code and its current rate. *)
Definition selected_currency (b : body) : string :=
  if is_IN (country b) then "inr" else "usd".
Definition current_rate (b : body) (solPrice : sol_price) : Q :=
  if is_IN (country b) then price_inr solPrice else price_usd solPrice.
End CreateCheckout.

(** ** [GET /payment-success] *)

Module PaymentSuccess.
(** Query parameters are strings, or missing. *)
Record query := {
  session_id : option string;
  wallet : option string;
  amount : option string;
  token_swap : option string;
  token_symbol : option string;
  token_address : option string }.

Definition param (p : option string) : jsval :=
  match p with Some s => JStr s | None => JUndefined end.

(** The local object [sessionData]. *)
Record session_data := {
  walletAddress : jsval;
  status : string;
  sd_amount : jsval;
  sessionId : jsval;
  solAmount : option Q;
  isTokenSwap : bool;
  tokenSymbol : jsval;
  tokenAddress : jsval;
  tokenAmount : jsval }.

(** What the template of the [PAYMENT_COMPLETE] message in the script of
    the returned page is filled with.  [m_sessionId], [m_walletAddress],
    [m_tokenSymbol] and [m_tokenAddress] are printed between quotes, as
    they are; [m_isTokenSwap] is printed as [true] or [false].
    [amount_expr] and [tokenAmount_expr] are the values whose printed form
    is placed, without quotes, where the script expects an expression: the
    message that is posted carries whatever that text evaluates to in the
    browser. *)
Record message := {
  m_type : string;
  m_sessionId : jsval;
  m_walletAddress : jsval;
  amount_expr : jsval;
  m_status : string;
  m_isTokenSwap : bool;
  m_tokenSymbol : jsval;
  m_tokenAddress : jsval;
  tokenAmount_expr : jsval }.

Record result := {
  page : message;
  store : session_store }.

Definition sessionData (q : query) (st : session_store) : session_data :=
  let initial := {|
    walletAddress := js_or (param (wallet q)) (JStr "unknown");
    status := "payment_completed";
    sd_amount := js_or (param (amount q)) (JNum (binary64 (1 # 10)));
    sessionId := js_or (param (session_id q)) (JStr "");
    solAmount := None;
    isTokenSwap := false;
    tokenSymbol := js_or (param (token_symbol q)) (JStr "");
    tokenAddress := js_or (param (token_address q)) (JStr "");
    tokenAmount := JUndefined |} in
  let stored :=
    match session_id q with
    | Some sid => if truthy (JStr sid) then st !! sid else None
    | None => None
    end in
  match stored with
  | Some storedSession => {|
      walletAddress := walletAddress initial;
      status := "payment_completed";
      sd_amount := sd_amount initial;
      sessionId := sessionId initial;
      solAmount := Some (Session.solAmount storedSession);
      isTokenSwap := Session.isTokenSwap storedSession;
      tokenSymbol := Session.tokenSymbol storedSession;
      tokenAddress := Session.tokenAddress storedSession;
      tokenAmount := Session.tokenAmount storedSession |}
  | None =>
      if truthy (param (token_swap q)) then {|
        walletAddress := walletAddress initial;
        status := status initial;
        sd_amount := sd_amount initial;
        sessionId := sessionId initial;
        solAmount := None;
        isTokenSwap :=
          match token_swap q with Some s => String.eqb s "true" | None => false end;
        tokenSymbol := param (token_symbol q);
        tokenAddress := param (token_address q);
        tokenAmount := JUndefined |}
      else initial
  end.

(** The handler reads the store and never writes it. *)
Definition handler (q : query) (st : session_store) : result :=
  let sd := sessionData q st in
  {| page := {|
       m_type := "PAYMENT_COMPLETE";
       m_sessionId := js_or (param (session_id q)) (JStr "");
       m_walletAddress := js_or (param (wallet q)) (JStr "");
       amount_expr := js_or (param (amount q)) (JNum (binary64 (1 # 10)));
       m_status := "payment_completed";
       m_isTokenSwap := isTokenSwap sd;
       m_tokenSymbol := js_or (tokenSymbol sd) (JStr "");
       m_tokenAddress := js_or (tokenAddress sd) (JStr "");
       tokenAmount_expr := js_or (tokenAmount sd) (JNum 0) |};
     store := st |}.
End PaymentSuccess.

(** ** [GET /api/payment-status/:sessionId] *)

Module PaymentStatus.
Record stripe_info := {
  stripe_id : string;
  stripe_status : string;
  amount_total : Z;
  stripe_currency : string }.

Record world := {
  (* [stripe.checkout.sessions.retrieve]: a session, a falsy answer, or a throw *)
  stripe_retrieve : string -> outcome (option stripe_info) }.

Inductive response :=
  | Snapshot (sessionData : session) (explorerLink : option string) (message : string)
  | FromStripe (info : stripe_info) (message : string)
  | Error (code : Z) (error : string).

Record result := {
  resp : response;
  store : session_store }.

Definition handler (w : world) (sessionId : string) (st : session_store) : result :=
  match st !! sessionId with
  | Some sessionData =>
      {| resp := Snapshot sessionData (Session.explorerLink sessionData)
                   (getStatusMessage sessionData);
         store := st |}
  | None =>
      match stripe_retrieve w sessionId with
      | Returned (Some info) =>
          {| resp := FromStripe info
               "Your payment was successful. Processing your transaction...";
             store := st |}
      | Returned None => {| resp := Error 404 "Session not found"; store := st |}
      | Threw _ =>
          {| resp := Error 500 "Failed to retrieve payment status"; store := st |}
      end
  end.
End PaymentStatus.

(** ** SettlementExecutor: [POST /api/transfer-sol] *)

Module TransferSol.
(** [sessionId] is [None] when the field is absent or is not a string: no
    other value is a key of the store. *)
Record body := {
  walletAddress : jsval;
  amount : jsval;
  sessionId : option string;
  retryCount : jsval }.

(** The single [SystemProgram.transfer] instruction of the transaction. *)
Record transfer_tx := {
  fromPubkey : string;
  toPubkey : jsval;
  lamports : Z }.

Record world := {
  PublicKey_ok : jsval -> bool;   (* [new PublicKey(v)] does not throw *)
  (* [new Transaction().add(SystemProgram.transfer({..}))], before the
     inner [try]: the SDK throws, for one, when the lamports do not fit an
     unsigned 64-bit integer *)
  SystemProgram_transfer : transfer_tx -> outcome unit;
  getLatestBlockhash : outcome string;
  getRecentPrioritizationFees : outcome (list fee_observation);
  sendTransaction : transfer_tx -> Z -> outcome string;   (* sign and send *)
  getSignatureStatus : string -> outcome unit;
  iso_now : string }.

(** The JSON bodies: [{status: 'error', error, details?, retryScheduled?,
    retryCount?}] and [{status: 'success', transaction, explorerLink,
    amount, message}]; a property whose value is [undefined] is not in the
    body ([None]).  The [message] of a success and the value printed after
    'Invalid wallet address' and 'Invalid amount' are left out. *)
Inductive response :=
  | Error (code : Z) (error : string) (details : option string)
          (retryScheduled : option bool) (retryCount : option jsval)
  | Success (transaction : string) (explorerLink : string) (amount : Q).

Record result := {
  resp : response;
  store : session_store;
  broadcast : list transfer_tx }.

(** Destructuring defaults: [amount = SOL_AMOUNT], [retryCount = 0]. *)
Definition amount_or_default (b : body) : jsval :=
  match amount b with JUndefined => JNum SOL_AMOUNT | v => v end.
Definition retryCount_or_default (b : body) : jsval :=
  match retryCount b with JUndefined => JNum 0 | v => v end.

(** [retryCount < 3]: the value is converted to a number, whatever its
    type; a comparison with [NaN] is false. *)
Definition below_3 (retryCount : jsval) : bool :=
  match ToNumber retryCount with
  | NaN => false
  | Infinity negative => negative
  | Finite n => if Qlt_le_dec n 3 then true else false
  end.

(** [retryCount + 1]: a string is concatenated with [1], anything else is
    converted to a number ([undefined] has been replaced by the default
    before). *)
Definition plus_1 (retryCount : jsval) : jsval :=
  match retryCount with
  | JStr s => JStr (s +:+ "1")
  | JNum n => JNum (js_add n 1)
  | JBool true => JNum 2
  | JBool false | JNull | JUndefined => JNum 1
  end.

(** The errors the [catch] answers with a scheduled retry. *)
Definition retryable (message : option string) : bool :=
  match message with
  | Some m =>
      includes "BlockheightExceededError" m || includes "TimeoutError" m
      || includes "block height exceeded" m
  | None => false
  end.

(** [catch (txError)] of the inner [try]. *)
Definition on_txError (message : option string) (retryCount : jsval) : response :=
  if retryable message && below_3 retryCount then
    Error 500 "Transaction failed but will be retried automatically" None
          (Some true) (Some (plus_1 retryCount))
  else
    Error 500 ("Transaction failed: " +:+ show_message message) message None None.

(** [catch (error)] of the outer [try]. *)
Definition on_error (message : option string) : response :=
  Error 500 ("Failed to transfer SOL: " +:+ show_message message) None None None.

(** The update of the stored session after a broadcast. *)
Definition record_transfer (signature explorerLink now : string) (amount : Q)
    (session : Session.t) : Session.t :=
  let session :=
    if Session.isTokenSwap session then
      Session.set_solExplorerLink explorerLink
        (Session.set_solSignature signature
           (Session.set_status "sol_received" session))
    else
      Session.set_explorerLink explorerLink
        (Session.set_signature signature
           (Session.set_status "sol_transferred" session)) in
  Session.set_transferredSolAmount amount
    (Session.set_transferTimestamp now session).

Definition update_session (sessionId : option string) (f : session -> session)
    (st : session_store) : session_store :=
  match sessionId with
  | Some sid => if truthy (JStr sid) then alter f sid st else st
  | None => st
  end.

(** The awaited calls of the inner [try], in order: the blockhash, the
    priority fee (which never throws), the send and the status probe.  The
    result is the signature, or the error that reaches [catch (txError)],
    with the transactions that went out to the network. *)
Definition attempt (w : world) (transaction : transfer_tx)
  : outcome string * list transfer_tx :=
  match getLatestBlockhash w with
  | Threw e => (Threw e, [])
  | Returned _ =>
      let priorityFee := getDynamicPriorityFee (getRecentPrioritizationFees w) in
      match sendTransaction w transaction priorityFee with
      | Threw e => (Threw e, [])
      | Returned signature =>
          match getSignatureStatus w signature with
          | Threw e => (Threw e, [transaction])
          | Returned _ => (Returned signature, [transaction])
          end
      end
  end.

(** The checks before the transaction is built: the funding key and the
    amount to send, or the error answered. *)
Definition validate (cfg : config) (w : world) (b : body) : string * Q + response :=
  if negb (truthy (walletAddress b)) then
    inr (Error 400 "Wallet address is required" None None None)
  else match fundingKeypair cfg with
  | None =>
      inr (Error 500
        "Funding wallet not initialized. Check FUNDING_WALLET_SECRET environment variable."
        None None None)
  | Some funding =>
      if negb (PublicKey_ok w (walletAddress b)) then
        inr (Error 400 "Invalid wallet address" None None None)
      else match positive_number (amount_or_default b) with
      | None => inr (Error 400 "Invalid amount" None None None)
      | Some amount => inl (funding, amount)
      end
  end.

(** [Math.round(amount * 1e9)] lamports from the funding wallet. *)
Definition transfer_of (funding : string) (b : body) (amount : Q) : transfer_tx :=
  {| fromPubkey := funding;
     toPubkey := walletAddress b;
     lamports := Math_round (js_mul amount (inject_Z (10 ^ 9))) |}.

Definition handler (cfg : config) (w : world) (b : body) (st : session_store)
  : result :=
  match validate cfg w b with
  | inr refusal => {| resp := refusal; store := st; broadcast := [] |}
  | inl (funding, amount) =>
      let transaction := transfer_of funding b amount in
      match SystemProgram_transfer w transaction with
      | Threw error => {| resp := on_error error; store := st; broadcast := [] |}
      | Returned _ =>
          match attempt w transaction with
          | (Returned signature, sent) =>
              let explorerLink := "https://solscan.io/tx/" +:+ signature in
              {| resp := Success signature explorerLink amount;
                 store :=
                   update_session (sessionId b)
                     (record_transfer signature explorerLink (iso_now w) amount) st;
                 broadcast := sent |}
          | (Threw txError, sent) =>
              {| resp := on_txError txError (retryCount_or_default b);
                 store := st;
                 broadcast := sent |}
          end
      end
  end.

End TransferSol.

(** ** SettlementExecutor: [POST /api/swap-tokens] *)

Module SwapTokens.
(** [sessionId] is [None] when the field is absent or is not a string: no
    other value is a key of the store.  [amount] is the number the checks
    and the product [amount * 1e9] read the field as: [None] when it is
    absent or does not read as a number. *)
Record body := {
  walletAddress : jsval;
  sessionId : option string;
  toToken : jsval;
  amount : option Q }.

(** The fields of the quote the handler reads. *)
Record quote := {
  outAmount : Q;                 (* [parseFloat(quoteData.outAmount)] *)
  outputDecimals : option Z }.

Record world := {
  PublicKey_ok : jsval -> bool;
  quote_fetch : Z -> nat -> outcome quote;     (* lamports to swap; the k-th request, from 0 *)
  swap_fetch : quote -> nat -> outcome string; (* the k-th request for a swap transaction *)
  prepare_swap : outcome unit;                 (* deserialize, sign, [getLatestBlockhash] *)
  fees_swap : outcome (list fee_observation);
  send_swap : Z -> outcome string;
  probe_swap : string -> outcome unit;
  token_accounts : outcome string;             (* mint and wallet keys, the user's token account *)
  getAccountInfo : outcome bool;               (* whether that account exists *)
  transfer_blockhash : outcome string;
  fees_transfer : outcome (list fee_observation);
  send_transfer : Z -> Z -> outcome string;    (* raw token amount, priority fee *)
  probe_transfer : string -> outcome unit }.

Record success := {
  swap_id : string;
  swap_explorerLink : string;
  transfer_id : string;
  transfer_explorerLink : string;
  tokenAccountCreated : bool;
  final_symbol : jsval;
  final_mint : jsval;
  final_amount : Q;
  associatedTokenAccount : string }.

(** [{error, details?}]: a [details] whose value is [undefined] is not in
    the body ([None]). *)
Inductive response :=
  | Error (code : Z) (error : string) (details : option string)
  | Success (r : success).

Record result := {
  resp : response;
  store : session_store;
  quote_attempts : nat;
  swap_attempts : nat;
  sleeps : list Z;            (* the waits between attempts, in milliseconds *)
  broadcast : list string }.  (* ids of the transactions sent to the network *)

(** One [while (retries < maxRetries) { try { .. break } catch { .. } }]
    loop.  [fuel] is the number of iterations the loop condition still
    allows, [maxRetries - retries]. *)
Inductive fetched (A : Type) :=
  | Got (a : A) (attempts : nat) (waits : list Z)
  | Unavailable (attempts : nat) (waits : list Z)
  | LoopEnded (attempts : nat) (waits : list Z).
Arguments Got {A} a attempts waits.
Arguments Unavailable {A} attempts waits.
Arguments LoopEnded {A} attempts waits.

Fixpoint retry_loop {A : Type} (fetch : nat -> outcome A) (maxRetries : nat)
    (fuel retries : nat) (waits : list Z) : fetched A :=
  match fuel with
  | O => LoopEnded retries waits
  | S fuel' =>
      match fetch retries with
      | Returned a => Got a (S retries) waits
      | Threw _ =>
          let retries := S retries in
          if Nat.leb maxRetries retries then Unavailable retries waits
          else retry_loop fetch maxRetries fuel' retries
                 (waits ++ [Z.min (1000 * 2 ^ Z.of_nat retries) 8000])
      end
  end.

Definition fetch_with_retry {A : Type} (fetch : nat -> outcome A) : fetched A :=
  retry_loop fetch 3 3 0 [].

Definition unavailable (details : string) : response :=
  Error 503 "Jupiter API unavailable" (Some details).

Definition record_swap (swapTxId transferTxId : string) (outputAmount : Q)
    (sessionInfo : Session.t) : Session.t :=
  Session.set_status "completed"
    (Session.set_tokenAmount (JNum outputAmount)
       (Session.set_transferTxId transferTxId
          (Session.set_swapTxId swapTxId sessionInfo))).

(** The inner [try] that executes the swap and delivers the tokens. *)
Definition execute (w : world) (b : body) (q : quote) (sessionKey : option string)
    (tokenSymbol : jsval) (st : session_store)
  : response * session_store * list string :=
  let failed (e : option string) (sent : list string) :=
    (Error 500 "Failed to execute swap" e, st, sent) in
  let outputDecimals :=
    match outputDecimals q with
    | Some d => if Z.eqb d 0 then 6 else d
    | None => 6
    end in
  let outputAmount := js_div (outAmount q) (10 ^ outputDecimals)%Q in
  match prepare_swap w with
  | Threw e => failed e []
  | Returned _ =>
    let priorityFee := getDynamicPriorityFee (fees_swap w) in
    match send_swap w priorityFee with
    | Threw e => failed e []
    | Returned swapTxId =>
      match probe_swap w swapTxId with
      | Threw e => failed e [swapTxId]
      | Returned _ =>
        match token_accounts w with
        | Threw e => failed e [swapTxId]
        | Returned userTokenAccount =>
          let accountInfo :=
            match getAccountInfo w with Returned found => found | Threw _ => false end in
          match transfer_blockhash w with
          | Threw e => failed e [swapTxId]
          | Returned _ =>
            let transferPriorityFee := getDynamicPriorityFee (fees_transfer w) in
            let raw := Math_round (js_mul outputAmount (10 ^ outputDecimals)%Q) in
            match send_transfer w raw transferPriorityFee with
            | Threw e => failed e [swapTxId]
            | Returned transferTxId =>
              match probe_transfer w transferTxId with
              | Threw e => failed e [swapTxId; transferTxId]
              | Returned _ =>
                (Success {|
                   swap_id := swapTxId;
                   swap_explorerLink := "https://solscan.io/tx/" +:+ swapTxId;
                   transfer_id := transferTxId;
                   transfer_explorerLink := "https://solscan.io/tx/" +:+ transferTxId;
                   tokenAccountCreated := negb accountInfo;
                   final_symbol := tokenSymbol;
                   final_mint := toToken b;
                   final_amount := outputAmount;
                   associatedTokenAccount := userTokenAccount |},
                 match sessionKey with
                 | Some sid => alter (record_swap swapTxId transferTxId outputAmount) sid st
                 | None => st
                 end,
                 [swapTxId; transferTxId])
              end
            end
          end
        end
      end
    end
  end.

(** The checks before the first request to the quote provider: the SOL
    amount to swap, or the error answered. *)
Definition validate (cfg : config) (w : world) (b : body) : Q + response :=
  if negb (truthy (walletAddress b)) then
    inr (Error 400 "Wallet address is required" None)
  else if negb (truthy (toToken b)) then
    inr (Error 400 "Destination token address is required" None)
  else match amount b with
  | None => inr (Error 400 "Valid SOL amount is required" None)
  | Some amount =>
      if Qlt_le_dec 0 amount then
        match fundingKeypair cfg with
        | None =>
            inr (Error 500
              "Funding wallet not initialized. Check FUNDING_WALLET_SECRET environment variable."
              None)
        | Some _ =>
            if negb (PublicKey_ok w (walletAddress b)) then
              inr (Error 400 "Invalid wallet address" None)
            else inl amount
        end
      else inr (Error 400 "Valid SOL amount is required" None)
  end.

(** [sessionInfo]: the key of the stored session the request names. *)
Definition session_key (b : body) (st : session_store) : option string :=
  match sessionId b with
  | Some sid =>
      if truthy (JStr sid) then
        match st !! sid with Some _ => Some sid | None => None end
      else None
  | None => None
  end.

(** [sessionInfo?.tokenSymbol || 'Token'] *)
Definition symbol_of (key : option string) (st : session_store) : jsval :=
  match key with
  | Some sid =>
      match st !! sid with
      | Some sessionInfo => js_or (Session.tokenSymbol sessionInfo) (JStr "Token")
      | None => JStr "Token"
      end
  | None => JStr "Token"
  end.

Definition handler (cfg : config) (w : world) (b : body) (st : session_store)
  : result :=
  let stop r qa sa ws :=
    {| resp := r; store := st; quote_attempts := qa; swap_attempts := sa;
       sleeps := ws; broadcast := [] |} in
  match validate cfg w b with
  | inr refusal => stop refusal 0%nat 0%nat []
  | inl amount =>
      let sessionKey := session_key b st in
      let tokenSymbol := symbol_of sessionKey st in
      match fetch_with_retry
              (quote_fetch w (Math_round (js_mul amount (inject_Z (10 ^ 9))))) with
      | Unavailable qa ws =>
          stop (unavailable
            "Could not get a quote from Jupiter exchange after multiple attempts.")
            qa 0%nat ws
      | LoopEnded qa ws =>
          stop (Error 500 "Failed to process token swap" None) qa 0%nat ws
      | Got quoteData qa ws =>
          match fetch_with_retry (swap_fetch w quoteData) with
          | Unavailable sa ws' =>
              stop (unavailable
                "Could not get a swap transaction from Jupiter exchange after multiple attempts.")
                qa sa (ws ++ ws')
          | LoopEnded sa ws' =>
              stop (Error 500 "Failed to process token swap" None) qa sa (ws ++ ws')
          | Got _ sa ws' =>
              let '(r, st', sent) := execute w b quoteData sessionKey tokenSymbol st in
              {| resp := r; store := st'; quote_attempts := qa; swap_attempts := sa;
                 sleeps := ws ++ ws'; broadcast := sent |}
          end
      end
  end.
End SwapTokens.

(** ** The server: a sequence of requests against one store *)

Inductive call :=
  | CreateCheckoutSession (w : CreateCheckout.world) (b : CreateCheckout.body)
  | PaymentSuccessPage (q : PaymentSuccess.query)
  | PaymentStatusPoll (w : PaymentStatus.world) (sessionId : string)
  | TransferSolRequest (w : TransferSol.world) (b : TransferSol.body)
  | SwapTokensRequest (w : SwapTokens.world) (b : SwapTokens.body).

(** The store after one request. *)
Definition step (cfg : config) (st : session_store) (c : call) : session_store :=
  match c with
  | CreateCheckoutSession w b => CreateCheckout.store (CreateCheckout.handler cfg w b st)
  | PaymentSuccessPage q => PaymentSuccess.store (PaymentSuccess.handler q st)
  | PaymentStatusPoll w sid => PaymentStatus.store (PaymentStatus.handler w sid st)
  | TransferSolRequest w b => TransferSol.store (TransferSol.handler cfg w b st)
  | SwapTokensRequest w b => SwapTokens.store (SwapTokens.handler cfg w b st)
  end.

Definition run (cfg : config) (calls : list call) (st : session_store) : session_store :=
  foldl (step cfg) st calls.

(** The session id a request generates, if it is a checkout request. *)
Definition generated_id (c : call) : option string :=
  match c with
  | CreateCheckoutSession w _ => Some (CreateCheckout.uniqueSessionId w)
  | _ => None
  end.

(** A status that is neither [created] nor [payment_completed]. *)
Definition past_payment (st : string) : Prop :=
  st <> "created" /\ st <> "payment_completed".

(** ** Concrete inputs used by the examples below *)

Definition flat_observations : list fee_observation :=
  map (fun s => {| slot := s; prioritizationFee := 150001 |}) [1; 2; 3; 4; 5].

Definition example_cfg : config :=
  {| fundingKeypair := Some "9WzDXwBbmkg8ZTbNMqUxvQRAyrZzDsGYdLVL9zYtAWWM";
     env_PRICE_USD := None;
     env_PRICE_INR := None |}.

Definition example_wallet : string := "7xKXtg2CW87d97TXJSDpbD5jBkheTqA83TZRuJosgAsU".

Definition is_base58_char (c : ascii) : bool :=
  let n := nat_of_ascii c in
  (Nat.leb 49 n && Nat.leb n 57)
  || (Nat.leb 65 n && Nat.leb n 90 && negb (Nat.eqb n 73) && negb (Nat.eqb n 79))
  || (Nat.leb 97 n && Nat.leb n 122 && negb (Nat.eqb n 108)).

(** A stand-in for the key parser of the Solana SDK: a base58 string of
    the length of a 32-byte key. *)
Definition example_PublicKey_ok (v : jsval) : bool :=
  match v with
  | JStr s =>
      forallb is_base58_char (list_ascii_of_string s)
      && Nat.leb 32 (String.length s) && Nat.leb (String.length s) 44
  | _ => false
  end.

(** A stand-in for the instruction builder of the Solana SDK: it throws
    when the lamports do not fit an unsigned 64-bit integer. *)
Definition example_SystemProgram_transfer (tx : TransferSol.transfer_tx)
  : outcome unit :=
  if (0 <=? TransferSol.lamports tx) && (TransferSol.lamports tx <? 2 ^ 64)
  then Returned tt
  else Threw (Some "The value of the lamports is out of range").

(** A direct SOL purchase that has been settled. *)
Definition settled_session : session := {|
  Session.id := "session_1700000000000_k3j9x2";
  Session.stripeSessionId := "cs_live_a1";
  Session.walletAddress := example_wallet;
  Session.amount := 1500;
  Session.currency := "usd";
  Session.status := "sol_transferred";
  Session.timestamp := "2025-01-01T00:00:00.000Z";
  Session.solAmount := SOL_AMOUNT;
  Session.isTokenSwap := false;
  Session.tokenSymbol := JNull;
  Session.tokenAddress := JNull;
  Session.tokenAmount := JNull;
  Session.signature := Some "5VERv8NMvzbJMEkV8xnrLkEaWRtSz9CosKDYjCJjBRnb";
  Session.explorerLink :=
    Some "https://solscan.io/tx/5VERv8NMvzbJMEkV8xnrLkEaWRtSz9CosKDYjCJjBRnb";
  Session.solSignature := None;
  Session.solExplorerLink := None;
  Session.transferTimestamp := Some "2025-01-01T00:01:00.000Z";
  Session.transferredSolAmount := Some SOL_AMOUNT;
  Session.swapTxId := None;
  Session.transferTxId := None |}.

(** A session as create-checkout-session leaves it. *)
Definition fresh_session (isTokenSwap : bool) : session := {|
  Session.id := "session_1700000000000_k3j9x2";
  Session.stripeSessionId := "cs_live_a1";
  Session.walletAddress := example_wallet;
  Session.amount := 1500;
  Session.currency := "usd";
  Session.status := "created";
  Session.timestamp := "2025-01-01T00:00:00.000Z";
  Session.solAmount := SOL_AMOUNT;
  Session.isTokenSwap := isTokenSwap;
  Session.tokenSymbol := if isTokenSwap then JStr "BONK" else JNull;
  Session.tokenAddress :=
    if isTokenSwap then JStr "DezXAZ8z7PnrnRJjz3wXBoRgixCa6xjnB7YaB1pPB263" else JNull;
  Session.tokenAmount := JNull;
  Session.signature := None;
  Session.explorerLink := None;
  Session.solSignature := None;
  Session.solExplorerLink := None;
  Session.transferTimestamp := None;
  Session.transferredSolAmount := None;
  Session.swapTxId := None;
  Session.transferTxId := None |}.

Definition example_sid : string := "session_1700000000000_k3j9x2".

Definition settled_store : session_store := {[ example_sid := settled_session ]}.
Definition fresh_store (isTokenSwap : bool) : session_store :=
  {[ example_sid := fresh_session isTokenSwap ]}.

(** Stripe accepts the request and echoes amount and currency. *)
Definition checkout_world : CreateCheckout.world := {|
  CreateCheckout.getCurrentSolPrice :=
    Some {| CreateCheckout.price_usd := 150; CreateCheckout.price_inr := 12500 |};
  CreateCheckout.Date_now := 1700000000555;
  CreateCheckout.random_suffix := "q8w2e7r1t5y";
  CreateCheckout.iso_now := "2025-01-01T00:05:00.000Z";
  CreateCheckout.stripe_create := fun req =>
    Returned {|
      CreateCheckout.stripe_id := "cs_live_b2";
      CreateCheckout.url := "https://checkout.stripe.com/c/pay/cs_live_b2";
      CreateCheckout.amount_total := Qfloor (CreateCheckout.unit_amount req);
      CreateCheckout.stripe_currency := CreateCheckout.currency req |} |}.

Definition checkout_body (solAmount dollarAmount tokenSymbol tokenAddress : jsval)
  : CreateCheckout.body := {|
  CreateCheckout.walletAddress := JStr example_wallet;
  CreateCheckout.email := JStr "buyer@example.com";
  CreateCheckout.country := JStr "US";
  CreateCheckout.dollarAmount := dollarAmount;
  CreateCheckout.solAmount := solAmount;
  CreateCheckout.tokenSymbol := tokenSymbol;
  CreateCheckout.tokenAddress := tokenAddress;
  CreateCheckout.tokenAmount := JUndefined |}.

(** A network on which every call of transfer-sol succeeds. *)
Definition transfer_world : TransferSol.world := {|
  TransferSol.PublicKey_ok := example_PublicKey_ok;
  TransferSol.SystemProgram_transfer := example_SystemProgram_transfer;
  TransferSol.getLatestBlockhash := Returned "EkSnNWid2cvwEVnVx9aBqawnmiCNiDgp3gUdkDPTKN1N";
  TransferSol.getRecentPrioritizationFees := Returned spec_example_observations;
  TransferSol.sendTransaction := fun _ _ =>
    Returned "3nZcx5ApR6DGNJXVpu7Dat7Pxt5GFa6oySDBMGoLWricoti";
  TransferSol.getSignatureStatus := fun _ => Returned tt;
  TransferSol.iso_now := "2025-01-01T00:06:00.000Z" |}.


Definition transfer_body (amount retryCount : jsval) : TransferSol.body := {|
  TransferSol.walletAddress := JStr example_wallet;
  TransferSol.amount := amount;
  TransferSol.sessionId := Some example_sid;
  TransferSol.retryCount := retryCount |}.

Definition success_query : PaymentSuccess.query := {|
  PaymentSuccess.session_id := Some example_sid;
  PaymentSuccess.wallet := Some example_wallet;
  PaymentSuccess.amount := Some "0.1";
  PaymentSuccess.token_swap := None;
  PaymentSuccess.token_symbol := None;
  PaymentSuccess.token_address := None |}.

Definition status_world : PaymentStatus.world :=
  {| PaymentStatus.stripe_retrieve := fun _ => Returned None |}.

(** Requests that follow a settlement: the success page is opened again,
    the client polls, asks for the transfer once more, and another
    checkout is started. *)
Definition later_calls : list call :=
  [ PaymentSuccessPage success_query;
    PaymentStatusPoll status_world example_sid;
    TransferSolRequest transfer_world (transfer_body (JNum SOL_AMOUNT) JUndefined);
    CreateCheckoutSession checkout_world
      (checkout_body (JNum SOL_AMOUNT) JUndefined JUndefined JUndefined);
    PaymentSuccessPage success_query ].

(** The transaction goes out, and the status probe that follows fails. *)
Definition probe_failing_world : TransferSol.world := {|
  TransferSol.PublicKey_ok := example_PublicKey_ok;
  TransferSol.SystemProgram_transfer := example_SystemProgram_transfer;
  TransferSol.getLatestBlockhash := Returned "EkSnNWid2cvwEVnVx9aBqawnmiCNiDgp3gUdkDPTKN1N";
  TransferSol.getRecentPrioritizationFees := Returned spec_example_observations;
  TransferSol.sendTransaction := fun _ _ =>
    Returned "3nZcx5ApR6DGNJXVpu7Dat7Pxt5GFa6oySDBMGoLWricoti";
  TransferSol.getSignatureStatus := fun _ =>
    Threw (Some "failed to get signature status: 429 Too Many Requests");
  TransferSol.iso_now := "2025-01-01T00:06:00.000Z" |}.

(** A liquidity aggregator that answers no request for a quote. *)
Definition quote_down_world : SwapTokens.world := {|
  SwapTokens.PublicKey_ok := example_PublicKey_ok;
  SwapTokens.quote_fetch := fun _ _ => Threw (Some "Jupiter API returned error: 502");
  SwapTokens.swap_fetch := fun _ _ => Threw (Some "Jupiter swap API returned error: 502");
  SwapTokens.prepare_swap := Returned tt;
  SwapTokens.fees_swap := Returned [];
  SwapTokens.send_swap := fun _ => Threw None;
  SwapTokens.probe_swap := fun _ => Returned tt;
  SwapTokens.token_accounts := Threw None;
  SwapTokens.getAccountInfo := Returned false;
  SwapTokens.transfer_blockhash := Threw None;
  SwapTokens.fees_transfer := Returned [];
  SwapTokens.send_transfer := fun _ _ => Threw None;
  SwapTokens.probe_transfer := fun _ => Returned tt |}.

Definition swap_body : SwapTokens.body := {|
  SwapTokens.walletAddress := JStr example_wallet;
  SwapTokens.sessionId := Some example_sid;
  SwapTokens.toToken := JStr "DezXAZ8z7PnrnRJjz3wXBoRgixCa6xjnB7YaB1pPB263";
  SwapTokens.amount := Some SOL_AMOUNT |}.

(** ** What the string tests of the handlers mean *)

(** The white space of the language, by code point: TAB, LF, VT, FF, CR,
    SP, NBSP, OGHAM SPACE MARK, EN QUAD to HAIR SPACE, LINE and PARAGRAPH
    SEPARATOR, NARROW NBSP, MEDIUM MATHEMATICAL SPACE, IDEOGRAPHIC SPACE
    and the byte order mark. *)
Definition white_space : list N :=
  [9; 10; 11; 12; 13; 32; 160; 5760; 8192; 8193; 8194; 8195; 8196; 8197; 8198;
   8199; 8200; 8201; 8202; 8232; 8233; 8239; 8287; 12288; 65279]%N.

(** A non-empty run of code units that are neither white space nor [@]. *)
Definition plain_run (l : list N) : Prop :=
  l <> [] /\ Forall (fun u => ~ In u white_space /\ u <> 64%N) l.

(** The strings of the e-mail pattern: three such runs, joined by an [@]
    and a dot. *)
Definition email_pattern_matches (s : string) : Prop :=
  exists a b c,
    plain_run a /\ plain_run b /\ plain_run c
    /\ utf16 s = a ++ 64%N :: b ++ 46%N :: c.

(** [needle] occurs somewhere in [hay]. *)
Definition occurs_in (needle hay : string) : Prop :=
  exists pre post, hay = pre +:+ needle +:+ post.

(** ** The token price service of the client: [BirdeyeService]

    [String.prototype.toLowerCase] on the ASCII letters; other bytes are
    left as they are. *)

Definition lower_char (c : ascii) : ascii :=
  let n := nat_of_ascii c in
  if Nat.leb 65 n && Nat.leb n 90 then ascii_of_nat (n + 32) else c.

Fixpoint toLowerCase (s : string) : string :=
  match s with
  | EmptyString => EmptyString
  | String c rest => String (lower_char c) (toLowerCase rest)
  end.

Module BirdeyeService.
(** An entry of the token list. *)
Record token := {
  symbol : string;
  address : string;
  decimals : Z }.

(** [{success, price, source, error}] *)
Record price_result := {
  success : bool;
  price : jsval;
  source : option string;
  error : option string }.

(** The answer of the price endpoint: [response.ok], the status as it
    prints, and [data.data.value] ([JUndefined] when a level is missing). *)
Record birdeye_reply := {
  ok : bool;
  status : string;
  value : jsval }.

Record world := {
  birdeye_fetch : string -> outcome birdeye_reply;
  (* [jupiterService.getQuote('USDC', symbol, 1, true)]: the parsed
     [outAmount], [None] when the result or its [outAmount] is falsy *)
  jupiter_quote : string -> outcome (option Q) }.

(** The body of the [forEach] of [initializeTokenMap]. *)
Definition add_token (tokenMap : gmap string token) (t : token) : gmap string token :=
  let tokenMap :=
    if truthy (JStr (symbol t)) then <[toLowerCase (symbol t) := t]> tokenMap
    else tokenMap in
  if truthy (JStr (address t)) then <[address t := t]> tokenMap else tokenMap.

(** [initializeTokenMap]: a failed download leaves the map as it is. *)
Definition initializeTokenMap (fetched : outcome (list token))
    (tokenMap : gmap string token) : gmap string token :=
  match fetched with
  | Returned tokens => foldl add_token tokenMap tokens
  | Threw _ => tokenMap
  end.

(** [getToken] *)
Definition getToken (tokenMap : gmap string token) (tokenIdentifier : string)
  : option token :=
  tokenMap !! toLowerCase tokenIdentifier.

Definition failed (source : option string) (message : option string) : price_result :=
  {| success := false; price := JNull; source := source; error := message |}.

(** [getPriceFromBirdeye] *)
Definition getPriceFromBirdeye (w : world) (tokenAddress : string) : price_result :=
  match birdeye_fetch w tokenAddress with
  | Threw e => failed (Some "birdeye") e
  | Returned reply =>
      if negb (ok reply) then
        failed (Some "birdeye")
          (Some ("Birdeye API responded with status: " +:+ status reply))
      else if truthy (value reply) then
        {| success := true; price := value reply; source := Some "birdeye";
           error := None |}
      else failed (Some "birdeye") (Some "Invalid response format from Birdeye API")
  end.

(** [getPriceFromJupiter] *)
Definition getPriceFromJupiter (w : world) (t : token) : price_result :=
  match jupiter_quote w (symbol t) with
  | Threw e => failed (Some "jupiter") e
  | Returned (Some outAmount) =>
      {| success := true;
         price := JNum (js_div outAmount (Qpower 10 (decimals t)));
         source := Some "jupiter";
         error := None |}
  | Returned None =>
      failed (Some "jupiter")
        (Some "Could not determine price from Jupiter swap quote")
  end.

(** [getTokenPrice] *)
Definition getTokenPrice (w : world) (tokenMap : gmap string token)
    (tokenIdentifier : string) : price_result :=
  let isAddress := Nat.ltb 30 (js_length tokenIdentifier) in
  if isAddress then
    let birdeyeResult := getPriceFromBirdeye w tokenIdentifier in
    if success birdeyeResult then birdeyeResult
    else match getToken tokenMap tokenIdentifier with
         | Some t => getPriceFromJupiter w t
         | None =>
             failed None
               (Some ("Birdeye failed and token not found in Jupiter list for fallback: "
                      +:+ tokenIdentifier))
         end
  else
    match getToken tokenMap tokenIdentifier with
    | None =>
        failed None
          (Some ("Token symbol " +:+ tokenIdentifier +:+ " not found in token list"))
    | Some t =>
        let birdeyeResult := getPriceFromBirdeye w (address t) in
        if success birdeyeResult then birdeyeResult
        else getPriceFromJupiter w t
    end.
End BirdeyeService.

(** ** The client's token purchase: the amount gate of
    [handleBuyTokenWithFiat] *)

Module ChatClient.
(** [checkoutParams] *)
Record checkout_params := {
  dollarAmount : Q;
  tokenSymbol : string;
  tokenAddress : string;
  tokenAmount : Q }.

Inductive decision :=
  | TooSmall (minTokenAmount : Q)
  | ProceedToCheckout (p : checkout_params).

(** From the price of the token to the message 'The amount is too small'
    or to the parameters of the checkout. *)
Definition price_purchase (amount tokenPrice : Q) (t : BirdeyeService.token)
  : decision :=
  let dollarAmount := js_mul amount tokenPrice in
  if Qlt_le_dec dollarAmount (1 # 2) then
    TooSmall
      (js_div (inject_Z (Math_ceil (js_mul (js_div (1 # 2) tokenPrice) 100))) 100)
  else
    ProceedToCheckout {|
      dollarAmount := dollarAmount;
      tokenSymbol := BirdeyeService.symbol t;
      tokenAddress := BirdeyeService.address t;
      tokenAmount := amount |}.
End ChatClient.

(** ** Vocabulary for the lifecycle properties *)

(** What a session is created with. *)
Definition creation_data (s : session) :=
  (Session.id s, Session.stripeSessionId s, Session.walletAddress s,
   Session.amount s, Session.currency s, Session.timestamp s,
   Session.solAmount s, Session.isTokenSwap s, Session.tokenSymbol s,
   Session.tokenAddress s).

(** The statuses the handlers assign. *)
Definition server_statuses : list string :=
  ["created"; "sol_received"; "sol_transferred"; "completed"].

(** A record as the handlers leave it under [key]. *)
Definition well_formed_session (key : string) (s : session) : Prop :=
  Session.id s = key
  /\ key <> ""
  /\ In (Session.status s) server_statuses
  /\ (Session.status s = "sol_transferred" ->
      exists sig a,
        Session.signature s = Some sig
        /\ Session.explorerLink s = Some ("https://solscan.io/tx/" +:+ sig)
        /\ Session.transferredSolAmount s = Some a
        /\ (0 < a)%Q
        /\ Session.transferTimestamp s <> None).

(** A direct purchase from an empty store: the checkout, then the
    transfer for the session the checkout generated. *)
Definition purchase_calls : list call :=
  [ CreateCheckoutSession checkout_world
      (checkout_body (JNum SOL_AMOUNT) JUndefined JUndefined JUndefined);
    TransferSolRequest transfer_world {|
      TransferSol.walletAddress := JStr example_wallet;
      TransferSol.amount := JNum SOL_AMOUNT;
      TransferSol.sessionId := Some (CreateCheckout.uniqueSessionId checkout_world);
      TransferSol.retryCount := JUndefined |};
    PaymentStatusPoll status_world (CreateCheckout.uniqueSessionId checkout_world) ].

Definition purchase_transfer_body : TransferSol.body := {|
  TransferSol.walletAddress := JStr example_wallet;
  TransferSol.amount := JNum SOL_AMOUNT;
  TransferSol.sessionId := Some (CreateCheckout.uniqueSessionId checkout_world);
  TransferSol.retryCount := JUndefined |}.

(** A quote of 2.5 tokens (6 decimals) on the second attempt, a swap
    transaction on the first, and a network on which every call succeeds. *)
Definition swap_world : SwapTokens.world := {|
  SwapTokens.PublicKey_ok := example_PublicKey_ok;
  SwapTokens.quote_fetch := fun _ k =>
    match k with
    | O => Threw (Some "Jupiter API returned error: 429")
    | _ => Returned {| SwapTokens.outAmount := 2500000; SwapTokens.outputDecimals := None |}
    end;
  SwapTokens.swap_fetch := fun _ _ => Returned "AQAAAAAAAAAAAAAA";
  SwapTokens.prepare_swap := Returned tt;
  SwapTokens.fees_swap := Returned spec_example_observations;
  SwapTokens.send_swap := fun _ => Returned "4sGjMW1sUnHzSxGspuhpqLDx6wiyjNtZ";
  SwapTokens.probe_swap := fun _ => Returned tt;
  SwapTokens.token_accounts := Returned "F3bQx9pLkM2nRt7VwYzA5cD8eGhJ1sU4";
  SwapTokens.getAccountInfo := Returned false;
  SwapTokens.transfer_blockhash := Returned "EkSnNWid2cvwEVnVx9aBqawnmiCNiDgp3gUdkDPTKN1N";
  SwapTokens.fees_transfer := Returned [];
  SwapTokens.send_transfer := fun _ _ => Returned "2ZE7Rz4dWq8nLk5TtY1uVb3XcM6pJhGf";
  SwapTokens.probe_transfer := fun _ => Returned tt |}.


(** Observations of slots before those of [spec_example_observations]. *)
Definition older_observations : list fee_observation :=
  [ {| slot := 0; prioritizationFee := 7000000 |};
    {| slot := -1; prioritizationFee := 1 |} ].

(** The keys under which [initializeTokenMap] files a token. *)
Definition filed_under (t : BirdeyeService.token) (key : string) : Prop :=
  (BirdeyeService.symbol t <> "" /\ key = toLowerCase (BirdeyeService.symbol t))
  \/ (BirdeyeService.address t <> "" /\ key = BirdeyeService.address t).

Definition bonk : BirdeyeService.token := {|
  BirdeyeService.symbol := "Bonk";
  BirdeyeService.address := "DezXAZ8z7PnrnRJjz3wXBoRgixCa6xjnB7YaB1pPB263";
  BirdeyeService.decimals := 5 |}.

Definition usdc : BirdeyeService.token := {|
  BirdeyeService.symbol := "USDC";
  BirdeyeService.address := "EPjFWdd5AufqSSqeM2qN1xzybapC8G4wEGGkZwyTDt1v";
  BirdeyeService.decimals := 6 |}.

(** The price endpoint is down; the quote service would answer. *)
Definition birdeye_down_world : BirdeyeService.world := {|
  BirdeyeService.birdeye_fetch := fun _ =>
    Returned {| BirdeyeService.ok := false; BirdeyeService.status := "429";
                BirdeyeService.value := JUndefined |};
  BirdeyeService.jupiter_quote := fun _ => Returned (Some 4200000%Q) |}.

(** * Properties *)

(** ** Rounding *)

Lemma Math_round_near (x : Q) :
  (x - (1 # 2) < inject_Z (Math_round x) /\ inject_Z (Math_round x) <= x + (1 # 2))%Q.
Proof.
  unfold Math_round. split.
  - pose proof (Qlt_floor (x + (1 # 2))) as H.
    rewrite inject_Z_plus in H.
    set (f := inject_Z (Qfloor (x + (1 # 2)))) in *.
    change (inject_Z 1) with 1%Q in H. lra.
  - apply Qfloor_le.
Qed.

Lemma Math_ceil_near (x : Q) :
  (x <= inject_Z (Math_ceil x) /\ inject_Z (Math_ceil x) < x + 1)%Q.
Proof.
  unfold Math_ceil. split.
  - apply Qle_ceiling.
  - pose proof (Qceiling_lt x) as H.
    unfold Z.sub in H. rewrite inject_Z_plus in H.
    set (c := inject_Z (Qceiling x)) in *.
    change (inject_Z (- (1))) with (- (1))%Q in H. lra.
Qed.

Lemma scale_pos (digits : nat) : (0 < inject_Z (10 ^ Z.of_nat digits))%Q.
Proof.
  change 0%Q with (inject_Z 0). rewrite <- Zlt_Qlt.
  apply Z.pow_pos_nonneg; lia.
Qed.

(** [decimal_round] lands within half a unit of the last kept digit. *)
Lemma decimal_round_near (digits : nat) (x : Q) :
  (Qabs (decimal_round digits x - x) <= (1 # 2) / inject_Z (10 ^ Z.of_nat digits))%Q.
Proof.
  pose proof (scale_pos digits) as Hs.
  set (s := inject_Z (10 ^ Z.of_nat digits)) in *.
  assert (Hdiv : forall r y : Q,
             (Qabs (r - y * s) <= 1 # 2 -> Qabs (r / s - y) <= (1 # 2) / s)%Q).
  { intros r y H.
    assert (E : (r / s - y == (r - y * s) / s)%Q) by (field; lra).
    rewrite E. unfold Qdiv. rewrite Qabs_Qmult.
    rewrite (Qabs_pos (/ s)) by (apply Qlt_le_weak, Qinv_lt_0_compat; exact Hs).
    apply Qmult_le_compat_r; [exact H |].
    apply Qlt_le_weak, Qinv_lt_0_compat; exact Hs. }
  unfold decimal_round. fold s. destruct (Qlt_le_dec x 0) as [Hneg | Hpos].
  - destruct (Math_round_near (- x * s)) as [H1 H2].
    assert (E : (- (inject_Z (Math_round (- x * s)) / s) - x
                 == - (inject_Z (Math_round (- x * s)) / s - - x))%Q) by ring.
    rewrite E, Qabs_opp. apply Hdiv. apply Qabs_Qle_condition. split; lra.
  - destruct (Math_round_near (x * s)) as [H1 H2].
    apply Hdiv. apply Qabs_Qle_condition. split; lra.
Qed.

Lemma decimal_round_grid (digits : nat) (x : Q) :
  exists n : Z, (decimal_round digits x == inject_Z n / inject_Z (10 ^ Z.of_nat digits))%Q.
Proof.
  pose proof (scale_pos digits) as Hs.
  unfold decimal_round. destruct (Qlt_le_dec x 0).
  - exists (- Math_round (- x * inject_Z (10 ^ Z.of_nat digits))).
    rewrite inject_Z_opp. field. lra.
  - eexists. reflexivity.
Qed.

(** ** Binary64 rounding

    [binary64 x] is a number of the format and no number of the format is
    nearer to [x]; the lemmas below are stated in the scope of the
    rationals. *)

Section Binary64.
Local Open Scope Q_scope.

Lemma pow2_pos (e : Z) : 0 < 2 ^ e.
Proof. apply Qpower_0_lt. reflexivity. Qed.

Lemma pow2_succ (e : Z) : 2 ^ (e + 1) == 2 * 2 ^ e.
Proof. rewrite Qpower_plus by discriminate. ring. Qed.

Lemma pow2_le (a b : Z) : (a <= b)%Z -> 2 ^ a <= 2 ^ b.
Proof. intros H. apply Qpower_le_compat_l; [exact H | discriminate]. Qed.

Lemma pow2_lt (a b : Z) : (a < b)%Z -> 2 ^ a < 2 ^ b.
Proof. intros H. apply Qpower_lt_compat_l; [exact H | reflexivity]. Qed.

Lemma pow2_inject (a : Z) : (0 <= a)%Z -> inject_Z (2 ^ a) == 2 ^ a.
Proof. intros H. now rewrite Zpower_Qpower. Qed.

(** [floor_log2 x] is the exponent of the binade of a positive [x]. *)
Lemma floor_log2_spec (x : Q) :
  0 < x -> 2 ^ floor_log2 x <= x /\ x < 2 ^ (floor_log2 x + 1).
Proof.
  intros Hx. destruct x as [n d]. unfold floor_log2. cbn [Qnum Qden].
  assert (Hn : (0 < n)%Z).
  { unfold Qlt in Hx. simpl in Hx. lia. }
  set (a := Z.log2 n). set (b := Z.log2 (Z.pos d)).
  assert (Ha : (2 ^ a <= n < 2 ^ (a + 1))%Z).
  { pose proof (Z.log2_spec n Hn). unfold a. replace (Z.log2 n + 1)%Z with (Z.succ (Z.log2 n)) by lia. lia. }
  assert (Hb : (2 ^ b <= Z.pos d < 2 ^ (b + 1))%Z).
  { pose proof (Z.log2_spec (Z.pos d) ltac:(lia)). unfold b.
    replace (Z.log2 (Z.pos d) + 1)%Z with (Z.succ (Z.log2 (Z.pos d))) by lia. lia. }
  assert (Ha0 : (0 <= a)%Z) by apply Z.log2_nonneg.
  assert (Hb0 : (0 <= b)%Z) by apply Z.log2_nonneg.
  assert (Hx' : n # d == inject_Z n / inject_Z (Z.pos d)).
  { rewrite Qmake_Qdiv. reflexivity. }
  assert (Hd : 0 < inject_Z (Z.pos d)) by reflexivity.
  (* bounds on the numerator and the denominator as rationals *)
  assert (A1 : 2 ^ a <= inject_Z n).
  { rewrite <- pow2_inject by exact Ha0. rewrite <- Zle_Qle. lia. }
  assert (A2 : inject_Z n < 2 ^ (a + 1)).
  { rewrite <- pow2_inject by lia. rewrite <- Zlt_Qlt. lia. }
  assert (B1 : 2 ^ b <= inject_Z (Z.pos d)).
  { rewrite <- pow2_inject by exact Hb0. rewrite <- Zle_Qle. lia. }
  assert (B2 : inject_Z (Z.pos d) < 2 ^ (b + 1)).
  { rewrite <- pow2_inject by lia. rewrite <- Zlt_Qlt. lia. }
  (* x * d = n *)
  assert (E : (n # d) * inject_Z (Z.pos d) == inject_Z n).
  { rewrite Hx'. field. intros H. rewrite H in Hd. discriminate. }
  assert (Up : n # d < 2 ^ (a - b + 1)).
  { destruct (Qlt_le_dec (n # d) (2 ^ (a - b + 1))) as [| Hge]; [assumption |].
    exfalso.
    assert (H1 : 2 ^ (a - b + 1) * 2 ^ b <= (n # d) * inject_Z (Z.pos d)).
    { apply Qle_trans with ((n # d) * 2 ^ b).
      - apply Qmult_le_compat_r; [exact Hge | apply Qlt_le_weak, pow2_pos].
      - rewrite !(Qmult_comm (n # d)). apply Qmult_le_compat_r; [exact B1 |].
        apply Qlt_le_weak. exact Hx. }
    rewrite <- Qpower_plus in H1 by discriminate.
    replace (a - b + 1 + b)%Z with (a + 1)%Z in H1 by lia.
    rewrite E in H1. lra. }
  assert (Low : 2 ^ (a - b - 1) <= n # d).
  { destruct (Qlt_le_dec (n # d) (2 ^ (a - b - 1))) as [Hlt | ]; [| assumption].
    exfalso.
    assert (H1 : (n # d) * inject_Z (Z.pos d) < 2 ^ (a - b - 1) * 2 ^ (b + 1)).
    { apply Qle_lt_trans with ((n # d) * 2 ^ (b + 1)).
      - rewrite !(Qmult_comm (n # d)). apply Qmult_le_compat_r; [lra |].
        apply Qlt_le_weak. exact Hx.
      - apply Qmult_lt_compat_r; [apply pow2_pos | exact Hlt]. }
    rewrite <- Qpower_plus in H1 by discriminate.
    replace (a - b - 1 + (b + 1))%Z with a in H1 by lia.
    rewrite E in H1. lra. }
  destruct (Qle_bool (2 ^ (a - b)) (n # d)) eqn:Hc.
  - apply Qle_bool_iff in Hc. split; assumption.
  - replace (a - b - 1 + 1)%Z with (a - b)%Z by lia.
    split; [exact Low |].
    destruct (Qlt_le_dec (n # d) (2 ^ (a - b))) as [| Hge]; [assumption |].
    apply Qle_bool_iff in Hge. congruence.
Qed.

Lemma round_half_even_near (x : Q) :
  Qabs (inject_Z (round_half_even x) - x) <= 1 # 2.
Proof.
  unfold round_half_even.
  pose proof (Qfloor_le x) as H1. pose proof (Qlt_floor x) as H2.
  rewrite inject_Z_plus in H2. change (inject_Z 1) with 1 in H2.
  set (f := Qfloor x) in *.
  apply Qabs_Qle_condition.
  destruct (x - inject_Z f ?= 1 # 2) eqn:C.
  - apply Qeq_alt in C. destruct (Z.even f).
    + split; lra.
    + rewrite inject_Z_plus. change (inject_Z 1) with 1. split; lra.
  - apply Qlt_alt in C. split; lra.
  - apply Qgt_alt in C. rewrite inject_Z_plus. change (inject_Z 1) with 1. split; lra.
Qed.

(** No integer is nearer. *)
Lemma round_half_even_nearest (x : Q) (k : Z) :
  Qabs (inject_Z (round_half_even x) - x) <= Qabs (inject_Z k - x).
Proof.
  pose proof (round_half_even_near x) as Hn.
  set (n := round_half_even x) in *.
  destruct (Z.eq_dec k n) as [-> | Hne]; [apply Qle_refl |].
  eapply Qle_trans; [exact Hn |].
  apply Qabs_Qle_condition in Hn as [Hn1 Hn2].
  assert (Hk : (k <= n - 1 \/ n + 1 <= k)%Z) by lia.
  destruct Hk as [Hk | Hk]; rewrite Zle_Qle in Hk.
  - unfold Z.sub in Hk. rewrite inject_Z_plus in Hk.
    change (inject_Z (- (1))) with (- (1)) in Hk.
    rewrite <- Qabs_opp. apply Qle_trans with (- (inject_Z k - x)); [lra | apply Qle_Qabs].
  - rewrite inject_Z_plus in Hk. change (inject_Z 1) with 1 in Hk.
    apply Qle_trans with (inject_Z k - x); [lra | apply Qle_Qabs].
Qed.

Lemma binary64_eq (x : Q) :
  ~ x == 0 ->
  binary64 x == inject_Z (round_half_even (x / 2 ^ ulp_exponent x)) * 2 ^ ulp_exponent x.
Proof.
  intros Hx. unfold binary64.
  destruct (Qeq_bool x 0) eqn:E; [apply Qeq_bool_iff in E; contradiction |].
  fold (ulp_exponent x). apply Qred_correct.
Qed.

Lemma binary64_zero (x : Q) : x == 0 -> binary64 x = 0.
Proof.
  intros Hx. unfold binary64.
  destruct (Qeq_bool x 0) eqn:E; [reflexivity |].
  apply Qeq_bool_neq in E. contradiction.
Qed.


Lemma Qabs_pos_of_nonzero (x : Q) : ~ x == 0 -> 0 < Qabs x.
Proof.
  intros H. apply Qabs_case; intros Hs.
  - destruct (Qlt_le_dec 0 x) as [| Hle]; [assumption |].
    exfalso. apply H. lra.
  - destruct (Qlt_le_dec 0 (- x)) as [| Hle]; [assumption |].
    exfalso. apply H. lra.
Qed.

Lemma ulp_exponent_spec (x : Q) :
  ~ x == 0 ->
  let e := ulp_exponent x in
  (-1074 <= e)%Z
  /\ Qabs x < 2 ^ (e + 53)
  /\ ((-1074 < e)%Z -> 2 ^ (e + 52) <= Qabs x).
Proof.
  intros Hx e. pose proof (Qabs_pos_of_nonzero x Hx) as Hpos.
  destruct (floor_log2_spec (Qabs x) Hpos) as [Hlo Hhi].
  unfold e, ulp_exponent. set (k := floor_log2 (Qabs x)) in *.
  split; [lia |]. split.
  - eapply Qlt_le_trans; [exact Hhi |]. apply pow2_le. lia.
  - intros He. replace (Z.max (k - 52) (-1074) + 52)%Z with k by lia. exact Hlo.
Qed.

Lemma Qabs_div_pos (x s : Q) : 0 < s -> Qabs (x / s) == Qabs x / s.
Proof.
  intros Hs. unfold Qdiv.
  eapply Qeq_trans; [apply Qabs_Qmult |].
  rewrite (Qabs_pos (/ s)); [reflexivity |].
  apply Qlt_le_weak, Qinv_lt_0_compat. exact Hs.
Qed.

Lemma scaled_distance (m x s : Q) :
  0 < s -> Qabs (m * s - x) == Qabs (m - x / s) * s.
Proof.
  intros Hs.
  assert (E : Qabs (m - x / s) * s == Qabs (m - x / s) * Qabs s)
    by (rewrite (Qabs_pos s) by lra; reflexivity).
  rewrite E. eapply Qeq_trans; [| apply Qabs_Qmult].
  apply Qabs_wd. field. lra.
Qed.

(** The result is a number of the format ... *)
Lemma binary64_is_double (x : Q) : is_double (binary64 x).
Proof.
  destruct (Qeq_dec x 0) as [Hz | Hnz].
  - rewrite (binary64_zero x Hz). exists 0%Z, 0%Z.
    split; [lia |]. split; [simpl; lia | reflexivity].
  - destruct (ulp_exponent_spec x Hnz) as (He & Hup & _).
    set (e := ulp_exponent x) in *.
    exists (round_half_even (x / 2 ^ e)), e.
    split; [exact He |]. split; [| now apply binary64_eq].
    pose proof (pow2_pos e) as Hs.
    assert (Hq : Qabs (x / 2 ^ e) < 2 ^ 53).
    { rewrite Qabs_div_pos by exact Hs.
      apply Qlt_shift_div_r; [exact Hs |].
      rewrite <- Qpower_plus by discriminate.
      now replace (53 + e)%Z with (e + 53)%Z by lia. }
    pose proof (round_half_even_nearest (x / 2 ^ e)) as Hnear.
    set (y := x / 2 ^ e) in *. set (n := round_half_even y) in *.
    (* an integer at most 1/2 away from a number below 2^53 in absolute value *)
    pose proof (round_half_even_near y) as Hn. fold n in Hn.
    apply Qabs_Qle_condition in Hn as [Hn1 Hn2].
    apply Qabs_Qlt_condition in Hq as [Hq1 Hq2].
    change (2 ^ 53) with (inject_Z (2 ^ 53)) in Hq1, Hq2.
    assert (H1 : inject_Z n < inject_Z (2 ^ 53 + 1)).
    { rewrite inject_Z_plus. change (inject_Z 1) with 1. lra. }
    assert (H2 : inject_Z (- 2 ^ 53 - 1) < inject_Z n).
    { unfold Z.sub. rewrite inject_Z_plus, inject_Z_opp.
      change (inject_Z (- (1))) with (- (1)). lra. }
    rewrite <- Zlt_Qlt in H1, H2. lia.
Qed.

(** ... and no number of the format is nearer. *)
Lemma binary64_nearest (x y : Q) :
  is_double y -> Qabs (binary64 x - x) <= Qabs (y - x).
Proof.
  intros (m & e' & He' & Hm & Hy).
  destruct (Qeq_dec x 0) as [Hz | Hnz].
  { rewrite (binary64_zero x Hz).
    assert (E : 0 - x == 0) by lra. rewrite E. apply Qabs_nonneg. }
  destruct (ulp_exponent_spec x Hnz) as (He & Hup & Hlow).
  rewrite (binary64_eq x Hnz). set (e := ulp_exponent x) in *.
  pose proof (pow2_pos e) as Hs.
  assert (Hgrid : forall k : Z,
             Qabs (inject_Z (round_half_even (x / 2 ^ e)) * 2 ^ e - x)
             <= Qabs (inject_Z k * 2 ^ e - x)).
  { intros k. rewrite !scaled_distance by exact Hs.
    apply Qmult_le_compat_r; [apply round_half_even_nearest | lra]. }
  destruct (Z_le_gt_dec e e') as [Hge | Hlt].
  - (* [y] is a multiple of [2^e] *)
    assert (Ek : y == inject_Z (m * 2 ^ (e' - e)) * 2 ^ e).
    { rewrite Hy, inject_Z_mult, pow2_inject by lia.
      rewrite <- Qmult_assoc, <- Qpower_plus by discriminate.
      now replace (e' - e + e)%Z with e' by lia. }
    rewrite Ek. apply Hgrid.
  - (* [y] lies below the binade of [x] *)
    assert (Hbin : 2 ^ (e + 52) <= Qabs x) by (apply Hlow; lia).
    assert (Hyabs : Qabs y <= 2 ^ (e + 52)).
    { rewrite Hy.
      assert (Ea : Qabs (inject_Z m * 2 ^ e') == Qabs (inject_Z m) * 2 ^ e').
      { eapply Qeq_trans; [apply Qabs_Qmult |].
        rewrite (Qabs_pos (2 ^ e')) by (apply Qlt_le_weak, pow2_pos). reflexivity. }
      rewrite Ea.
      apply Qle_trans with (2 ^ 53 * 2 ^ e').
      - apply Qmult_le_compat_r; [| apply Qlt_le_weak, pow2_pos].
        rewrite <- (pow2_inject 53) by lia.
        assert (Em : Qabs (inject_Z m) == inject_Z (Z.abs m)).
        { unfold inject_Z. symmetry. apply Zabs_Qabs. }
        rewrite Em, <- Zle_Qle. exact Hm.
      - rewrite <- Qpower_plus by discriminate. apply pow2_le. lia. }
    (* the power of two at the bottom of the binade is on the grid *)
    assert (Eb : 2 ^ (e + 52) == inject_Z (2 ^ 52) * 2 ^ e).
    { rewrite pow2_inject by lia. rewrite <- Qpower_plus by discriminate.
      now replace (52 + e)%Z with (e + 52)%Z by lia. }
    pose proof (Hgrid (2 ^ 52)%Z) as Hp. pose proof (Hgrid (- 2 ^ 52)%Z) as Hn.
    rewrite inject_Z_opp in Hn. 
    assert (Ebn : - inject_Z (2 ^ 52) * 2 ^ e == - 2 ^ (e + 52)) by (rewrite Eb; ring).
    rewrite <- Eb in Hp. rewrite Ebn in Hn.
    set (b := inject_Z (round_half_even (x / 2 ^ e)) * 2 ^ e) in *.
    set (p := 2 ^ (e + 52)) in *.
    apply Qabs_Qle_condition in Hyabs as [Hy1 Hy2].
    revert Hbin Hp Hn. apply (Qabs_case x); intros Hsx Hbin Hp Hn.
    + (* x positive: y <= p <= x *)
      eapply Qle_trans; [exact Hp |].
      rewrite (Qabs_neg (p - x)) by lra.
      rewrite (Qabs_neg (y - x)) by lra. lra.
    + eapply Qle_trans; [exact Hn |].
      rewrite (Qabs_pos (- p - x)) by lra.
      rewrite (Qabs_pos (y - x)) by lra. lra.
Qed.

Lemma binary64_of_double (y : Q) : is_double y -> binary64 y == y.
Proof.
  intros Hy. pose proof (binary64_nearest y y Hy) as H.
  assert (E : y - y == 0) by ring. rewrite E in H. change (Qabs 0) with 0 in H.
  pose proof (Qabs_nonneg (binary64 y - y)) as H0.
  assert (Ez : Qabs (binary64 y - y) == 0) by lra.
  revert Ez. apply Qabs_case; intros; lra.
Qed.

(** Rounding does not cross a number of the format. *)
Lemma binary64_ge (c x : Q) : is_double c -> c <= x -> c <= binary64 x.
Proof.
  intros Hc Hle. pose proof (binary64_nearest x c Hc) as H.
  destruct (Qlt_le_dec (binary64 x) c) as [Hlt | ]; [| assumption].
  exfalso. rewrite (Qabs_neg (binary64 x - x)) in H by lra.
  rewrite (Qabs_neg (c - x)) in H by lra. lra.
Qed.

Lemma binary64_le (c x : Q) : is_double c -> x <= c -> binary64 x <= c.
Proof.
  intros Hc Hle. pose proof (binary64_nearest x c Hc) as H.
  destruct (Qlt_le_dec c (binary64 x)) as [Hlt | ]; [| assumption].
  exfalso. rewrite (Qabs_pos (binary64 x - x)) in H by lra.
  rewrite (Qabs_pos (c - x)) in H by lra. lra.
Qed.

(** In the normal range the relative error is at most [2^-53]. *)
Lemma binary64_relative_error (x : Q) :
  2 ^ (-1022) <= Qabs x -> Qabs (binary64 x - x) <= Qabs x * 2 ^ (-53).
Proof.
  intros Hx.
  assert (Hnz : ~ x == 0).
  { intros E. rewrite E in Hx. change (Qabs 0) with 0 in Hx.
    pose proof (pow2_pos (-1022)). lra. }
  pose proof (Qabs_pos_of_nonzero x Hnz) as Hpos.
  destruct (floor_log2_spec (Qabs x) Hpos) as [Hlo Hhi].
  assert (Hk : (-1022 <= floor_log2 (Qabs x))%Z).
  { destruct (Z_le_gt_dec (-1022) (floor_log2 (Qabs x))) as [| Hgt]; [assumption |].
    exfalso. assert (H : 2 ^ (floor_log2 (Qabs x) + 1) <= 2 ^ (-1022)) by (apply pow2_le; lia).
    lra. }
  rewrite (binary64_eq x Hnz). unfold ulp_exponent.
  set (k := floor_log2 (Qabs x)) in *.
  replace (Z.max (k - 52) (-1074)) with (k - 52)%Z by lia.
  pose proof (pow2_pos (k - 52)) as Hs.
  rewrite scaled_distance by exact Hs.
  apply Qle_trans with ((1 # 2) * 2 ^ (k - 52)).
  - apply Qmult_le_compat_r; [apply round_half_even_near | lra].
  - assert (E : (1 # 2) * 2 ^ (k - 52) == 2 ^ k * 2 ^ (-53)).
    { rewrite <- Qpower_plus by discriminate.
      replace (k + -53)%Z with (k - 52 + -1)%Z by lia.
      rewrite Qpower_plus by discriminate. change (2 ^ (-1)) with (1 # 2). ring. }
    rewrite E. apply Qmult_le_compat_r; [exact Hlo |].
    apply Qlt_le_weak, pow2_pos.
Qed.

Lemma floor_log2_unique (x : Q) (k : Z) :
  2 ^ k <= x -> x < 2 ^ (k + 1) -> floor_log2 x = k.
Proof.
  intros Hlo Hhi.
  assert (Hx : 0 < x) by (pose proof (pow2_pos k); lra).
  destruct (floor_log2_spec x Hx) as [Flo Fhi].
  set (f := floor_log2 x) in *.
  assert (H1 : (k < f + 1)%Z).
  { apply (Qpower_lt_compat_l_inv 2); [lra | reflexivity]. }
  assert (H2 : (f < k + 1)%Z).
  { apply (Qpower_lt_compat_l_inv 2); [lra | reflexivity]. }
  lia.
Qed.

Lemma floor_log2_comp (x y : Q) : 0 < x -> x == y -> floor_log2 x = floor_log2 y.
Proof.
  intros Hx E. destruct (floor_log2_spec x Hx) as [Flo Fhi].
  symmetry. apply floor_log2_unique; rewrite <- E; assumption.
Qed.

Lemma round_half_even_comp (x y : Q) : x == y -> round_half_even x = round_half_even y.
Proof.
  intros E. unfold round_half_even.
  assert (Ef : Qfloor x = Qfloor y) by (now apply Qfloor_comp).
  rewrite Ef.
  assert (Ec : (x - inject_Z (Qfloor y) ?= 1 # 2) = (y - inject_Z (Qfloor y) ?= 1 # 2)).
  { apply Qcompare_comp; [now rewrite E | reflexivity]. }
  now rewrite Ec.
Qed.

#[global] Instance binary64_comp : Proper (Qeq ==> Qeq) binary64.
Proof.
  intros x y E.
  destruct (Qeq_dec x 0) as [Hz | Hnz].
  - rewrite (binary64_zero x Hz), (binary64_zero y); [reflexivity |].
    now rewrite <- E.
  - assert (Hny : ~ y == 0) by (now rewrite <- E).
    rewrite (binary64_eq x Hnz), (binary64_eq y Hny).
    assert (Ee : ulp_exponent x = ulp_exponent y).
    { unfold ulp_exponent. f_equal. f_equal.
      apply floor_log2_comp; [now apply Qabs_pos_of_nonzero | now rewrite E]. }
    rewrite Ee.
    rewrite (round_half_even_comp (x / 2 ^ ulp_exponent y) (y / 2 ^ ulp_exponent y));
      [reflexivity | now rewrite E].
Qed.

Lemma binary64_monotone (x y : Q) : x <= y -> binary64 x <= binary64 y.
Proof.
  intros Hxy.
  destruct (Qlt_le_dec y (binary64 x)) as [Hbx | Hbx].
  2: { apply binary64_ge; [apply binary64_is_double | exact Hbx]. }
  destruct (Qlt_le_dec (binary64 y) x) as [Hby | Hby].
  2: { apply binary64_le; [apply binary64_is_double | exact Hby]. }
  pose proof (binary64_nearest x (binary64 y) (binary64_is_double y)) as H1.
  pose proof (binary64_nearest y (binary64 x) (binary64_is_double x)) as H2.
  rewrite (Qabs_pos (binary64 x - x)) in H1 by lra.
  rewrite (Qabs_neg (binary64 y - x)) in H1 by lra.
  rewrite (Qabs_neg (binary64 y - y)) in H2 by lra.
  rewrite (Qabs_pos (binary64 x - y)) in H2 by lra.
  assert (E : x == y) by lra. rewrite E. apply Qle_refl.
Qed.

Lemma integer_is_double (k : Z) : (Z.abs k <= 2 ^ 53)%Z -> is_double (inject_Z k).
Proof.
  intros Hk. exists k, 0%Z. split; [lia |]. split; [exact Hk |].
  change (2 ^ 0) with 1. ring.
Qed.

Lemma binary64_idempotent (x : Q) : binary64 (binary64 x) == binary64 x.
Proof. apply binary64_of_double, binary64_is_double. Qed.

Lemma js_mul_of_doubles (a b : Q) :
  is_double a -> is_double b -> js_mul a b == binary64 (a * b).
Proof.
  intros Ha Hb. unfold js_mul.
  now rewrite (binary64_of_double a Ha), (binary64_of_double b Hb).
Qed.

Lemma js_div_of_doubles (a b : Q) :
  is_double a -> is_double b -> js_div a b == binary64 (a / b).
Proof.
  intros Ha Hb. unfold js_div.
  now rewrite (binary64_of_double a Ha), (binary64_of_double b Hb).
Qed.

Lemma js_mul_is_double (a b : Q) : is_double (js_mul a b).
Proof. apply binary64_is_double. Qed.

Lemma js_div_is_double (a b : Q) : is_double (js_div a b).
Proof. apply binary64_is_double. Qed.

(** Two multiplications in a row, of positive numbers of the format in
    the normal range, stay within [2^-51] of the exact product, relative
    to it. *)
Lemma js_mul_mul_100_error (a b : Q) :
  is_double a -> is_double b -> 0 < a -> 0 < b -> 2 ^ (-1022) <= a * b ->
  Qabs (js_mul (js_mul a b) 100 - a * b * 100) <= a * b * 100 * 2 ^ (-51).
Proof.
  intros Ha Hb Hpa Hpb Hnorm.
  assert (Hp : 0 < a * b) by (apply Qmult_lt_0_compat; assumption).
  assert (H100 : is_double 100) by (apply (integer_is_double 100); simpl; lia).
  pose proof (binary64_relative_error (a * b)) as E1.
  rewrite (Qabs_pos (a * b)) in E1 by lra. specialize (E1 Hnorm).
  rewrite <- (js_mul_of_doubles a b Ha Hb) in E1.
  assert (Em : js_mul (js_mul a b) 100 == binary64 (js_mul a b * 100)).
  { apply js_mul_of_doubles; [apply js_mul_is_double | exact H100]. }
  rewrite Em.
  assert (Heps : 2 ^ (-53) == 1 # 9007199254740992) by reflexivity.
  assert (Heps' : 2 ^ (-51) == 1 # 2251799813685248) by reflexivity.
  assert (Hsmall : 2 ^ (-1022) <= 1).
  { change 1 with (2 ^ 0). apply pow2_le. lia. }
  rewrite Heps in E1. rewrite Heps'.
  set (p := a * b) in *. set (m := js_mul a b) in *.
  apply Qabs_Qle_condition in E1 as [E1 E1'].
  pose proof (binary64_relative_error (m * 100)) as E2.
  assert (Hm : 0 < m * 100) by lra.
  rewrite (Qabs_pos (m * 100)) in E2 by lra.
  assert (Hn2 : 2 ^ (-1022) <= m * 100) by lra.
  specialize (E2 Hn2). rewrite Heps in E2.
  set (f := binary64 (m * 100)) in *.
  apply Qabs_Qle_condition in E2 as [E2 E2'].
  apply Qabs_Qle_condition. split; lra.
Qed.

Lemma binary64_canonical (x : Q) : Qred (binary64 x) = binary64 x.
Proof.
  unfold binary64. destruct (Qeq_bool x 0); [reflexivity |].
  apply Qred_complete, Qred_correct.
Qed.

(** Equal rationals round to the same value, written the same way. *)
Lemma binary64_ext (x y : Q) : x == y -> binary64 x = binary64 y.
Proof.
  intros E. rewrite <- (binary64_canonical x), <- (binary64_canonical y).
  apply Qred_complete. now rewrite E.
Qed.

(** What is stored by [parseFloat(x.toFixed(digits))]: the binary64 value
    nearest to a multiple of [10^-digits] that is within half a unit of the
    last kept digit of [x]. *)
Lemma toFixed_spec (digits : nat) (x : Q) :
  exists k : Z,
    toFixed digits x = binary64 (inject_Z k / inject_Z (10 ^ Z.of_nat digits))
    /\ Qabs (inject_Z k / inject_Z (10 ^ Z.of_nat digits) - binary64 x)
       <= (1 # 2) / inject_Z (10 ^ Z.of_nat digits).
Proof.
  destruct (decimal_round_grid digits (binary64 x)) as [k Hk].
  exists k. split.
  - unfold toFixed. apply binary64_ext. exact Hk.
  - rewrite <- Hk. apply decimal_round_near.
Qed.
End Binary64.

(** The proofs below reason about [binary64] through the lemmas above and
    evaluate it on closed inputs only. *)
#[global] Opaque binary64.
#[global] Arguments binary64 : simpl never.

(** ** The stable sort *)

Section ArraySortFacts.
Context {A : Type} (cmp : A -> A -> Z) (before : A -> A -> Prop).
Hypothesis cmp_neg : forall y x, cmp y x < 0 -> before y x.
Hypothesis cmp_nonneg : forall y x, 0 <= cmp y x -> before x y.
Hypothesis before_trans : forall a b c, before a b -> before b c -> before a c.

Lemma sort_insert_perm (x : A) (l : list A) :
  Permutation (sort_insert cmp x l) (x :: l).
Proof.
  induction l as [| y l IH]; simpl; [reflexivity |].
  destruct (cmp y x <? 0); [| reflexivity].
  rewrite IH. apply perm_swap.
Qed.

Lemma Array_sort_perm (l : list A) : Permutation (Array_sort cmp l) l.
Proof.
  induction l as [| x l IH]; simpl; [reflexivity |].
  rewrite sort_insert_perm. now rewrite IH.
Qed.

Lemma sort_insert_sorted (x : A) (l : list A) :
  Sorted before l -> Sorted before (sort_insert cmp x l).
Proof.
  induction 1 as [| y l Hl IH Hhd]; simpl.
  - repeat constructor.
  - destruct (Z.ltb_spec (cmp y x) 0) as [Hlt | Hge].
    + constructor; [exact IH |].
      destruct l as [| z l]; simpl.
      * constructor. now apply cmp_neg.
      * destruct (cmp z x <? 0).
        -- constructor. now inversion Hhd.
        -- constructor. now apply cmp_neg.
    + constructor; [now constructor |].
      constructor. now apply cmp_nonneg.
Qed.

Lemma Array_sort_sorted (l : list A) : StronglySorted before (Array_sort cmp l).
Proof.
  apply Sorted_StronglySorted; [exact before_trans |].
  induction l as [| x l IH]; simpl; [constructor |].
  now apply sort_insert_sorted.
Qed.
End ArraySortFacts.

Lemma Array_sort_length {A : Type} (cmp : A -> A -> Z) (l : list A) :
  length (Array_sort cmp l) = length l.
Proof.
  induction l as [| x l IH]; simpl; [reflexivity |].
  rewrite <- IH. generalize (Array_sort cmp l). intros k.
  induction k as [| y k IHk]; simpl; [reflexivity |].
  destruct (cmp y x <? 0); simpl; [now rewrite IHk | reflexivity].
Qed.

(** ** PriorityFeeEstimator *)

Lemma Math_ceil_unique (v : Q) (z : Z) :
  (inject_Z z - 1 < v)%Q -> (v <= inject_Z z)%Q -> Math_ceil v = z.
Proof.
  intros Hlo Hhi. destruct (Math_ceil_near v) as [H1 H2].
  set (c := Math_ceil v) in *.
  assert (A : (inject_Z (z - 1) < inject_Z c)%Q).
  { unfold Z.sub. rewrite inject_Z_plus. change (inject_Z (- (1))) with (- (1))%Q. lra. }
  assert (B : (inject_Z c < inject_Z (z + 1))%Q).
  { rewrite inject_Z_plus. change (inject_Z 1) with 1%Q. lra. }
  rewrite <- Zlt_Qlt in A, B. lia.
Qed.

Lemma binary64_1_2 : (binary64 (12 # 10) == 5404319552844595 # 4503599627370496)%Q.
Proof. vm_compute. reflexivity. Qed.

(** The binary64 product of a fee and 1.2, rounded up and clamped, is the
    exact product rounded up and clamped. *)
Lemma clamped_fee_exact (fee : Z) :
  Z.min (Z.max (Math_ceil (js_mul (inject_Z fee) (12 # 10))) 100000) 1000000
  = Z.min (Z.max (Math_ceil (inject_Z fee * (12 # 10))) 100000) 1000000.
Proof.
  pose proof binary64_1_2 as Hc.
  unfold js_mul. set (c := binary64 (12 # 10)) in *.
  set (f := binary64 (inject_Z fee)).
  destruct (Z_le_gt_dec fee 0) as [Hneg | Hpos].
  { assert (Hf : (f <= 0)%Q).
    { apply binary64_le; [apply (integer_is_double 0); simpl; lia |].
      change 0%Q with (inject_Z 0). now rewrite <- Zle_Qle. }
    assert (Hx : (binary64 (f * c) <= 0)%Q).
    { apply binary64_le; [apply (integer_is_double 0); simpl; lia |]. rewrite Hc. nra. }
    assert (Hy : (inject_Z fee * (12 # 10) <= 0)%Q).
    { assert (inject_Z fee <= 0)%Q
        by (change 0%Q with (inject_Z 0); now rewrite <- Zle_Qle).
      lra. }
    apply Qceiling_resp_le in Hx, Hy. change (Qceiling 0) with 0 in *.
    unfold Math_ceil. lia. }
  destruct (Z_lt_ge_dec fee 833334) as [Hsmall | Hbig].
  2: { assert (Hfee : (833334 <= inject_Z fee)%Q).
       { change 833334%Q with (inject_Z 833334). rewrite <- Zle_Qle. lia. }
       assert (Hf : (833334 <= f)%Q).
       { apply binary64_ge; [apply (integer_is_double 833334); simpl; lia | exact Hfee]. }
       assert (Hx : (1000000 <= binary64 (f * c))%Q).
       { apply binary64_ge; [apply (integer_is_double 1000000); simpl; lia |].
         rewrite Hc. nra. }
       assert (Hy : (1000000 <= inject_Z fee * (12 # 10))%Q) by lra.
       apply Qceiling_resp_le in Hx, Hy. change (Qceiling 1000000) with 1000000 in *.
       unfold Math_ceil. lia. }
  assert (Hf : (f == inject_Z fee)%Q).
  { apply binary64_of_double, integer_is_double.
    assert (2 ^ 53 = 9007199254740992) by reflexivity. lia. }
  assert (Hfee : (1 <= inject_Z fee /\ inject_Z fee <= 833333)%Q).
  { split; [change 1%Q with (inject_Z 1) | change 833333%Q with (inject_Z 833333)];
      rewrite <- Zle_Qle; lia. }
  set (y := (inject_Z fee * (12 # 10))%Q).
  destruct (Math_ceil_near y) as [Y1 Y2].
  set (z := Math_ceil y) in *.
  assert (Hz : 0 < z <= 1000001).
  { assert (A : (inject_Z 0 < inject_Z z)%Q) by (change (inject_Z 0) with 0%Q; unfold y in *; lra).
    assert (B : (inject_Z z < inject_Z 1000002)%Q)
      by (change (inject_Z 1000002) with 1000002%Q; unfold y in *; lra).
    rewrite <- Zlt_Qlt in A, B. lia. }
  assert (Hgap : (inject_Z z - 1 + (1 # 5) <= y)%Q).
  { assert (A : (inject_Z (5 * (z - 1)) < inject_Z (6 * fee))%Q).
    { rewrite !inject_Z_mult. unfold Z.sub. rewrite inject_Z_plus.
      change (inject_Z (- (1))) with (- (1))%Q.
      change (inject_Z 5) with 5%Q. change (inject_Z 6) with 6%Q. unfold y in *. lra. }
    rewrite <- Zlt_Qlt in A.
    assert (B : (inject_Z (5 * (z - 1) + 1) <= inject_Z (6 * fee))%Q)
      by (rewrite <- Zle_Qle; lia).
    rewrite inject_Z_plus, !inject_Z_mult in B. unfold Z.sub in B.
    rewrite inject_Z_plus in B.
    change (inject_Z (- (1))) with (- (1))%Q in B.
    change (inject_Z 5) with 5%Q in B. change (inject_Z 6) with 6%Q in B.
    change (inject_Z 1) with 1%Q in B. unfold y. lra. }
  assert (Ex : (f * c == inject_Z fee * (5404319552844595 # 4503599627370496))%Q)
    by (now rewrite Hf, Hc).
  set (x := (f * c)%Q) in *.
  assert (Hxy : (y - (1 # 1000000) <= x /\ x <= y)%Q) by (unfold y in *; lra).
  assert (Hnorm : (2 ^ (-1022) <= Qabs x)%Q).
  { rewrite (Qabs_pos x) by (unfold y in *; lra).
    assert (2 ^ (-1022) <= 1)%Q by (change 1%Q with (2 ^ 0)%Q; apply pow2_le; lia).
    unfold y in *. lra. }
  pose proof (binary64_relative_error x Hnorm) as E.
  rewrite (Qabs_pos x) in E by (unfold y in *; lra).
  assert (Heps : (2 ^ (-53) == 1 # 9007199254740992)%Q) by reflexivity.
  rewrite Heps in E. apply Qabs_Qle_condition in E as [E1 _].
  assert (Hup : (binary64 x <= inject_Z z)%Q).
  { apply binary64_le; [apply integer_is_double |].
    - assert (2 ^ 53 = 9007199254740992) by reflexivity. lia.
    - lra. }
  assert (Hlo : (inject_Z z - 1 < binary64 x)%Q).
  { assert (x <= 1000001)%Q by (unfold y in *; lra).
    set (bx := binary64 x) in *. nra. }
  unfold Math_ceil at 1. fold (Math_ceil (binary64 x)).
  now rewrite (Math_ceil_unique _ z Hlo Hup).
Qed.

Lemma median_index_in_range (l : list Z) :
  (0 < length l)%nat ->
  Array_sort (fun a b => a - b) l !! (Nat.div (length l) 2)
  = Some (nth (Nat.div (length l) 2) (Array_sort (fun a b => a - b) l) 0).
Proof.
  intros Hlen.
  destruct (nth_lookup_or_length (Array_sort (fun a b => a - b) l)
              (Nat.div (length l) 2) 0) as [H | H]; [exact H |].
  rewrite Array_sort_length in H.
  assert (Nat.div (length l) 2 < length l)%nat by (apply Nat.div_lt; lia).
  lia.
Qed.

(** C6 (as the code has it): the estimate never fails; for a non-empty
    sample it takes the observations in descending slot order, keeps the
    first five (fewer if there are fewer), sorts their fees in ascending
    order, picks the fee at index [floor(n/2)], multiplies it by 1.2,
    rounds UP to an integer and clamps to [100000, 1000000]; the sample of
    the specification yields 180000; an empty sample and a failing
    sampling call yield 200000. *)
Theorem getDynamicPriorityFee_median_ceil_clamp :
  (forall obs : list fee_observation, obs <> [] ->
     exists (by_slot : list fee_observation) (asc : list Z) (m : Z),
       Permutation by_slot obs
       /\ StronglySorted (fun a b => slot b <= slot a) by_slot
       /\ Permutation asc (map prioritizationFee (take 5 by_slot))
       /\ StronglySorted Z.le asc
       /\ asc !! (Nat.div (length asc) 2) = Some m
       /\ getDynamicPriorityFee (Returned obs)
          = Z.min (Z.max (Qceiling (inject_Z m * (12 # 10))) 100000) 1000000
       /\ 100000 <= getDynamicPriorityFee (Returned obs) <= 1000000)
  /\ getDynamicPriorityFee (Returned spec_example_observations) = 180000
  /\ getDynamicPriorityFee (Returned []) = 200000
  /\ (forall e, getDynamicPriorityFee (Threw e) = 200000).
Proof.
  split; [| split; [vm_compute; reflexivity | split; [reflexivity | reflexivity]]].
  intros obs Hne.
  set (by_slot := Array_sort (fun a b => slot b - slot a) obs).
  set (recent := map prioritizationFee (take 5 by_slot)).
  set (asc := Array_sort (fun a b => a - b) recent).
  assert (Hobs : (0 < length obs)%nat) by (destruct obs; [congruence | simpl; lia]).
  assert (Hrecent : (0 < length recent)%nat).
  { unfold recent, by_slot.
    rewrite length_map, length_take, Array_sort_length. lia. }
  exists by_slot, asc, (nth (Nat.div (length recent) 2) asc 0).
  assert (Hfee : getDynamicPriorityFee (Returned obs)
                 = Z.min (Z.max (Qceiling (inject_Z (nth (Nat.div (length recent) 2) asc 0)
                                           * (12 # 10))) 100000) 1000000).
  { unfold getDynamicPriorityFee.
    destruct (Z.ltb_spec 0 (Z.of_nat (length obs))) as [_ | Hle]; [| lia].
    apply clamped_fee_exact. }
  split; [apply Array_sort_perm |].
  split.
  { apply (Array_sort_sorted (fun a b => slot b - slot a)); intros; lia. }
  split; [apply Array_sort_perm |].
  split.
  { apply (Array_sort_sorted (fun a b => a - b)); intros; lia. }
  split.
  { unfold asc at 1. rewrite Array_sort_length. now apply median_index_in_range. }
  split; [exact Hfee |].
  rewrite Hfee. lia.
Qed.

Lemma getDynamicPriorityFee_median_ceil_clamp_witness :
  exists (by_slot : list fee_observation) (asc : list Z) (m : Z),
    Permutation by_slot spec_example_observations
    /\ StronglySorted (fun a b => slot b <= slot a) by_slot
    /\ Permutation asc (map prioritizationFee (take 5 by_slot))
    /\ StronglySorted Z.le asc
    /\ asc !! (Nat.div (length asc) 2) = Some m
    /\ getDynamicPriorityFee (Returned spec_example_observations)
       = Z.min (Z.max (Qceiling (inject_Z m * (12 # 10))) 100000) 1000000
    /\ 100000 <= getDynamicPriorityFee (Returned spec_example_observations) <= 1000000.
Proof.
  apply (proj1 getDynamicPriorityFee_median_ceil_clamp spec_example_observations).
  discriminate.
Defined.

(** C6 (as stated) fails: with five observations of fee 150001 the code
    answers [ceil(180001.2) = 180002], the specified estimate is
    [round(180001.2) = 180001]. *)
Lemma priority_fee_rounds_up_not_nearest :
  getDynamicPriorityFee (Returned flat_observations) = 180002
  /\ FeeSpec.estimate flat_observations = 180001
  /\ ~ (forall obs, obs <> [] ->
          getDynamicPriorityFee (Returned obs) = FeeSpec.estimate obs).
Proof.
  assert (H1 : getDynamicPriorityFee (Returned flat_observations) = 180002)
    by (vm_compute; reflexivity).
  assert (H2 : FeeSpec.estimate flat_observations = 180001)
    by (vm_compute; reflexivity).
  split; [exact H1 | split; [exact H2 |]].
  intros H. specialize (H flat_observations ltac:(discriminate)).
  rewrite H1, H2 in H. discriminate.
Qed.

(** ** What each handler does to the store *)

Lemma CreateCheckout_store (cfg : config) (w : CreateCheckout.world)
    (b : CreateCheckout.body) (st : session_store) :
  CreateCheckout.store (CreateCheckout.handler cfg w b st) = st
  \/ exists record,
       CreateCheckout.store (CreateCheckout.handler cfg w b st)
       = <[CreateCheckout.uniqueSessionId w := record]> st
       /\ Session.status record = "created"
       /\ Session.isTokenSwap record = truthy (CreateCheckout.tokenSymbol b).
Proof.
  unfold CreateCheckout.handler.
  repeat case_match; simpl; auto.
  right. eexists. split; [reflexivity |]. split; reflexivity.
Qed.

Lemma PaymentSuccess_store (q : PaymentSuccess.query) (st : session_store) :
  PaymentSuccess.store (PaymentSuccess.handler q st) = st.
Proof. reflexivity. Qed.

Lemma PaymentStatus_store (w : PaymentStatus.world) (sid : string) (st : session_store) :
  PaymentStatus.store (PaymentStatus.handler w sid st) = st.
Proof. unfold PaymentStatus.handler. repeat case_match; reflexivity. Qed.

Lemma record_transfer_status (sig link now : string) (a : Q) (s : session) :
  Session.status (TransferSol.record_transfer sig link now a s)
  = if Session.isTokenSwap s then "sol_received" else "sol_transferred".
Proof. destruct s as [? ? ? ? ? ? ? ? [] ? ? ? ? ? ? ? ? ? ? ?]; reflexivity. Qed.

Lemma record_swap_status (swapTx transferTx : string) (a : Q) (s : session) :
  Session.status (SwapTokens.record_swap swapTx transferTx a s) = "completed".
Proof. destruct s; reflexivity. Qed.

Lemma TransferSol_store (cfg : config) (w : TransferSol.world)
    (b : TransferSol.body) (st : session_store) :
  TransferSol.store (TransferSol.handler cfg w b st) = st
  \/ exists sid sig link now a,
       TransferSol.store (TransferSol.handler cfg w b st)
       = alter (TransferSol.record_transfer sig link now a) sid st.
Proof.
  unfold TransferSol.handler, TransferSol.update_session.
  repeat case_match; simpl; eauto 10.
Qed.

Lemma SwapTokens_execute_store (w : SwapTokens.world) (b : SwapTokens.body)
    (q : SwapTokens.quote) (key : option string) (sym : jsval) (st : session_store) :
  (SwapTokens.execute w b q key sym st).1.2 = st
  \/ exists sid swapTx transferTx a,
       (SwapTokens.execute w b q key sym st).1.2
       = alter (SwapTokens.record_swap swapTx transferTx a) sid st.
Proof.
  unfold SwapTokens.execute.
  repeat case_match; simpl; eauto 10.
Qed.

Lemma SwapTokens_store (cfg : config) (w : SwapTokens.world)
    (b : SwapTokens.body) (st : session_store) :
  SwapTokens.store (SwapTokens.handler cfg w b st) = st
  \/ exists sid swapTx transferTx a,
       SwapTokens.store (SwapTokens.handler cfg w b st)
       = alter (SwapTokens.record_swap swapTx transferTx a) sid st.
Proof.
  unfold SwapTokens.handler.
  repeat case_match; simpl; auto.
  all: match goal with
       | H : SwapTokens.execute ?w ?b ?q ?k ?s ?st = _ |- _ =>
           pose proof (SwapTokens_execute_store w b q k s st) as Hex;
           rewrite H in Hex; exact Hex
       end.
Qed.

(** ** Session lifecycle *)

Lemma terminal_is_past_payment (st : string) :
  terminal_status st = true -> past_payment st.
Proof.
  unfold terminal_status, past_payment. intros H.
  apply orb_true_iff in H as [H | H]; [apply orb_true_iff in H as [H | H] |];
    apply String.eqb_eq in H; subst; split; discriminate.
Qed.

Lemma alter_keeps_past_payment (f : session -> session) (key sid : string)
    (st : session_store) (s : session) :
  (forall x, past_payment (Session.status (f x))) ->
  st !! sid = Some s -> past_payment (Session.status s) ->
  exists s', alter f key st !! sid = Some s' /\ past_payment (Session.status s').
Proof.
  intros Hf Hs Hp. destruct (decide (key = sid)) as [-> | Hne].
  - exists (f s). rewrite lookup_alter_eq, Hs. split; [reflexivity | apply Hf].
  - exists s. rewrite lookup_alter_ne by exact Hne. split; assumption.
Qed.

Lemma step_keeps_past_payment (cfg : config) (c : call) (st : session_store)
    (sid : string) (s : session) :
  st !! sid = Some s -> past_payment (Session.status s) ->
  generated_id c <> Some sid ->
  exists s', step cfg st c !! sid = Some s' /\ past_payment (Session.status s').
Proof.
  intros Hs Hp Hid. destruct c as [w b | q | w k | w b | w b]; simpl.
  - destruct (CreateCheckout_store cfg w b st) as [-> | (r & -> & _)]; [eauto |].
    exists s. rewrite lookup_insert_ne; [auto |].
    intros E. apply Hid. simpl. now rewrite E.
  - eauto.
  - rewrite PaymentStatus_store. eauto.
  - destruct (TransferSol_store cfg w b st) as [-> | (k & sig & l & n & a & ->)]; [eauto |].
    apply (alter_keeps_past_payment _ _ _ _ s); [| assumption | assumption].
    intros x. rewrite record_transfer_status.
    destruct (Session.isTokenSwap x); split; discriminate.
  - destruct (SwapTokens_store cfg w b st) as [-> | (k & t1 & t2 & a & ->)]; [eauto |].
    apply (alter_keeps_past_payment _ _ _ _ s); [| assumption | assumption].
    intros x. rewrite record_swap_status. split; discriminate.
Qed.

(** C1: a session whose status is terminal ([sol_transferred],
    [token_swap_completed] or [error]) never gets the status [created] or
    [payment_completed] again, whatever requests follow on whatever
    endpoints.  Session ids are unique: no later checkout request
    generates the id of that session. *)
Theorem terminal_status_never_reverts (cfg : config) (calls : list call)
    (st : session_store) (sid : string) (s : session) :
  st !! sid = Some s ->
  terminal_status (Session.status s) = true ->
  Forall (fun c => generated_id c <> Some sid) calls ->
  exists s', run cfg calls st !! sid = Some s'
             /\ Session.status s' <> "created"
             /\ Session.status s' <> "payment_completed".
Proof.
  intros Hs Ht Hfresh. apply terminal_is_past_payment in Ht.
  revert st s Hs Ht. induction Hfresh as [| c calls Hc _ IH]; intros st s Hs Ht.
  - exists s. split; [exact Hs | exact Ht].
  - destruct (step_keeps_past_payment cfg c st sid s Hs Ht Hc) as (s1 & Hs1 & Hp1).
    simpl. apply (IH _ s1); assumption.
Qed.

Lemma terminal_status_never_reverts_witness :
  exists s', run example_cfg later_calls settled_store !! example_sid = Some s'
             /\ Session.status s' <> "created"
             /\ Session.status s' <> "payment_completed".
Proof.
  apply (terminal_status_never_reverts example_cfg later_calls settled_store
           example_sid settled_session).
  - reflexivity.
  - reflexivity.
  - repeat constructor; simpl; discriminate.
Defined.

(** ** CheckoutSessionService *)

(** When the input checks pass, the price feed answers, amounts resolve
    and Stripe accepts, the handler answers with the resolved amounts and
    registers the session under the generated id. *)
Lemma CreateCheckout_created (cfg : config) (w : CreateCheckout.world)
    (b : CreateCheckout.body) (st : session_store)
    (price : CreateCheckout.sol_price) (cur : string) (amount finalSol : Q) :
  CreateCheckout.accepted b = true ->
  CreateCheckout.getCurrentSolPrice w = Some price ->
  CreateCheckout.resolve_amounts cfg b price = Some (cur, amount, finalSol) ->
  (forall req, exists ss, CreateCheckout.stripe_create w req = Returned ss) ->
  exists r record req,
    CreateCheckout.resp (CreateCheckout.handler cfg w b st) = CreateCheckout.Created r
    /\ CreateCheckout.store (CreateCheckout.handler cfg w b st)
       = <[CreateCheckout.uniqueSessionId w := record]> st
    /\ CreateCheckout.stripe_calls (CreateCheckout.handler cfg w b st) = [req]
    /\ (Session.status record = "created"
        /\ Session.id record = CreateCheckout.uniqueSessionId w
        /\ Session.solAmount record = toFixed 8 finalSol
        /\ Session.isTokenSwap record = truthy (CreateCheckout.tokenSymbol b))
    /\ (CreateCheckout.r_solAmount r = toFixed 8 finalSol
        /\ CreateCheckout.r_fiatAmount r = js_div amount 100
        /\ CreateCheckout.r_fiatCurrency r = cur
        /\ CreateCheckout.r_sessionId r = CreateCheckout.uniqueSessionId w
        /\ CreateCheckout.r_isTokenSwap r = truthy (CreateCheckout.tokenSymbol b))
    /\ (CreateCheckout.unit_amount req = amount
        /\ CreateCheckout.currency req = cur
        /\ CreateCheckout.metadata_isTokenSwap req = truthy (CreateCheckout.tokenSymbol b)).
Proof.
  intros Hacc Hprice Hres Hstripe.
  unfold CreateCheckout.accepted in Hacc.
  apply andb_true_iff in Hacc as [Hacc Hcountry].
  apply andb_true_iff in Hacc as [Hwallet Hemail].
  apply negb_true_iff in Hemail, Hcountry.
  unfold CreateCheckout.handler.
  destruct (CreateCheckout.walletAddress b) as [| | | | wallet] eqn:Ew;
    try discriminate.
  rewrite Hwallet, Hemail, Hcountry, Hprice, Hres. simpl.
  match goal with
  | |- context [CreateCheckout.stripe_create w ?req] =>
      destruct (Hstripe req) as [ss Hss]; rewrite Hss
  end.
  simpl. do 3 eexists. repeat split.
Qed.

(** When the input checks pass and the price feed answers, amounts that do
    not resolve are answered 500 'Invalid price configuration'. *)
Lemma CreateCheckout_unresolved (cfg : config) (w : CreateCheckout.world)
    (b : CreateCheckout.body) (st : session_store)
    (price : CreateCheckout.sol_price) :
  CreateCheckout.accepted b = true ->
  CreateCheckout.getCurrentSolPrice w = Some price ->
  CreateCheckout.resolve_amounts cfg b price = None ->
  CreateCheckout.resp (CreateCheckout.handler cfg w b st)
  = CreateCheckout.Error 500 "Invalid price configuration"
  /\ CreateCheckout.store (CreateCheckout.handler cfg w b st) = st
  /\ CreateCheckout.stripe_calls (CreateCheckout.handler cfg w b st) = [].
Proof.
  intros Hacc Hprice Hres.
  unfold CreateCheckout.accepted in Hacc.
  apply andb_true_iff in Hacc as [Hacc Hcountry].
  apply andb_true_iff in Hacc as [Hwallet Hemail].
  apply negb_true_iff in Hemail, Hcountry.
  unfold CreateCheckout.handler.
  destruct (CreateCheckout.walletAddress b) as [| | | | wallet]; try discriminate.
  rewrite Hwallet, Hemail, Hcountry, Hprice, Hres. simpl. repeat split.
Qed.

Lemma positive_number_JNum (n : Q) : (0 < n)%Q -> positive_number (JNum n) = Some n.
Proof.
  intros H. simpl. destruct (Qlt_le_dec 0 n) as [_ | Hle]; [reflexivity |].
  exfalso. exact (Qlt_not_le _ _ H Hle).
Qed.

Lemma inject_Z_pos (z : Z) : 0 < z -> (0 < inject_Z z)%Q.
Proof. intros H. change 0%Q with (inject_Z 0). now rewrite <- Zlt_Qlt. Qed.

Lemma Math_round_integer (k : Z) : Math_round (inject_Z k) = k.
Proof.
  destruct (Math_round_near (inject_Z k)) as [Hlo Hhi].
  set (z := Math_round (inject_Z k)) in *.
  assert (H1 : (inject_Z (k - 1) < inject_Z z)%Q).
  { unfold Z.sub. rewrite inject_Z_plus.
    change (inject_Z (- (1))) with (- (1))%Q. lra. }
  assert (H2 : (inject_Z z < inject_Z (k + 1))%Q).
  { rewrite inject_Z_plus. change (inject_Z 1) with 1%Q. lra. }
  rewrite <- Zlt_Qlt in H1, H2. lia.
Qed.

(** The amount check of line 156 on an amount in whole minor units. *)
Lemma positive_amount_check {A : Type} (z : Z) (yes no : A) :
  (if Qlt_le_dec 0 (inject_Z z) then yes else no) = if 0 <? z then yes else no.
Proof.
  destruct (Qlt_le_dec 0 (inject_Z z)) as [H | H];
    change 0%Q with (inject_Z 0) in H;
    [rewrite <- Zlt_Qlt in H | rewrite <- Zle_Qle in H];
    destruct (Z.ltb_spec 0 z); try reflexivity; lia.
Qed.

Lemma resolve_amounts_of_solAmount (cfg : config) (b : CreateCheckout.body)
    (price : CreateCheckout.sol_price) (s : Q) :
  CreateCheckout.solAmount b = JNum s -> (0 < s)%Q ->
  let minor := Math_round (js_mul (js_mul s (CreateCheckout.current_rate b price)) 100) in
  CreateCheckout.resolve_amounts cfg b price
  = if 0 <? minor
    then Some (CreateCheckout.selected_currency b, inject_Z minor, s)
    else None.
Proof.
  intros Hs Hpos minor.
  subst minor.
  unfold CreateCheckout.resolve_amounts, CreateCheckout.selected_currency,
    CreateCheckout.current_rate.
  rewrite Hs, (positive_number_JNum s Hpos).
  destruct (CreateCheckout.is_IN (CreateCheckout.country b)); simpl;
    apply positive_amount_check.
Qed.

Lemma resolve_amounts_of_dollarAmount (cfg : config) (b : CreateCheckout.body)
    (price : CreateCheckout.sol_price) (d : Q) :
  positive_number (CreateCheckout.solAmount b) = None ->
  CreateCheckout.dollarAmount b = JNum d -> (0 < d)%Q ->
  let minor := Math_round (js_mul d 100) in
  CreateCheckout.resolve_amounts cfg b price
  = if 0 <? minor
    then Some (CreateCheckout.selected_currency b, inject_Z minor,
               js_div (js_div (inject_Z minor) 100)
                 (CreateCheckout.current_rate b price))
    else None.
Proof.
  intros Hsol Hd Hpos minor.
  subst minor.
  unfold CreateCheckout.resolve_amounts, CreateCheckout.selected_currency,
    CreateCheckout.current_rate.
  rewrite Hsol, Hd, (positive_number_JNum d Hpos).
  destruct (CreateCheckout.is_IN (CreateCheckout.country b)); simpl;
    apply positive_amount_check.
Qed.

(** C2 (as the code has it): when [solAmount] is a number greater than 0
    it decides the amounts, whatever [dollarAmount] holds.  The amount in
    minor units is the product [solAmount * rate * 100], computed in
    binary64 at the current rate of the selected currency and rounded to
    the nearest integer.  When that integer is 0 the request is answered
    500 'Invalid price configuration' and nothing is charged or stored.
    Otherwise Stripe is asked to charge it, and the stored SOL amount is
    [solAmount] rounded to 8 decimal places (the binary64 value nearest to
    that decimal); the binary64 product is within [2^-51] of the exact
    one, relative to it, in the normal range.  The products are taken to
    be finite. *)
Theorem solAmount_takes_precedence (cfg : config) (w : CreateCheckout.world)
    (b : CreateCheckout.body) (st : session_store)
    (price : CreateCheckout.sol_price) (s : Q) :
  CreateCheckout.accepted b = true ->
  CreateCheckout.getCurrentSolPrice w = Some price ->
  CreateCheckout.solAmount b = JNum s -> (0 < s)%Q ->
  mul_finite s (CreateCheckout.current_rate b price) ->
  mul_finite (js_mul s (CreateCheckout.current_rate b price)) 100 ->
  (forall req, exists ss, CreateCheckout.stripe_create w req = Returned ss) ->
  let rate := CreateCheckout.current_rate b price in
  let fiat := js_mul (js_mul s rate) 100 in
  let res := CreateCheckout.handler cfg w b st in
  (Math_round fiat <= 0 ->
     CreateCheckout.resp res = CreateCheckout.Error 500 "Invalid price configuration"
     /\ CreateCheckout.store res = st
     /\ CreateCheckout.stripe_calls res = [])
  /\ (0 < Math_round fiat ->
      exists r record req (k : Z),
        CreateCheckout.resp res = CreateCheckout.Created r
        /\ CreateCheckout.store res !! CreateCheckout.uniqueSessionId w = Some record
        /\ CreateCheckout.stripe_calls res = [req]
        /\ Session.solAmount record = binary64 (inject_Z k / inject_Z (10 ^ 8))
        /\ (Qabs (inject_Z k / inject_Z (10 ^ 8) - binary64 s)
            <= (1 # 2) / inject_Z (10 ^ 8))%Q
        /\ CreateCheckout.r_solAmount r = Session.solAmount record
        /\ CreateCheckout.currency req = CreateCheckout.selected_currency b
        /\ CreateCheckout.unit_amount req = inject_Z (Math_round fiat)
        /\ (fiat - (1 # 2) < CreateCheckout.unit_amount req <= fiat + (1 # 2))%Q
        /\ CreateCheckout.r_fiatAmount r = js_div (CreateCheckout.unit_amount req) 100)
  /\ (is_double s -> is_double rate -> (0 < rate)%Q -> (2 ^ (-1022) <= s * rate)%Q ->
      (Qabs (fiat - s * rate * 100) <= s * rate * 100 * 2 ^ (-51))%Q).
Proof.
  intros Hacc Hprice Hs Hpos _ _ Hstripe rate fiat res.
  pose proof (resolve_amounts_of_solAmount cfg b price s Hs Hpos) as Hres.
  cbv zeta in Hres. fold rate fiat in Hres.
  split; [| split].
  - intros Hzero.
    destruct (Z.ltb_spec 0 (Math_round fiat)) as [Hlt | _]; [lia |].
    exact (CreateCheckout_unresolved cfg w b st price Hacc Hprice Hres).
  - intros Hround.
    destruct (Z.ltb_spec 0 (Math_round fiat)) as [_ | Hle]; [| lia].
    destruct (CreateCheckout_created cfg w b st price _ _ _ Hacc Hprice Hres Hstripe)
      as (r & record & req & Hr & Hst & Hcalls & (_ & _ & Hsol & _)
          & (Hrsol & Hfiat & _) & (Hunit & Hcur & _)).
    destruct (toFixed_spec 8 s) as (k & Hk & Hnear).
    exists r, record, req, k. fold res in Hr, Hst, Hcalls.
    split; [exact Hr |].
    split; [rewrite Hst; apply lookup_insert_eq |].
    split; [exact Hcalls |].
    split; [now rewrite Hsol |].
    split; [exact Hnear |].
    split; [congruence |].
    split; [exact Hcur |].
    split; [exact Hunit |].
    split; [rewrite Hunit; apply Math_round_near |].
    now rewrite Hunit.
  - intros Hds Hdr Hrate Hnorm.
    apply js_mul_mul_100_error; assumption.
Qed.

Lemma solAmount_takes_precedence_witness :
  let b := checkout_body (JNum (binary64 (101 # 100))) (JNum 25) JUndefined JUndefined in
  let w := {|
    CreateCheckout.getCurrentSolPrice :=
      Some {| CreateCheckout.price_usd := 1355 # 10; CreateCheckout.price_inr := 12500 |};
    CreateCheckout.Date_now := CreateCheckout.Date_now checkout_world;
    CreateCheckout.random_suffix := CreateCheckout.random_suffix checkout_world;
    CreateCheckout.iso_now := CreateCheckout.iso_now checkout_world;
    CreateCheckout.stripe_create := CreateCheckout.stripe_create checkout_world |} in
  let res := CreateCheckout.handler example_cfg w b ∅ in
  exists r record req (k : Z),
    CreateCheckout.resp res = CreateCheckout.Created r
    /\ CreateCheckout.store res !! CreateCheckout.uniqueSessionId w = Some record
    /\ CreateCheckout.stripe_calls res = [req]
    /\ Session.solAmount record = binary64 (inject_Z k / inject_Z (10 ^ 8))
    /\ CreateCheckout.unit_amount req = 13685%Q.
Proof.
  intros b w res.
  destruct (solAmount_takes_precedence example_cfg w b ∅
              {| CreateCheckout.price_usd := 1355 # 10; CreateCheckout.price_inr := 12500 |}
              (binary64 (101 # 100)))
    as (_ & H & _).
  - reflexivity.
  - reflexivity.
  - reflexivity.
  - reflexivity.
  - reflexivity.
  - reflexivity.
  - intros req. eexists. reflexivity.
  - destruct H as (r & record & req & k & H1 & H2 & H3 & H4 & _ & _ & _ & H8 & _);
      [reflexivity |].
    exists r, record, req, k. fold res in H1, H2, H3.
    split; [exact H1 |]. split; [exact H2 |]. split; [exact H3 |].
    split; [exact H4 |]. rewrite H8. reflexivity.
Defined.

(** C2 (as stated) fails: a [solAmount] of one billionth of a SOL is a
    number greater than 0, but at a rate of 150 it comes to 0 minor units:
    the request is answered 500 'Invalid price configuration', Stripe is
    not asked and no SOL amount is stored.  And the amount charged is the
    rounded binary64 product, not the rounded product: for 1.01 SOL at a
    rate of 135.5 the code charges 13685 minor units, while the product of
    the same numbers, rounded to the nearest integer, is 13686. *)
Lemma tiny_solAmount_is_refused :
  let b := checkout_body (JNum (binary64 (1 # 1000000000))) (JNum 25)
             JUndefined JUndefined in
  let res := CreateCheckout.handler example_cfg checkout_world b ∅ in
  let s := binary64 (101 # 100) in
  let rate := binary64 (1355 # 10) in
  (positive_number (CreateCheckout.solAmount b) = Some (binary64 (1 # 1000000000))
   /\ CreateCheckout.accepted b = true
   /\ CreateCheckout.resp res = CreateCheckout.Error 500 "Invalid price configuration"
   /\ CreateCheckout.stripe_calls res = []
   /\ CreateCheckout.store res = ∅)
  /\ (Math_round (js_mul (js_mul s rate) 100) = 13685
      /\ Math_round (s * rate * 100) = 13686).
Proof.
  intros b res s rate. split.
  - split; [reflexivity |]. split; [reflexivity |].
    split; [vm_compute; reflexivity |]. split; vm_compute; reflexivity.
  - split; vm_compute; reflexivity.
Qed.

(** C3 (as the code has it): with no positive [solAmount] and a positive
    [dollarAmount], the amount in minor units is [dollarAmount * 100],
    computed in binary64 and rounded to the nearest integer; when that is
    0 the request is answered 500 'Invalid price configuration'.
    Otherwise it is charged, and the SOL amount is computed from the
    CHARGED amount: the whole minor units, divided by 100 and then by the
    current rate in binary64, rounded to 8 decimal places.  The products
    and quotients are taken to be finite. *)
Theorem dollarAmount_resolves_from_charged_amount (cfg : config)
    (w : CreateCheckout.world) (b : CreateCheckout.body) (st : session_store)
    (price : CreateCheckout.sol_price) (d : Q) :
  CreateCheckout.accepted b = true ->
  CreateCheckout.getCurrentSolPrice w = Some price ->
  positive_number (CreateCheckout.solAmount b) = None ->
  CreateCheckout.dollarAmount b = JNum d -> (0 < d)%Q ->
  (0 < CreateCheckout.current_rate b price)%Q ->
  mul_finite d 100 ->
  div_finite (js_div (inject_Z (Math_round (js_mul d 100))) 100)
    (CreateCheckout.current_rate b price) ->
  (forall req, exists ss, CreateCheckout.stripe_create w req = Returned ss) ->
  let rate := CreateCheckout.current_rate b price in
  let minor := Math_round (js_mul d 100) in
  let sol := js_div (js_div (inject_Z minor) 100) rate in
  let res := CreateCheckout.handler cfg w b st in
  (minor <= 0 ->
     CreateCheckout.resp res = CreateCheckout.Error 500 "Invalid price configuration"
     /\ CreateCheckout.store res = st
     /\ CreateCheckout.stripe_calls res = [])
  /\ (0 < minor ->
      exists r record req (k : Z),
        CreateCheckout.resp res = CreateCheckout.Created r
        /\ CreateCheckout.store res !! CreateCheckout.uniqueSessionId w = Some record
        /\ CreateCheckout.stripe_calls res = [req]
        /\ CreateCheckout.unit_amount req = inject_Z minor
        /\ (js_mul d 100 - (1 # 2) < CreateCheckout.unit_amount req
            <= js_mul d 100 + (1 # 2))%Q
        /\ Session.solAmount record = binary64 (inject_Z k / inject_Z (10 ^ 8))
        /\ (Qabs (inject_Z k / inject_Z (10 ^ 8) - sol) <= (1 # 2) / inject_Z (10 ^ 8))%Q
        /\ CreateCheckout.r_solAmount r = Session.solAmount record)
  /\ (is_double d -> (2 ^ (-1022) <= d * 100)%Q ->
      (Qabs (js_mul d 100 - d * 100) <= d * 100 * 2 ^ (-53))%Q).
Proof.
  intros Hacc Hprice Hsol Hd Hpos Hrate _ _ Hstripe rate minor sol res.
  pose proof (resolve_amounts_of_dollarAmount cfg b price d Hsol Hd Hpos) as Hres.
  cbv zeta in Hres. fold rate minor sol in Hres.
  split; [| split].
  - intros Hzero.
    destruct (Z.ltb_spec 0 minor) as [Hlt | _]; [lia |].
    exact (CreateCheckout_unresolved cfg w b st price Hacc Hprice Hres).
  - intros Hround.
    destruct (Z.ltb_spec 0 minor) as [_ | Hle]; [| lia].
    destruct (CreateCheckout_created cfg w b st price _ _ _ Hacc Hprice Hres Hstripe)
      as (r & record & req & Hr & Hst & Hcalls & (_ & _ & Hrec & _)
          & (Hrsol & _) & (Hunit & _)).
    destruct (toFixed_spec 8 sol) as (k & Hk & Hnear).
    exists r, record, req, k. fold res in Hr, Hst, Hcalls.
    split; [exact Hr |].
    split; [rewrite Hst; apply lookup_insert_eq |].
    split; [exact Hcalls |].
    split; [exact Hunit |].
    split; [rewrite Hunit; apply Math_round_near |].
    split; [now rewrite Hrec |].
    split.
    { assert (E : (binary64 sol == sol)%Q) by apply binary64_idempotent.
      now rewrite <- E. }
    congruence.
  - intros Hdd Hnorm.
    assert (H100 : is_double 100) by (apply (integer_is_double 100); simpl; lia).
    rewrite (js_mul_of_doubles d 100 Hdd H100).
    pose proof (binary64_relative_error (d * 100)) as E.
    assert (Hp : (0 < d * 100)%Q) by lra.
    rewrite (Qabs_pos (d * 100)) in E by lra. now apply E.
Qed.

Lemma dollarAmount_resolves_from_charged_amount_witness :
  let b := checkout_body JUndefined (JNum (binary64 (1005 # 1000))) JUndefined JUndefined in
  let res := CreateCheckout.handler example_cfg checkout_world b ∅ in
  exists r record req (k : Z),
    CreateCheckout.resp res = CreateCheckout.Created r
    /\ CreateCheckout.store res !! CreateCheckout.uniqueSessionId checkout_world
       = Some record
    /\ CreateCheckout.unit_amount req = 100%Q
    /\ Session.solAmount record = binary64 (inject_Z k / inject_Z (10 ^ 8)).
Proof.
  intros b res.
  destruct (dollarAmount_resolves_from_charged_amount example_cfg checkout_world b ∅
              {| CreateCheckout.price_usd := 150; CreateCheckout.price_inr := 12500 |}
              (binary64 (1005 # 1000)))
    as (_ & H & _).
  - reflexivity.
  - reflexivity.
  - reflexivity.
  - reflexivity.
  - reflexivity.
  - reflexivity.
  - reflexivity.
  - reflexivity.
  - intros req. eexists. reflexivity.
  - destruct H as (r & record & req & k & H1 & H2 & _ & H4 & _ & H6 & _);
      [reflexivity |].
    exists r, record, req, k. fold res in H1, H2.
    split; [exact H1 |]. split; [exact H2 |].
    split; [rewrite H4; reflexivity | exact H6].
Defined.

(** C3 (as stated) fails: a [dollarAmount] of 1.004 at a rate of 150 is
    charged as 100 cents and stored as 0.00666667 SOL, while
    [1.004 / 150] is 0.00669333: the two differ by more than 1e-8. *)
Lemma dollarAmount_fraction_of_a_cent_is_dropped :
  let d := binary64 (1004 # 1000) in
  let b := checkout_body JUndefined (JNum d) JUndefined JUndefined in
  let res := CreateCheckout.handler example_cfg checkout_world b ∅ in
  exists record req,
    CreateCheckout.store res !! CreateCheckout.uniqueSessionId checkout_world
    = Some record
    /\ CreateCheckout.stripe_calls res = [req]
    /\ CreateCheckout.unit_amount req = 100%Q
    /\ Session.solAmount record = binary64 (666667 # 100000000)
    /\ ~ (Qabs (Session.solAmount record - d / 150) <= 1 / inject_Z (10 ^ 8))%Q.
Proof.
  intros d b res. eexists. eexists.
  split; [vm_compute; reflexivity |].
  split; [vm_compute; reflexivity |].
  split; [reflexivity |].
  split; [vm_compute; reflexivity |].
  intros H. vm_compute in H. apply H. reflexivity.
Qed.

(** C9 (as the code has it): for every successful call the stored
    [isTokenSwap] (and the one in the answer) is true exactly when
    [tokenSymbol] is truthy, that is a non-empty symbol; [tokenAddress]
    plays no part. *)
Theorem isTokenSwap_iff_tokenSymbol (cfg : config) (w : CreateCheckout.world)
    (b : CreateCheckout.body) (st : session_store) (r : CreateCheckout.created) :
  CreateCheckout.resp (CreateCheckout.handler cfg w b st) = CreateCheckout.Created r ->
  exists record,
    CreateCheckout.store (CreateCheckout.handler cfg w b st)
      !! CreateCheckout.r_sessionId r = Some record
    /\ (Session.isTokenSwap record = true
        <-> truthy (CreateCheckout.tokenSymbol b) = true)
    /\ CreateCheckout.r_isTokenSwap r = Session.isTokenSwap record
    /\ (forall sym, CreateCheckout.tokenSymbol b = JStr sym ->
        (Session.isTokenSwap record = true <-> sym <> "")).
Proof.
  unfold CreateCheckout.handler.
  repeat case_match; simpl; try discriminate.
  intros [= <-]. simpl. eexists.
  split; [apply lookup_insert_eq |]. simpl.
  split; [reflexivity |].
  split; [reflexivity |].
  intros sym ->. simpl. rewrite negb_true_iff.
  split.
  - intros Hnonempty ->. discriminate.
  - intros Hnonempty. apply String.eqb_neq. exact Hnonempty.
Qed.

Lemma isTokenSwap_iff_tokenSymbol_witness :
  let b := checkout_body JUndefined (JNum 25) (JStr "BONK") JUndefined in
  exists r record,
    CreateCheckout.resp (CreateCheckout.handler example_cfg checkout_world b ∅)
    = CreateCheckout.Created r
    /\ CreateCheckout.store (CreateCheckout.handler example_cfg checkout_world b ∅)
         !! CreateCheckout.r_sessionId r = Some record
    /\ (Session.isTokenSwap record = true
        <-> truthy (CreateCheckout.tokenSymbol b) = true).
Proof.
  intros b. eexists.
  assert (Hr : CreateCheckout.resp (CreateCheckout.handler example_cfg checkout_world b ∅)
               = CreateCheckout.Created _) by (vm_compute; reflexivity).
  destruct (isTokenSwap_iff_tokenSymbol example_cfg checkout_world b ∅ _ Hr)
    as (record & H1 & H2 & _).
  exists record. split; [exact Hr |]. split; assumption.
Defined.

(** C9 (as stated) fails: a request that names a token symbol and no mint
    address is stored with [isTokenSwap = true]. *)
Lemma symbol_without_address_is_a_token_swap :
  let b := checkout_body JUndefined (JNum 25) (JStr "BONK") JUndefined in
  let res := CreateCheckout.handler example_cfg checkout_world b ∅ in
  CreateCheckout.tokenAddress b = JUndefined
  /\ exists r record,
       CreateCheckout.resp res = CreateCheckout.Created r
       /\ CreateCheckout.store res !! CreateCheckout.r_sessionId r = Some record
       /\ Session.isTokenSwap record = true
       /\ Session.tokenAddress record = JNull.
Proof.
  intros b res. split; [reflexivity |].
  eexists. eexists.
  split; [vm_compute; reflexivity |].
  split; [vm_compute; reflexivity |].
  split; reflexivity.
Qed.

(** ** Substrings *)

Lemma append_cons (c : ascii) (a b : string) :
  String c a +:+ b = String c (a +:+ b).
Proof. reflexivity. Qed.

Lemma append_nil (b : string) : "" +:+ b = b.
Proof. reflexivity. Qed.

Lemma prefix_spec (n h : string) :
  String.prefix n h = true <-> exists post, h = n +:+ post.
Proof.
  revert h. induction n as [| c n IH]; intros h.
  - split; [intros _; exists h; reflexivity | intros _; now destruct h].
  - destruct h as [| d h]; simpl.
    + split; [discriminate | intros [post Hpost]; discriminate].
    + destruct (Ascii.ascii_dec c d) as [-> | Hne].
      * rewrite IH. split; intros [post Hpost]; exists post;
          rewrite append_cons in *; congruence.
      * split; [discriminate |].
        intros [post Hpost]. rewrite append_cons in Hpost. congruence.
Qed.

Lemma includes_spec (needle hay : string) :
  includes needle hay = true <-> occurs_in needle hay.
Proof.
  unfold occurs_in. induction hay as [| c hay IH].
  - cbn [includes]. rewrite orb_false_r, prefix_spec. split.
    + intros [post Hpost]. exists "", post. exact Hpost.
    + intros (pre & post & Hpost). destruct pre; [| discriminate].
      exists post. exact Hpost.
  - cbn [includes]. rewrite orb_true_iff, prefix_spec, IH. split.
    + intros [[post Hpost] | (pre & post & Hpost)].
      * exists "", post. exact Hpost.
      * exists (String c pre), post. rewrite append_cons. now rewrite Hpost.
    + intros (pre & post & Hpost). destruct pre as [| d pre].
      * left. exists post. exact Hpost.
      * right. rewrite append_cons in Hpost. injection Hpost as _ Hpost. eauto.
Qed.


(** ** SettlementExecutor: direct SOL transfer *)





Lemma update_session_lookup (sid : string) (f : session -> session)
    (st : session_store) (s : session) :
  sid <> "" -> st !! sid = Some s ->
  TransferSol.update_session (Some sid) f st !! sid = Some (f s).
Proof.
  intros Hne Hs. unfold TransferSol.update_session. simpl.
  destruct (String.eqb_spec sid "") as [-> | _]; [congruence |]. simpl.
  now rewrite lookup_alter_eq, Hs.
Qed.

(** C7 (as the code has it): when the transaction is built, and the
    blockhash fetch, the send and the status probe that follows it all
    return, and [sessionId] names a stored session, that session gets the
    status [sol_transferred] if its [isTokenSwap] is false and
    [sol_received] if it is true, together with the signature, the
    explorer link [https://solscan.io/tx/<signature>] and a transfer
    timestamp; the answer is a success with the signature, that link and
    the amount. *)
Theorem transfer_success_records_settlement (cfg : config) (w : TransferSol.world)
    (b : TransferSol.body) (st : session_store)
    (funding : string) (amount : Q) (signature sid : string) (s : session) :
  TransferSol.validate cfg w b = inl (funding, amount) ->
  TransferSol.SystemProgram_transfer w (TransferSol.transfer_of funding b amount)
  = Returned tt ->
  (TransferSol.attempt w (TransferSol.transfer_of funding b amount)).1
  = Returned signature ->
  TransferSol.sessionId b = Some sid -> sid <> "" -> st !! sid = Some s ->
  let res := TransferSol.handler cfg w b st in
  let link := "https://solscan.io/tx/" +:+ signature in
  TransferSol.resp res = TransferSol.Success signature link amount
  /\ exists s',
       TransferSol.store res !! sid = Some s'
       /\ Session.status s'
          = (if Session.isTokenSwap s then "sol_received" else "sol_transferred")
       /\ (if Session.isTokenSwap s
           then Session.solSignature s' = Some signature
                /\ Session.solExplorerLink s' = Some link
           else Session.signature s' = Some signature
                /\ Session.explorerLink s' = Some link)
       /\ Session.transferTimestamp s' = Some (TransferSol.iso_now w)
       /\ Session.transferredSolAmount s' = Some amount
       /\ Session.isTokenSwap s' = Session.isTokenSwap s.
Proof.
  intros Hval Hbuild Hok Hsid Hne Hs res link.
  unfold res, TransferSol.handler. rewrite Hval, Hbuild.
  destruct (TransferSol.attempt w (TransferSol.transfer_of funding b amount))
    as [[sig | e] sent]; simpl in Hok; [| discriminate].
  injection Hok as ->. simpl. fold link.
  split; [reflexivity |].
  exists (TransferSol.record_transfer signature link (TransferSol.iso_now w) amount s).
  split; [rewrite Hsid; now apply update_session_lookup |].
  destruct s as [? ? ? ? ? ? ? ? [] ? ? ? ? ? ? ? ? ? ? ?]; simpl; repeat split.
Qed.

Lemma transfer_success_records_settlement_witness :
  let b := transfer_body (JNum SOL_AMOUNT) JUndefined in
  let res := TransferSol.handler example_cfg transfer_world b (fresh_store false) in
  let sig := "3nZcx5ApR6DGNJXVpu7Dat7Pxt5GFa6oySDBMGoLWricoti" in
  TransferSol.resp res
  = TransferSol.Success sig ("https://solscan.io/tx/" +:+ sig) SOL_AMOUNT
  /\ exists s',
       TransferSol.store res !! example_sid = Some s'
       /\ Session.status s' = "sol_transferred"
       /\ Session.signature s' = Some sig
       /\ Session.explorerLink s' = Some ("https://solscan.io/tx/" +:+ sig).
Proof.
  intros b res sig.
  destruct (transfer_success_records_settlement example_cfg transfer_world b
              (fresh_store false) "9WzDXwBbmkg8ZTbNMqUxvQRAyrZzDsGYdLVL9zYtAWWM"
              SOL_AMOUNT sig example_sid (fresh_session false))
    as (H1 & s' & H2 & H3 & (H4 & H5) & _).
  - reflexivity.
  - reflexivity.
  - reflexivity.
  - reflexivity.
  - discriminate.
  - reflexivity.
  - split; [exact H1 |]. exists s'. repeat split; assumption.
Defined.

(** C7 (as stated) fails: the transaction is sent for a stored session,
    the status probe that follows throws, and the handler answers an
    error and leaves the session in the status [created]. *)
Lemma broadcast_with_failing_probe_leaves_session :
  let b := transfer_body (JNum SOL_AMOUNT) JUndefined in
  let res := TransferSol.handler example_cfg probe_failing_world b (fresh_store false) in
  let tx := TransferSol.transfer_of "9WzDXwBbmkg8ZTbNMqUxvQRAyrZzDsGYdLVL9zYtAWWM" b
              SOL_AMOUNT in
  TransferSol.sendTransaction probe_failing_world tx 180000
  = Returned "3nZcx5ApR6DGNJXVpu7Dat7Pxt5GFa6oySDBMGoLWricoti"
  /\ TransferSol.broadcast res = [tx]
  /\ fresh_store false !! example_sid = Some (fresh_session false)
  /\ TransferSol.store res !! example_sid = Some (fresh_session false)
  /\ Session.status (fresh_session false) = "created"
  /\ TransferSol.resp res
     = TransferSol.Error 500
         "Transaction failed: failed to get signature status: 429 Too Many Requests"
         (Some "failed to get signature status: 429 Too Many Requests") None None.
Proof.
  intros b res tx. repeat split; vm_compute; reflexivity.
Qed.

Lemma attempt_sends_only_its_transaction (w : TransferSol.world)
    (tx tx' : TransferSol.transfer_tx) :
  In tx' (TransferSol.attempt w tx).2 -> tx' = tx.
Proof.
  unfold TransferSol.attempt. repeat case_match; simpl; intros Hin;
    try contradiction; destruct Hin as [Hin | []]; now symmetry.
Qed.

Lemma record_transfer_amount (sig link now : string) (a : Q) (s : session) :
  Session.transferredSolAmount (TransferSol.record_transfer sig link now a s) = Some a.
Proof. destruct s as [? ? ? ? ? ? ? ? [] ? ? ? ? ? ? ? ? ? ? ?]; reflexivity. Qed.

Lemma validate_amount (cfg : config) (w : TransferSol.world) (b : TransferSol.body)
    (funding : string) (amount : Q) :
  TransferSol.validate cfg w b = inl (funding, amount) ->
  positive_number (TransferSol.amount_or_default b) = Some amount.
Proof.
  unfold TransferSol.validate. repeat case_match; intros [= <- <-]; reflexivity.
Qed.

Lemma validate_refusal_is_error (cfg : config) (w : TransferSol.world)
    (b : TransferSol.body) (refusal : TransferSol.response) :
  TransferSol.validate cfg w b = inr refusal ->
  forall sig link a, refusal <> TransferSol.Success sig link a.
Proof.
  unfold TransferSol.validate. repeat case_match; intros [= <-]; discriminate.
Qed.

(** What the handler does once the checks have passed. *)
Lemma TransferSol_handler_cases (cfg : config) (w : TransferSol.world)
    (b : TransferSol.body) (st : session_store) (funding : string) (amount : Q) :
  TransferSol.validate cfg w b = inl (funding, amount) ->
  let tx := TransferSol.transfer_of funding b amount in
  let res := TransferSol.handler cfg w b st in
  (exists e, TransferSol.SystemProgram_transfer w tx = Threw e
             /\ TransferSol.resp res = TransferSol.on_error e
             /\ TransferSol.store res = st /\ TransferSol.broadcast res = [])
  \/ (exists e, TransferSol.SystemProgram_transfer w tx = Returned tt
                /\ (TransferSol.attempt w tx).1 = Threw e
                /\ TransferSol.resp res
                   = TransferSol.on_txError e (TransferSol.retryCount_or_default b)
                /\ TransferSol.store res = st
                /\ TransferSol.broadcast res = (TransferSol.attempt w tx).2)
  \/ (exists sig, TransferSol.SystemProgram_transfer w tx = Returned tt
                  /\ (TransferSol.attempt w tx).1 = Returned sig
                  /\ TransferSol.resp res
                     = TransferSol.Success sig ("https://solscan.io/tx/" +:+ sig) amount
                  /\ TransferSol.store res
                     = TransferSol.update_session (TransferSol.sessionId b)
                         (TransferSol.record_transfer sig ("https://solscan.io/tx/" +:+ sig)
                            (TransferSol.iso_now w) amount) st
                  /\ TransferSol.broadcast res = (TransferSol.attempt w tx).2).
Proof.
  intros Hval tx res. unfold res, TransferSol.handler. rewrite Hval. fold tx.
  destruct (TransferSol.SystemProgram_transfer w tx) as [[] | e]; simpl.
  - destruct (TransferSol.attempt w tx) as [[sig | e] sent]; simpl.
    + right. right. exists sig. repeat split.
    + right. left. exists e. repeat split.
  - left. exists e. repeat split.
Qed.

Lemma SOL_AMOUNT_value : (SOL_AMOUNT == 3602879701896397 # 36028797018963968)%Q.
Proof. vm_compute. reflexivity. Qed.

(** C10: a transfer-sol request without an [amount] field is processed
    with 0.1 SOL, the binary64 value [3602879701896397 / 2^55]: the amount
    check sees it and passes, a transaction that goes out carries
    [round(0.1 * 1e9) = 100000000] lamports, a success answer reports it,
    and the session the request names, when it is stored, then has it as
    its transferred amount. *)
Theorem omitted_amount_is_SOL_AMOUNT (cfg : config) (w : TransferSol.world)
    (b : TransferSol.body) (st : session_store) :
  TransferSol.amount b = JUndefined ->
  let res := TransferSol.handler cfg w b st in
  (SOL_AMOUNT == 3602879701896397 # 36028797018963968)%Q
  /\ positive_number (TransferSol.amount_or_default b) = Some SOL_AMOUNT
  /\ (forall funding a, TransferSol.validate cfg w b = inl (funding, a) -> a = SOL_AMOUNT)
  /\ (forall tx, In tx (TransferSol.broadcast res) -> TransferSol.lamports tx = 100000000)
  /\ (forall sig link a, TransferSol.resp res = TransferSol.Success sig link a ->
        a = SOL_AMOUNT
        /\ forall sid s, TransferSol.sessionId b = Some sid -> sid <> "" ->
             st !! sid = Some s ->
             exists s', TransferSol.store res !! sid = Some s'
                        /\ Session.transferredSolAmount s' = Some SOL_AMOUNT).
Proof.
  intros Hamount res.
  assert (Hdefault : positive_number (TransferSol.amount_or_default b) = Some SOL_AMOUNT).
  { unfold TransferSol.amount_or_default. rewrite Hamount. reflexivity. }
  split; [exact SOL_AMOUNT_value |].
  split; [exact Hdefault |].
  assert (Hvalid : forall funding a,
             TransferSol.validate cfg w b = inl (funding, a) -> a = SOL_AMOUNT).
  { intros funding a Hval. apply validate_amount in Hval. congruence. }
  split; [exact Hvalid |].
  destruct (TransferSol.validate cfg w b) as [[funding amount] | refusal] eqn:Hval.
  2: { unfold res, TransferSol.handler. rewrite Hval. simpl.
       split; [intros tx [] |].
       intros sig link a Hr. exfalso.
       exact (validate_refusal_is_error cfg w b refusal Hval sig link a Hr). }
  pose proof (Hvalid funding amount eq_refl) as ->.
  pose proof (attempt_sends_only_its_transaction w
                (TransferSol.transfer_of funding b SOL_AMOUNT)) as Hsent.
  assert (Hlam : TransferSol.lamports (TransferSol.transfer_of funding b SOL_AMOUNT)
                 = 100000000) by (vm_compute; reflexivity).
  destruct (TransferSol_handler_cases cfg w b st funding SOL_AMOUNT Hval)
    as [(e & _ & Hr & Hst & Hb) | [(e & _ & _ & Hr & Hst & Hb)
       | (sig & _ & _ & Hr & Hst & Hb)]]; fold res in Hr, Hst, Hb.
  - split; [rewrite Hb; intros tx [] |].
    intros sig link a Hr'. rewrite Hr in Hr'. discriminate.
  - split; [rewrite Hb; intros tx Hin; now rewrite (Hsent tx Hin) |].
    intros sig link a Hr'. rewrite Hr in Hr'.
    unfold TransferSol.on_txError in Hr'. destruct (_ && _) in Hr'; discriminate.
  - split; [rewrite Hb; intros tx Hin; now rewrite (Hsent tx Hin) |].
    intros sig' link a Hr'. rewrite Hr in Hr'.
    split; [congruence |].
    intros sid s Hsid Hne Hs. rewrite Hst, Hsid.
    eexists. split; [apply update_session_lookup; [exact Hne | exact Hs] |].
    apply record_transfer_amount.
Qed.

Lemma omitted_amount_is_SOL_AMOUNT_witness :
  let b := transfer_body JUndefined JUndefined in
  let res := TransferSol.handler example_cfg transfer_world b (fresh_store false) in
  let sig := "3nZcx5ApR6DGNJXVpu7Dat7Pxt5GFa6oySDBMGoLWricoti" in
  TransferSol.resp res
  = TransferSol.Success sig ("https://solscan.io/tx/" +:+ sig) SOL_AMOUNT
  /\ length (TransferSol.broadcast res) = 1%nat
  /\ (forall tx, In tx (TransferSol.broadcast res) ->
        TransferSol.lamports tx = 100000000)
  /\ exists s', TransferSol.store res !! example_sid = Some s'
                /\ Session.transferredSolAmount s' = Some SOL_AMOUNT.
Proof.
  intros b res sig.
  destruct (omitted_amount_is_SOL_AMOUNT example_cfg transfer_world b (fresh_store false))
    as (_ & _ & _ & H4 & H5).
  - reflexivity.
  - assert (Hr : TransferSol.resp res
                 = TransferSol.Success sig ("https://solscan.io/tx/" +:+ sig) SOL_AMOUNT)
      by (vm_compute; reflexivity).
    split; [exact Hr |]. split; [vm_compute; reflexivity |].
    split; [exact H4 |].
    destruct (H5 _ _ _ Hr) as [_ H6].
    apply (H6 example_sid (fresh_session false)); [reflexivity | discriminate | reflexivity].
Defined.

(** ** SettlementExecutor: swap-and-deliver *)

Lemma fetch_with_retry_exhausted {A : Type} (fetch : nat -> outcome A) :
  (forall k, exists e, fetch k = Threw e) ->
  SwapTokens.fetch_with_retry fetch = SwapTokens.Unavailable 3 [2000; 4000].
Proof.
  intros H. unfold SwapTokens.fetch_with_retry. simpl.
  destruct (H 0%nat) as [e0 ->], (H 1%nat) as [e1 ->], (H 2%nat) as [e2 ->].
  reflexivity.
Qed.

Lemma fetch_with_retry_answered {A : Type} (fetch : nat -> outcome A) (j : nat) (a : A) :
  (j < 3)%nat -> fetch j = Returned a ->
  (forall i, (i < j)%nat -> exists e, fetch i = Threw e) ->
  exists waits, SwapTokens.fetch_with_retry fetch = SwapTokens.Got a (S j) waits.
Proof.
  intros Hj Hok Hbefore. unfold SwapTokens.fetch_with_retry.
  destruct j as [| [| [| j]]]; [| | | lia]; simpl.
  - rewrite Hok. eauto.
  - destruct (Hbefore 0%nat) as [e0 ->]; [lia |]. rewrite Hok. eauto.
  - destruct (Hbefore 0%nat) as [e0 ->]; [lia |].
    destruct (Hbefore 1%nat) as [e1 ->]; [lia |]. rewrite Hok. eauto.
Qed.

(** C5: for a request that passes the input checks, a quote provider that
    fails on every attempt is asked exactly 3 times and the answer is 503
    'Jupiter API unavailable'; likewise, once a quote has been obtained, a
    swap-transaction provider that fails on every attempt is asked exactly
    3 times and the answer is 503.  In both cases the store is left as it
    was and nothing is sent to the network. *)
Theorem exhausted_provider_is_unavailable (cfg : config) (w : SwapTokens.world)
    (b : SwapTokens.body) (st : session_store) (amount : Q) :
  SwapTokens.validate cfg w b = inl amount ->
  let lamports := Math_round (js_mul amount (inject_Z (10 ^ 9))) in
  let res := SwapTokens.handler cfg w b st in
  ((forall k, exists e, SwapTokens.quote_fetch w lamports k = Threw e) ->
     SwapTokens.quote_attempts res = 3%nat
     /\ SwapTokens.swap_attempts res = 0%nat
     /\ SwapTokens.resp res
        = SwapTokens.Error 503 "Jupiter API unavailable"
            (Some "Could not get a quote from Jupiter exchange after multiple attempts.")
     /\ SwapTokens.store res = st
     /\ SwapTokens.broadcast res = [])
  /\ (forall (j : nat) (q : SwapTokens.quote),
        (j < 3)%nat -> SwapTokens.quote_fetch w lamports j = Returned q ->
        (forall i, (i < j)%nat -> exists e, SwapTokens.quote_fetch w lamports i = Threw e) ->
        (forall k, exists e, SwapTokens.swap_fetch w q k = Threw e) ->
        SwapTokens.quote_attempts res = S j
        /\ SwapTokens.swap_attempts res = 3%nat
        /\ SwapTokens.resp res
           = SwapTokens.Error 503 "Jupiter API unavailable"
               (Some "Could not get a swap transaction from Jupiter exchange after multiple attempts.")
        /\ SwapTokens.store res = st
        /\ SwapTokens.broadcast res = []).
Proof.
  intros Hval lamports res. unfold res, SwapTokens.handler. rewrite Hval. fold lamports.
  split.
  - intros Hdown. rewrite (fetch_with_retry_exhausted _ Hdown). repeat split.
  - intros j q Hj Hq Hbefore Hdown.
    destruct (fetch_with_retry_answered _ j q Hj Hq Hbefore) as [waits ->].
    rewrite (fetch_with_retry_exhausted _ Hdown). repeat split.
Qed.

Lemma exhausted_provider_is_unavailable_witness :
  let res := SwapTokens.handler example_cfg quote_down_world swap_body (fresh_store true) in
  SwapTokens.quote_attempts res = 3%nat
  /\ SwapTokens.resp res
     = SwapTokens.Error 503 "Jupiter API unavailable"
         (Some "Could not get a quote from Jupiter exchange after multiple attempts.")
  /\ SwapTokens.store res = fresh_store true.
Proof.
  intros res.
  destruct (exhausted_provider_is_unavailable example_cfg quote_down_world swap_body
              (fresh_store true) SOL_AMOUNT) as [H _].
  - reflexivity.
  - destruct H as (H1 & _ & H3 & H4 & _).
    + intros k. eexists. reflexivity.
    + split; [exact H1 |]. split; [exact H3 | exact H4].
Defined.

(** ** The payment-success page *)

(** C8 (as the code has it): a payment-success request that carries the
    id of a stored session leaves the store, and with it the status of
    that session, as it was; [payment_completed] appears only in the
    message the returned page posts to its opener, together with the
    token-swap flag of the stored session. *)
Theorem payment_success_reports_without_storing (q : PaymentSuccess.query)
    (st : session_store) (sid : string) (s : session) :
  PaymentSuccess.session_id q = Some sid -> sid <> "" -> st !! sid = Some s ->
  let res := PaymentSuccess.handler q st in
  PaymentSuccess.store res = st
  /\ PaymentSuccess.store res !! sid = Some s
  /\ PaymentSuccess.m_status (PaymentSuccess.page res) = "payment_completed"
  /\ PaymentSuccess.m_sessionId (PaymentSuccess.page res) = JStr sid
  /\ PaymentSuccess.m_isTokenSwap (PaymentSuccess.page res) = Session.isTokenSwap s.
Proof.
  intros Hq Hne Hs res.
  assert (Htruthy : negb (String.eqb sid "") = true).
  { apply negb_true_iff, String.eqb_neq. exact Hne. }
  unfold res, PaymentSuccess.handler, PaymentSuccess.sessionData, js_or,
    PaymentSuccess.param. simpl. rewrite Hq. simpl. rewrite Htruthy, Hs. simpl.
  repeat split.
Qed.

Lemma payment_success_reports_without_storing_witness :
  let res := PaymentSuccess.handler success_query (fresh_store true) in
  PaymentSuccess.store res = fresh_store true
  /\ PaymentSuccess.m_status (PaymentSuccess.page res) = "payment_completed"
  /\ PaymentSuccess.m_isTokenSwap (PaymentSuccess.page res) = true.
Proof.
  intros res.
  destruct (payment_success_reports_without_storing success_query (fresh_store true)
              example_sid (fresh_session true)) as (H1 & _ & H3 & _ & H5).
  - reflexivity.
  - discriminate.
  - reflexivity.
  - split; [exact H1 |]. split; [exact H3 | exact H5].
Defined.

(** C8 (as stated) fails: after the payment-success request for a stored
    session in the status [created], the stored status is still
    [created]. *)
Lemma payment_success_leaves_status_created :
  let res := PaymentSuccess.handler success_query (fresh_store false) in
  fresh_store false !! example_sid = Some (fresh_session false)
  /\ exists s',
       PaymentSuccess.store res !! example_sid = Some s'
       /\ Session.status s' = "created"
       /\ Session.status s' <> "payment_completed".
Proof.
  intros res. split; [reflexivity |].
  exists (fresh_session false). split; [reflexivity |].
  split; [reflexivity | discriminate].
Qed.

(** ** The e-mail pattern *)

Lemma is_space_spec (u : N) : is_space u = true <-> In u white_space.
Proof.
  unfold is_space, white_space.
  rewrite !orb_true_iff, !andb_true_iff, !N.leb_le, !N.eqb_eq. simpl In. lia.
Qed.

Lemma is_plain_spec (u : N) :
  is_plain u = true <-> ~ In u white_space /\ u <> 64%N.
Proof.
  unfold is_plain. rewrite andb_true_iff, !negb_true_iff, N.eqb_neq.
  rewrite <- is_space_spec. destruct (is_space u); split; intros [H1 H2];
    split; auto; try discriminate. exfalso. now apply H1.
Qed.

Lemma split_at_unit_spec (c : N) (l a b : list N) :
  split_at_unit c l = Some (a, b) <-> l = a ++ c :: b /\ ~ In c a.
Proof.
  revert a. induction l as [| x l IH]; intros a; simpl.
  - split; [discriminate | intros [H _]; now destruct a].
  - destruct (N.eqb_spec x c) as [-> | Hne].
    + split.
      * intros [= <- <-]. split; [reflexivity | intros []].
      * intros [H Hnot]. destruct a as [| y a]; simpl in H.
        -- now injection H as <-.
        -- injection H as <- _. exfalso. apply Hnot. now left.
    + destruct (split_at_unit c l) as [[a' b'] |] eqn:E.
      * split.
        -- intros [= <- <-]. destruct (proj1 (IH a') eq_refl) as [-> Hnot].
           split; [reflexivity |]. intros [H | H]; [congruence | contradiction].
        -- intros [H Hnot]. destruct a as [| y a]; simpl in H.
           ++ injection H as -> _. congruence.
           ++ injection H as <- H.
              assert (Ha : Some (a', b') = Some (a, b)).
              { apply IH. split; [exact H |]. intros Hin. apply Hnot. now right. }
              now injection Ha as -> ->.
      * split; [discriminate |].
        intros [H Hnot]. destruct a as [| y a]; simpl in H.
        -- injection H as -> _. congruence.
        -- injection H as <- H.
           assert (Ha : None = Some (a, b)).
           { apply IH. split; [exact H |]. intros Hin. apply Hnot. now right. }
           discriminate.
Qed.

Lemma has_inner_dot_spec (d : list N) :
  has_inner_dot d = true
  <-> exists b c, b <> [] /\ c <> [] /\ d = b ++ 46%N :: c.
Proof.
  unfold has_inner_dot. rewrite existsb_exists. split.
  - intros (x & Hin & Hx). apply N.eqb_eq in Hx. subst x.
    destruct d as [| h t]; [inversion Hin |]. simpl in Hin.
    assert (Ht : t <> []) by (intros ->; inversion Hin).
    destruct (exists_last Ht) as (m & z & ->).
    rewrite removelast_last in Hin.
    apply in_split in Hin as (m1 & m2 & ->).
    exists (h :: m1), (m2 ++ [z]).
    split; [discriminate |]. split; [now destruct m2 |].
    simpl. now rewrite <- app_assoc.
  - intros (b & c & Hb & Hc & ->).
    destruct b as [| h b]; [contradiction |].
    destruct (exists_last Hc) as (c' & z & ->).
    exists 46%N. split; [| reflexivity].
    simpl. replace (b ++ 46%N :: c' ++ [z]) with ((b ++ 46%N :: c') ++ [z])
      by (now rewrite <- app_assoc).
    rewrite removelast_last. apply in_or_app. right. now left.
Qed.

Lemma forallb_is_plain (l : list N) :
  forallb is_plain l = true
  <-> Forall (fun u => ~ In u white_space /\ u <> 64%N) l.
Proof.
  rewrite forallb_forall, List.Forall_forall.
  split; intros H u Hu; apply is_plain_spec, H, Hu.
Qed.

Lemma email_pattern_test_iff (s : string) :
  email_pattern_test s = true <-> email_pattern_matches s.
Proof.
  unfold email_pattern_test, email_pattern_matches, plain_run.
  set (l := utf16 s). split.
  - destruct (split_at_unit 64 l) as [[loc dom] |] eqn:E; [| discriminate].
    apply split_at_unit_spec in E as [Hl _].
    rewrite !andb_true_iff, !forallb_is_plain, has_inner_dot_spec, negb_true_iff,
      Nat.eqb_neq.
    intros [[[Hlen Hloc] Hdom] (b & c & Hb & Hc & ->)].
    apply Forall_app in Hdom as [Hfb Hfc]. apply Forall_cons in Hfc as [_ Hfc].
    exists loc, b, c.
    repeat split; try assumption. intros ->. now apply Hlen.
  - intros (a & b & c & [Ha Hfa] & [Hb Hfb] & [Hc Hfc] & Hl).
    assert (E : split_at_unit 64 l = Some (a, b ++ 46%N :: c)).
    { apply split_at_unit_spec. split; [exact Hl |].
      intros Hin. rewrite List.Forall_forall in Hfa.
      destruct (Hfa _ Hin) as [_ H]. now apply H. }
    rewrite E.
    rewrite !andb_true_iff, !forallb_is_plain, has_inner_dot_spec, negb_true_iff,
      Nat.eqb_neq.
    repeat split.
    + now destruct a.
    + exact Hfa.
    + apply Forall_app. split; [exact Hfb |]. apply Forall_cons.
      split; [| exact Hfc]. split; [| discriminate].
      simpl. intros H. repeat (destruct H as [H | H]; [discriminate |]). exact H.
    + eauto.
Qed.

(** * Further properties of the handlers *)

(** ** create-checkout-session *)

Lemma resolve_amounts_sound (cfg : config) (b : CreateCheckout.body)
    (price : CreateCheckout.sol_price) (cur : string) (amount finalSol : Q) :
  CreateCheckout.resolve_amounts cfg b price = Some (cur, amount, finalSol) ->
  (0 < amount)%Q /\ cur = CreateCheckout.selected_currency b.
Proof.
  unfold CreateCheckout.resolve_amounts, CreateCheckout.selected_currency.
  repeat case_match; intros [= <- <- <-]; split; auto.
Qed.





(** X2: whatever goes wrong (bad input, price feed down, price
    configuration, Stripe refusing), an error answer means that no session
    was registered: the store is the one before the call. *)
Theorem checkout_error_registers_nothing (cfg : config) (w : CreateCheckout.world)
    (b : CreateCheckout.body) (st : session_store) (code : Z) (msg : string) :
  CreateCheckout.resp (CreateCheckout.handler cfg w b st) = CreateCheckout.Error code msg ->
  CreateCheckout.store (CreateCheckout.handler cfg w b st) = st
  /\ (code = 400 \/ code = 500).
Proof.
  unfold CreateCheckout.handler.
  repeat case_match; simpl; intros [= <- <-]; auto.
Qed.

Lemma checkout_error_registers_nothing_witness :
  let w := {|
    CreateCheckout.getCurrentSolPrice := None;
    CreateCheckout.Date_now := CreateCheckout.Date_now checkout_world;
    CreateCheckout.random_suffix := CreateCheckout.random_suffix checkout_world;
    CreateCheckout.iso_now := CreateCheckout.iso_now checkout_world;
    CreateCheckout.stripe_create := CreateCheckout.stripe_create checkout_world |} in
  let b := checkout_body (JNum (1 # 10)) JUndefined JUndefined JUndefined in
  CreateCheckout.store (CreateCheckout.handler example_cfg w b settled_store) = settled_store.
Proof.
  intros w b.
  apply (checkout_error_registers_nothing example_cfg w b settled_store 500
           "Unable to fetch current SOL price").
  reflexivity.
Defined.

Lemma checkout_calls (cfg : config) (w : CreateCheckout.world)
    (b : CreateCheckout.body) (st : session_store) :
  CreateCheckout.stripe_calls (CreateCheckout.handler cfg w b st) = []
  \/ exists price cur amount finalSol req,
       CreateCheckout.resolve_amounts cfg b price = Some (cur, amount, finalSol)
       /\ CreateCheckout.stripe_calls (CreateCheckout.handler cfg w b st) = [req]
       /\ CreateCheckout.unit_amount req = amount
       /\ CreateCheckout.currency req = cur
       /\ CreateCheckout.metadata_fiatAmount req = js_div amount 100
       /\ CreateCheckout.metadata_sessionId req = CreateCheckout.uniqueSessionId w.
Proof.
  unfold CreateCheckout.handler.
  repeat case_match; simpl; auto; right; do 5 eexists; (split; [eassumption |]);
    repeat split.
Qed.

Lemma is_IN_spec (c : jsval) : CreateCheckout.is_IN c = true <-> c = JStr "IN".
Proof.
  unfold CreateCheckout.is_IN. destruct c as [| | | | s];
    try (split; discriminate).
  rewrite String.eqb_eq. split; [intros -> | intros [= ->]]; reflexivity.
Qed.

(** X3: every request the handler sends to Stripe charges a positive
    amount of minor units, in [inr] exactly when the country code is the
    string [IN] and in [usd] otherwise, and carries the generated session
    id; at most one request is sent per call. *)
Theorem checkout_charges_are_positive (cfg : config) (w : CreateCheckout.world)
    (b : CreateCheckout.body) (st : session_store) :
  (length (CreateCheckout.stripe_calls (CreateCheckout.handler cfg w b st)) <= 1)%nat
  /\ forall req, In req (CreateCheckout.stripe_calls (CreateCheckout.handler cfg w b st)) ->
       (0 < CreateCheckout.unit_amount req)%Q
       /\ CreateCheckout.metadata_fiatAmount req = js_div (CreateCheckout.unit_amount req) 100
       /\ CreateCheckout.metadata_sessionId req = CreateCheckout.uniqueSessionId w
       /\ (CreateCheckout.currency req = "inr" <-> CreateCheckout.country b = JStr "IN")
       /\ (CreateCheckout.currency req = "usd" <-> CreateCheckout.country b <> JStr "IN").
Proof.
  destruct (checkout_calls cfg w b st)
    as [-> | (price & cur & amount & f & req & Hres & -> & Hunit & Hcur & Hfiat & Hsid)].
  - split; [simpl; lia | intros req []].
  - split; [simpl; lia |]. intros req' [<- | []].
    apply resolve_amounts_sound in Hres as [Hpos ->].
    rewrite Hunit, Hcur. split; [exact Hpos |]. split; [exact Hfiat |].
    split; [exact Hsid |].
    unfold CreateCheckout.selected_currency.
    pose proof (is_IN_spec (CreateCheckout.country b)) as Hin.
    destruct (CreateCheckout.is_IN (CreateCheckout.country b)).
    + assert (Hc : CreateCheckout.country b = JStr "IN") by (now apply Hin).
      split; split; auto; try discriminate. intros Hne. now destruct Hne.
    + assert (Hc : CreateCheckout.country b <> JStr "IN").
      { intros E. apply Hin in E. discriminate. }
      split; split; auto; try discriminate. intros E. now destruct Hc.
Qed.

Lemma checkout_created_inversion (cfg : config) (w : CreateCheckout.world)
    (b : CreateCheckout.body) (st : session_store) (r : CreateCheckout.created) :
  CreateCheckout.resp (CreateCheckout.handler cfg w b st) = CreateCheckout.Created r ->
  exists record req,
    CreateCheckout.store (CreateCheckout.handler cfg w b st)
    = <[CreateCheckout.r_sessionId r := record]> st
    /\ CreateCheckout.stripe_calls (CreateCheckout.handler cfg w b st) = [req]
    /\ CreateCheckout.r_sessionId r = CreateCheckout.uniqueSessionId w
    /\ (Session.id record = CreateCheckout.r_sessionId r
        /\ Session.status record = "created"
        /\ Session.walletAddress record <> ""
        /\ CreateCheckout.walletAddress b = JStr (Session.walletAddress record)
        /\ Session.solAmount record = CreateCheckout.r_solAmount r
        /\ Session.isTokenSwap record = CreateCheckout.r_isTokenSwap r
        /\ Session.tokenSymbol record = CreateCheckout.r_tokenSymbol r
        /\ Session.tokenAmount record = CreateCheckout.r_tokenAmount r)
    /\ (Session.signature record = None /\ Session.explorerLink record = None
        /\ Session.solSignature record = None /\ Session.solExplorerLink record = None
        /\ Session.transferTimestamp record = None
        /\ Session.transferredSolAmount record = None
        /\ Session.swapTxId record = None /\ Session.transferTxId record = None)
    /\ (exists n : Z,
          Session.solAmount record = binary64 (inject_Z n / inject_Z (10 ^ 8)))
    /\ (CreateCheckout.r_fiatAmount r = js_div (CreateCheckout.unit_amount req) 100
        /\ CreateCheckout.r_fiatCurrency r = CreateCheckout.currency req
        /\ CreateCheckout.metadata_solAmount req = CreateCheckout.r_solAmount r
        /\ CreateCheckout.metadata_isTokenSwap req = CreateCheckout.r_isTokenSwap r)
    /\ (forall other, other <> CreateCheckout.r_sessionId r ->
          CreateCheckout.store (CreateCheckout.handler cfg w b st) !! other = st !! other).
Proof.
  unfold CreateCheckout.handler.
  repeat case_match; simpl; try discriminate.
  intros [= <-]. simpl. do 2 eexists.
  split; [reflexivity |]. split; [reflexivity |]. split; [reflexivity |].
  split.
  { simpl. repeat split; try reflexivity.
    intros ->. discriminate. }
  split; [simpl; repeat split |].
  split.
  { simpl.
    match goal with
    | |- exists n, toFixed 8 ?x = _ =>
        destruct (toFixed_spec 8 x) as (k & Hk & _); exists k; exact Hk
    end. }
  split; [simpl; repeat split |].
  intros other Hother. now rewrite lookup_insert_ne.
Qed.





(** ** transfer-sol *)

Lemma positive_number_pos (v : jsval) (a : Q) :
  positive_number v = Some a -> v = JNum a /\ (0 < a)%Q.
Proof.
  destruct v as [| | | n |]; simpl; try discriminate.
  destruct (Qlt_le_dec 0 n); [| discriminate]. intros [= <-]. auto.
Qed.

Lemma validate_passes (cfg : config) (w : TransferSol.world) (b : TransferSol.body)
    (funding : string) (amount : Q) :
  TransferSol.validate cfg w b = inl (funding, amount) ->
  truthy (TransferSol.walletAddress b) = true
  /\ fundingKeypair cfg = Some funding
  /\ TransferSol.PublicKey_ok w (TransferSol.walletAddress b) = true
  /\ positive_number (TransferSol.amount_or_default b) = Some amount.
Proof.
  unfold TransferSol.validate.
  destruct (truthy (TransferSol.walletAddress b)); simpl; [| discriminate].
  destruct (fundingKeypair cfg); [| discriminate].
  destruct (TransferSol.PublicKey_ok w (TransferSol.walletAddress b)); simpl;
    [| discriminate].
  destruct (positive_number (TransferSol.amount_or_default b)); [| discriminate].
  intros [= <- <-]. auto.
Qed.

(** X6: every transaction transfer-sol sends goes from the funding wallet
    to the wallet address of the request, which is truthy and was accepted
    by the key parser; it is the transaction the SDK built without
    throwing, and carries [Math.round(amount * 1e9)] lamports, the product
    taken in binary64, of an amount that is a number greater than 0; at
    most one transaction is sent per call.  A request that fails a check,
    or whose transaction cannot be built, sends nothing. *)
Theorem transfer_sends_only_validated (cfg : config) (w : TransferSol.world)
    (b : TransferSol.body) (st : session_store) :
  (length (TransferSol.broadcast (TransferSol.handler cfg w b st)) <= 1)%nat
  /\ forall tx, In tx (TransferSol.broadcast (TransferSol.handler cfg w b st)) ->
       fundingKeypair cfg = Some (TransferSol.fromPubkey tx)
       /\ TransferSol.toPubkey tx = TransferSol.walletAddress b
       /\ truthy (TransferSol.walletAddress b) = true
       /\ TransferSol.PublicKey_ok w (TransferSol.walletAddress b) = true
       /\ TransferSol.SystemProgram_transfer w tx = Returned tt
       /\ exists amount,
            TransferSol.amount_or_default b = JNum amount /\ (0 < amount)%Q
            /\ TransferSol.lamports tx = Math_round (js_mul amount (inject_Z (10 ^ 9)))
            /\ (Qabs (inject_Z (TransferSol.lamports tx)
                      - js_mul amount (inject_Z (10 ^ 9))) <= 1 # 2)%Q.
Proof.
  destruct (TransferSol.validate cfg w b) as [[funding amount] | refusal] eqn:Hval.
  2: { unfold TransferSol.handler. rewrite Hval. simpl.
       split; [lia | intros tx []]. }
  pose proof (attempt_sends_only_its_transaction w
                (TransferSol.transfer_of funding b amount)) as Hsent.
  assert (Hlen : (length (TransferSol.attempt w (TransferSol.transfer_of funding b amount)).2
                  <= 1)%nat).
  { unfold TransferSol.attempt. repeat case_match; simpl; lia. }
  destruct (TransferSol_handler_cases cfg w b st funding amount Hval)
    as [(e & _ & _ & _ & ->) | [(e & Hbuilt & _ & _ & _ & ->) | (sig & Hbuilt & _ & _ & _ & ->)]];
    try (split; [simpl; lia | intros tx []]).
  all: split; [exact Hlen |]; intros tx Hin; rewrite (Hsent tx Hin);
    apply validate_passes in Hval as (Hw & Hf & Hk & Ha);
    apply positive_number_pos in Ha as [Ha Hpos];
    (split; [exact Hf |]); (split; [reflexivity |]); (split; [exact Hw |]);
    (split; [exact Hk |]); (split; [exact Hbuilt |]);
    exists amount; (split; [exact Ha |]); (split; [exact Hpos |]);
    (split; [reflexivity |]);
    cbn [TransferSol.transfer_of TransferSol.lamports];
    destruct (Math_round_near (js_mul amount (inject_Z (10 ^ 9)))) as [H1 H2];
    apply (proj2 (Qabs_Qle_condition _ _)); split; lra.
Qed.

(** X7: transfer-sol touches at most the session the request names: every
    other entry is the same after the call, no entry appears or
    disappears, and an error answer leaves the whole store as it was. *)
Theorem transfer_touches_only_named_session (cfg : config) (w : TransferSol.world)
    (b : TransferSol.body) (st : session_store) :
  let res := TransferSol.handler cfg w b st in
  (forall other, TransferSol.sessionId b <> Some other ->
     TransferSol.store res !! other = st !! other)
  /\ (forall sid, is_Some (TransferSol.store res !! sid) <-> is_Some (st !! sid))
  /\ (forall code msg details rs rc,
        TransferSol.resp res = TransferSol.Error code msg details rs rc ->
        TransferSol.store res = st).
Proof.
  intros res. unfold res, TransferSol.handler.
  destruct (TransferSol.validate cfg w b) as [[funding amount] | refusal]; simpl.
  2: { repeat split; auto. }
  destruct (TransferSol.SystemProgram_transfer w
              (TransferSol.transfer_of funding b amount)) as [[] | e0]; simpl.
  2: { repeat split; auto. }
  destruct (TransferSol.attempt w (TransferSol.transfer_of funding b amount))
    as [[sig | e] sent]; simpl.
  2: { repeat split; auto. }
  unfold TransferSol.update_session.
  destruct (TransferSol.sessionId b) as [key |]; [| repeat split; auto; discriminate].
  destruct (truthy (JStr key)); [| repeat split; auto; discriminate].
  split; [| split; [| discriminate]].
  - intros other Hother. apply lookup_alter_ne. congruence.
  - intros sid. destruct (decide (key = sid)) as [-> | Hne].
    + rewrite lookup_alter_eq. destruct (st !! sid); simpl; split; intros [x Hx];
        try discriminate; eauto.
    + now rewrite lookup_alter_ne.
Qed.

(** X29: a transaction that cannot be built.  The transfer instruction is
    built before the inner [try]; when the SDK throws there, the request
    is answered by the outer [catch]: 500 'Failed to transfer SOL:
    <message>', with neither [details] nor a retry offer, whatever the
    message and the retry count are; nothing is sent and the store is left
    as it was. *)
Theorem transfer_build_failure (cfg : config) (w : TransferSol.world)
    (b : TransferSol.body) (st : session_store)
    (funding : string) (amount : Q) (error : option string) :
  TransferSol.validate cfg w b = inl (funding, amount) ->
  TransferSol.SystemProgram_transfer w (TransferSol.transfer_of funding b amount)
  = Threw error ->
  let res := TransferSol.handler cfg w b st in
  TransferSol.resp res
  = TransferSol.Error 500
      ("Failed to transfer SOL: "
       +:+ match error with Some m => m | None => "undefined" end)
      None None None
  /\ TransferSol.store res = st
  /\ TransferSol.broadcast res = [].
Proof.
  intros Hval Hbuild res. unfold res, TransferSol.handler.
  rewrite Hval, Hbuild. destruct error; repeat split.
Qed.

Lemma transfer_build_failure_witness :
  let b := transfer_body (JNum 20000000000) JUndefined in
  let res := TransferSol.handler example_cfg transfer_world b (fresh_store false) in
  TransferSol.lamports
    (TransferSol.transfer_of "9WzDXwBbmkg8ZTbNMqUxvQRAyrZzDsGYdLVL9zYtAWWM" b 20000000000)
  = 20000000000000000000
  /\ TransferSol.resp res
     = TransferSol.Error 500
         "Failed to transfer SOL: The value of the lamports is out of range"
         None None None
  /\ TransferSol.store res = fresh_store false
  /\ TransferSol.broadcast res = [].
Proof.
  intros b res. split; [vm_compute; reflexivity |].
  apply (transfer_build_failure example_cfg transfer_world b (fresh_store false)
           "9WzDXwBbmkg8ZTbNMqUxvQRAyrZzDsGYdLVL9zYtAWWM" 20000000000
           (Some "The value of the lamports is out of range")).
  - reflexivity.
  - vm_compute. reflexivity.
Defined.

(** ** The store over a sequence of requests *)

Lemma alter_is_Some (f : session -> session) (key sid : string) (st : session_store) :
  is_Some (alter f key st !! sid) <-> is_Some (st !! sid).
Proof.
  destruct (decide (key = sid)) as [-> | Hne].
  - rewrite lookup_alter_eq. destruct (st !! sid); simpl; split; intros [x Hx];
      try discriminate; eauto.
  - now rewrite lookup_alter_ne.
Qed.

Lemma step_presence (cfg : config) (c : call) (st : session_store) (sid : string) :
  (is_Some (st !! sid) -> is_Some (step cfg st c !! sid))
  /\ (is_Some (step cfg st c !! sid) ->
      is_Some (st !! sid) \/ generated_id c = Some sid).
Proof.
  destruct c as [w b | q | w k | w b | w b]; simpl.
  - destruct (CreateCheckout_store cfg w b st) as [-> | (r & -> & _)]; [tauto |].
    destruct (decide (CreateCheckout.uniqueSessionId w = sid)) as [-> | Hne].
    + rewrite lookup_insert_eq. split; eauto.
    + rewrite lookup_insert_ne by exact Hne. tauto.
  - tauto.
  - rewrite PaymentStatus_store. tauto.
  - destruct (TransferSol_store cfg w b st) as [-> | (k & sig & l & n & a & ->)];
      [tauto |]. rewrite alter_is_Some. tauto.
  - destruct (SwapTokens_store cfg w b st) as [-> | (k & t1 & t2 & a & ->)];
      [tauto |]. rewrite alter_is_Some. tauto.
Qed.

(** X8: sessions only accumulate.  Over any sequence of requests no
    session is ever removed from the store, and an id that is in the store
    afterwards was there before or is the id generated by one of the
    checkout requests of the sequence. *)
Theorem sessions_only_accumulate (cfg : config) (calls : list call)
    (st : session_store) (sid : string) :
  (is_Some (st !! sid) -> is_Some (run cfg calls st !! sid))
  /\ (is_Some (run cfg calls st !! sid) ->
      is_Some (st !! sid) \/ exists c, In c calls /\ generated_id c = Some sid).
Proof.
  revert st. induction calls as [| c calls IH]; intros st; simpl.
  - tauto.
  - destruct (IH (step cfg st c)) as [IH1 IH2].
    destruct (step_presence cfg c st sid) as [S1 S2].
    split; [auto |].
    intros H. destruct (IH2 H) as [H' | (c' & Hin & Hc')].
    + destruct (S2 H'); eauto.
    + eauto.
Qed.

Lemma record_transfer_creation_data (sig link now : string) (a : Q) (s : session) :
  creation_data (TransferSol.record_transfer sig link now a s) = creation_data s.
Proof. destruct s as [? ? ? ? ? ? ? ? [] ? ? ? ? ? ? ? ? ? ? ?]; reflexivity. Qed.

Lemma record_swap_creation_data (swapTx transferTx : string) (a : Q) (s : session) :
  creation_data (SwapTokens.record_swap swapTx transferTx a s) = creation_data s.
Proof. destruct s; reflexivity. Qed.

Lemma alter_keeps_creation_data (f : session -> session) (key sid : string)
    (st : session_store) (s : session) :
  (forall x, creation_data (f x) = creation_data x) ->
  st !! sid = Some s ->
  exists s', alter f key st !! sid = Some s' /\ creation_data s' = creation_data s.
Proof.
  intros Hf Hs. destruct (decide (key = sid)) as [-> | Hne].
  - exists (f s). rewrite lookup_alter_eq, Hs. split; [reflexivity | apply Hf].
  - exists s. rewrite lookup_alter_ne by exact Hne. split; [assumption | reflexivity].
Qed.

Lemma step_keeps_creation_data (cfg : config) (c : call) (st : session_store)
    (sid : string) (s : session) :
  st !! sid = Some s -> generated_id c <> Some sid ->
  exists s', step cfg st c !! sid = Some s' /\ creation_data s' = creation_data s.
Proof.
  intros Hs Hid. destruct c as [w b | q | w k | w b | w b]; simpl.
  - destruct (CreateCheckout_store cfg w b st) as [-> | (r & -> & _)]; [eauto |].
    exists s. rewrite lookup_insert_ne; [auto |].
    intros E. apply Hid. simpl. now rewrite E.
  - eauto.
  - rewrite PaymentStatus_store. eauto.
  - destruct (TransferSol_store cfg w b st) as [-> | (k & sig & l & n & a & ->)]; [eauto |].
    apply alter_keeps_creation_data; [| assumption].
    intros x. apply record_transfer_creation_data.
  - destruct (SwapTokens_store cfg w b st) as [-> | (k & t1 & t2 & a & ->)]; [eauto |].
    apply alter_keeps_creation_data; [| assumption].
    intros x. apply record_swap_creation_data.
Qed.

(** X9: what a session was created with never changes.  Over any sequence
    of requests in which no checkout generates the id of a stored session,
    that session keeps its id, Stripe session id, wallet address, charged
    amount and currency, creation time, SOL amount, token-swap flag, token
    symbol and token address. *)
Theorem creation_data_is_immutable (cfg : config) (calls : list call)
    (st : session_store) (sid : string) (s : session) :
  st !! sid = Some s ->
  Forall (fun c => generated_id c <> Some sid) calls ->
  exists s', run cfg calls st !! sid = Some s' /\ creation_data s' = creation_data s.
Proof.
  intros Hs Hfresh. revert st s Hs.
  induction Hfresh as [| c calls Hc _ IH]; intros st s Hs.
  - exists s. split; [exact Hs | reflexivity].
  - destruct (step_keeps_creation_data cfg c st sid s Hs Hc) as (s1 & Hs1 & E1).
    destruct (IH _ s1 Hs1) as (s2 & Hs2 & E2).
    exists s2. split; [exact Hs2 | congruence].
Qed.

Lemma creation_data_is_immutable_witness :
  exists s', run example_cfg later_calls (fresh_store true) !! example_sid = Some s'
             /\ creation_data s' = creation_data (fresh_session true).
Proof.
  apply (creation_data_is_immutable example_cfg later_calls (fresh_store true)
           example_sid (fresh_session true)).
  - reflexivity.
  - repeat constructor; simpl; discriminate.
Defined.

Lemma TransferSol_store_update (cfg : config) (w : TransferSol.world)
    (b : TransferSol.body) (st : session_store) :
  TransferSol.store (TransferSol.handler cfg w b st) = st
  \/ exists sid sig a,
       (0 < a)%Q
       /\ TransferSol.store (TransferSol.handler cfg w b st)
          = alter (TransferSol.record_transfer sig ("https://solscan.io/tx/" +:+ sig)
                     (TransferSol.iso_now w) a) sid st.
Proof.
  unfold TransferSol.handler.
  destruct (TransferSol.validate cfg w b) as [[funding amount] | refusal] eqn:Hval;
    [| now left].
  apply validate_passes in Hval as (_ & _ & _ & Ha).
  apply positive_number_pos in Ha as [_ Hpos].
  destruct (TransferSol.SystemProgram_transfer w
              (TransferSol.transfer_of funding b amount)) as [[] | e0]; simpl;
    [| now left].
  destruct (TransferSol.attempt w (TransferSol.transfer_of funding b amount))
    as [[sig | e] sent]; simpl; [| now left].
  unfold TransferSol.update_session.
  destruct (TransferSol.sessionId b) as [key |]; [| now left].
  destruct (truthy (JStr key)); [| now left].
  right. exists key, sig, amount. split; [exact Hpos | reflexivity].
Qed.

Lemma record_transfer_well_formed (key sig now : string) (a : Q) (s : session) :
  (0 < a)%Q -> well_formed_session key s ->
  well_formed_session key
    (TransferSol.record_transfer sig ("https://solscan.io/tx/" +:+ sig) now a s).
Proof.
  intros Hpos (Hid & Hkey & Hst & _).
  destruct s as [? ? ? ? ? ? ? ? [] ? ? ? ? ? ? ? ? ? ? ?]; simpl in *;
    (split; [exact Hid |]); (split; [exact Hkey |]); split;
    try (unfold server_statuses; simpl; tauto); try discriminate.
  intros _. exists sig, a. repeat split; try reflexivity; [exact Hpos | discriminate].
Qed.

Lemma record_swap_well_formed (key swapTx transferTx : string) (a : Q) (s : session) :
  well_formed_session key s ->
  well_formed_session key (SwapTokens.record_swap swapTx transferTx a s).
Proof.
  intros (Hid & Hkey & _ & _). destruct s; simpl in *.
  split; [exact Hid |]. split; [exact Hkey |].
  split; [unfold server_statuses; simpl; tauto | discriminate].
Qed.

Lemma alter_keeps_well_formed (f : session -> session) (key : string)
    (st : session_store) :
  (forall k x, well_formed_session k x -> well_formed_session k (f x)) ->
  (forall k v, st !! k = Some v -> well_formed_session k v) ->
  forall k v, alter f key st !! k = Some v -> well_formed_session k v.
Proof.
  intros Hf Hst k v. destruct (decide (key = k)) as [-> | Hne].
  - rewrite lookup_alter_eq. destruct (st !! k) as [x |] eqn:Hx; simpl; [| discriminate].
    intros [= <-]. eauto.
  - rewrite lookup_alter_ne by exact Hne. apply Hst.
Qed.

Lemma step_keeps_well_formed (cfg : config) (c : call) (st : session_store) :
  (forall k v, st !! k = Some v -> well_formed_session k v) ->
  forall k v, step cfg st c !! k = Some v -> well_formed_session k v.
Proof.
  intros Hst. destruct c as [w b | q | w sid | w b | w b]; simpl.
  - unfold CreateCheckout.handler.
    repeat case_match; simpl; try exact Hst.
    intros k v. destruct (decide (CreateCheckout.uniqueSessionId w = k)) as [<- | Hne].
    + rewrite lookup_insert_eq. intros [= <-]. unfold well_formed_session. simpl.
      split; [reflexivity |]. split; [discriminate |].
      split; [tauto | discriminate].
    + rewrite lookup_insert_ne by exact Hne. apply Hst.
  - exact Hst.
  - rewrite PaymentStatus_store. exact Hst.
  - destruct (TransferSol_store_update cfg w b st) as [-> | (key & sig & a & Hpos & ->)];
      [exact Hst |].
    apply alter_keeps_well_formed; [| exact Hst].
    intros k x. now apply record_transfer_well_formed.
  - destruct (SwapTokens_store cfg w b st) as [-> | (key & t1 & t2 & a & ->)];
      [exact Hst |].
    apply alter_keeps_well_formed; [| exact Hst].
    intros k x. apply record_swap_well_formed.
Qed.

(** X10: the handlers keep every stored record well formed.  If every
    record of the store is filed under its own non-empty id, has one of
    the statuses [created], [sol_received], [sol_transferred], [completed],
    and every record in the status [sol_transferred] carries a signature,
    the explorer link [https://solscan.io/tx/<signature>], a transfer time
    and a positive transferred amount, then the same holds after any
    sequence of requests; in particular it holds for a server that starts
    with an empty store, where [payment_completed], [token_swap_completed]
    and [error] are never a stored status. *)
Theorem stored_sessions_stay_well_formed (cfg : config) (calls : list call)
    (st : session_store) :
  (forall k v, st !! k = Some v -> well_formed_session k v) ->
  forall sid s, run cfg calls st !! sid = Some s ->
    well_formed_session sid s
    /\ Session.status s <> "payment_completed"
    /\ Session.status s <> "token_swap_completed"
    /\ Session.status s <> "error".
Proof.
  intros Hst sid s Hs.
  assert (Hwf : well_formed_session sid s).
  { revert st Hst Hs. induction calls as [| c calls IH]; intros st Hst Hs; simpl in Hs.
    - now apply Hst.
    - apply (IH (step cfg st c)); [| exact Hs].
      now apply step_keeps_well_formed. }
  split; [exact Hwf |].
  destruct Hwf as (_ & _ & Hin & _). unfold server_statuses in Hin. simpl in Hin.
  repeat split; intros E; rewrite E in Hin;
    destruct Hin as [H | [H | [H | [H | []]]]]; discriminate.
Qed.

Lemma stored_sessions_stay_well_formed_witness :
  exists s,
    run example_cfg purchase_calls ∅ !! CreateCheckout.uniqueSessionId checkout_world
    = Some s
    /\ Session.status s = "sol_transferred"
    /\ well_formed_session (CreateCheckout.uniqueSessionId checkout_world) s.
Proof.
  eexists.
  assert (Hs : run example_cfg purchase_calls ∅
                 !! CreateCheckout.uniqueSessionId checkout_world = Some _)
    by (vm_compute; reflexivity).
  split; [exact Hs |]. split; [reflexivity |].
  apply (stored_sessions_stay_well_formed example_cfg purchase_calls ∅); [| exact Hs].
  intros k v Hk. rewrite lookup_empty in Hk. discriminate.
Defined.

(** X11: settlement is not idempotent.  The answer of transfer-sol and the
    transaction it sends do not depend on the store: a request is served
    the same way whether its session is unknown, still [created] or
    already settled, so repeating a request sends the same transfer
    again. *)
Theorem transfer_ignores_session_state (cfg : config) (w : TransferSol.world)
    (b : TransferSol.body) (st st' : session_store) :
  TransferSol.resp (TransferSol.handler cfg w b st)
  = TransferSol.resp (TransferSol.handler cfg w b st')
  /\ TransferSol.broadcast (TransferSol.handler cfg w b st)
     = TransferSol.broadcast (TransferSol.handler cfg w b st')
  /\ TransferSol.broadcast
       (TransferSol.handler cfg w b (TransferSol.store (TransferSol.handler cfg w b st)))
     = TransferSol.broadcast (TransferSol.handler cfg w b st).
Proof.
  unfold TransferSol.handler.
  destruct (TransferSol.validate cfg w b) as [[funding amount] | refusal]; simpl;
    [| repeat split].
  destruct (TransferSol.SystemProgram_transfer w
              (TransferSol.transfer_of funding b amount)) as [[] | e0]; simpl;
    [| repeat split].
  destruct (TransferSol.attempt w (TransferSol.transfer_of funding b amount))
    as [[sig | e] sent]; simpl; repeat split.
Qed.

(** X12: from checkout to status poll, for a direct SOL purchase.  After a
    successful checkout without a token symbol and a transfer that names
    the answered session id, whose transaction is built and whose network
    calls all return, the status
    poll for that id answers from the store, with the status
    [sol_transferred], the explorer link of the transfer and the message
    that ends with that link; the SOL amount is still the one of the
    checkout, while the transferred amount is the one of the transfer
    request. *)
Theorem sol_purchase_lifecycle (cfg : config)
    (wc : CreateCheckout.world) (bc : CreateCheckout.body)
    (wt : TransferSol.world) (bt : TransferSol.body)
    (ws : PaymentStatus.world) (st : session_store)
    (r : CreateCheckout.created) (funding : string) (amount : Q) (sig : string) :
  CreateCheckout.resp (CreateCheckout.handler cfg wc bc st) = CreateCheckout.Created r ->
  CreateCheckout.r_isTokenSwap r = false ->
  TransferSol.validate cfg wt bt = inl (funding, amount) ->
  TransferSol.SystemProgram_transfer wt (TransferSol.transfer_of funding bt amount)
  = Returned tt ->
  (TransferSol.attempt wt (TransferSol.transfer_of funding bt amount)).1 = Returned sig ->
  TransferSol.sessionId bt = Some (CreateCheckout.r_sessionId r) ->
  let st1 := CreateCheckout.store (CreateCheckout.handler cfg wc bc st) in
  let st2 := TransferSol.store (TransferSol.handler cfg wt bt st1) in
  let link := "https://solscan.io/tx/" +:+ sig in
  exists s,
    PaymentStatus.resp (PaymentStatus.handler ws (CreateCheckout.r_sessionId r) st2)
    = PaymentStatus.Snapshot s (Some link)
        ("SOL successfully sent to your wallet! View the transaction on Solana Explorer: "
         +:+ link)
    /\ Session.status s = "sol_transferred"
    /\ Session.signature s = Some sig
    /\ Session.solAmount s = CreateCheckout.r_solAmount r
    /\ Session.transferredSolAmount s = Some amount.
Proof.
  intros Hr Hswap Hval Hbuilt Hok Hsid st1 st2 link.
  destruct (checkout_created_inversion cfg wc bc st r Hr)
    as (record & req & Hst1 & _ & Huid & (_ & _ & _ & _ & Hsol & Hflag & _) & _).
  assert (Hne : CreateCheckout.r_sessionId r <> "") by (rewrite Huid; discriminate).
  assert (H1 : st1 !! CreateCheckout.r_sessionId r = Some record).
  { unfold st1. rewrite Hst1. apply lookup_insert_eq. }
  assert (Hs : st2 !! CreateCheckout.r_sessionId r
               = Some (TransferSol.record_transfer sig link (TransferSol.iso_now wt)
                         amount record)).
  { unfold st2, TransferSol.handler. rewrite Hval, Hbuilt.
    destruct (TransferSol.attempt wt (TransferSol.transfer_of funding bt amount))
      as [[sig' | e] sent]; simpl in Hok; [| discriminate].
    injection Hok as ->. simpl. rewrite Hsid.
    apply update_session_lookup; [exact Hne | exact H1]. }
  pose proof (record_transfer_status sig link (TransferSol.iso_now wt) amount record)
    as Hstatus.
  pose proof (record_transfer_amount sig link (TransferSol.iso_now wt) amount record)
    as Hamount.
  pose proof (record_transfer_creation_data sig link (TransferSol.iso_now wt) amount record)
    as Hcd.
  rewrite Hflag, Hswap in Hstatus.
  set (s := TransferSol.record_transfer sig link (TransferSol.iso_now wt) amount record)
    in *.
  assert (Hlinks : Session.signature s = Some sig /\ Session.explorerLink s = Some link).
  { unfold s. clear -Hflag Hswap. rewrite Hswap in Hflag.
    destruct record as [? ? ? ? ? ? ? ? [] ? ? ? ? ? ? ? ? ? ? ?]; simpl in *;
      [discriminate | split; reflexivity]. }
  destruct Hlinks as [Hsig Hlink].
  exists s. unfold PaymentStatus.handler. rewrite Hs. simpl.
  unfold getStatusMessage. rewrite Hstatus, Hlink. simpl.
  repeat split; try assumption.
  unfold creation_data in Hcd. injection Hcd as _ _ _ _ _ _ Hsol' _ _ _.
  rewrite Hsol'. exact Hsol.
Qed.

Lemma sol_purchase_lifecycle_witness :
  let bc := checkout_body (JNum SOL_AMOUNT) JUndefined JUndefined JUndefined in
  let st1 := CreateCheckout.store (CreateCheckout.handler example_cfg checkout_world bc ∅) in
  let st2 :=
    TransferSol.store (TransferSol.handler example_cfg transfer_world
                         purchase_transfer_body st1) in
  let link := "https://solscan.io/tx/3nZcx5ApR6DGNJXVpu7Dat7Pxt5GFa6oySDBMGoLWricoti" in
  exists s,
    PaymentStatus.resp
      (PaymentStatus.handler status_world (CreateCheckout.uniqueSessionId checkout_world) st2)
    = PaymentStatus.Snapshot s (Some link)
        ("SOL successfully sent to your wallet! View the transaction on Solana Explorer: "
         +:+ link)
    /\ Session.status s = "sol_transferred".
Proof.
  intros bc st1 st2 link.
  assert (Hr : exists r,
             CreateCheckout.resp (CreateCheckout.handler example_cfg checkout_world bc ∅)
             = CreateCheckout.Created r
             /\ CreateCheckout.r_isTokenSwap r = false
             /\ CreateCheckout.r_sessionId r = CreateCheckout.uniqueSessionId checkout_world).
  { eexists. split; [vm_compute; reflexivity |]. split; reflexivity. }
  destruct Hr as (r & Hr & Hflag & Hid).
  destruct (sol_purchase_lifecycle example_cfg checkout_world bc transfer_world
              purchase_transfer_body status_world ∅ r
              "9WzDXwBbmkg8ZTbNMqUxvQRAyrZzDsGYdLVL9zYtAWWM" SOL_AMOUNT
              "3nZcx5ApR6DGNJXVpu7Dat7Pxt5GFa6oySDBMGoLWricoti" Hr Hflag)
    as (s & H1 & H2 & _).
  - reflexivity.
  - vm_compute. reflexivity.
  - reflexivity.
  - rewrite Hid. reflexivity.
  - exists s. rewrite Hid in H1. split; [exact H1 | exact H2].
Defined.

(** ** swap-tokens *)

Lemma fetch_with_retry_cases {A : Type} (fetch : nat -> outcome A) :
  (exists a, SwapTokens.fetch_with_retry fetch = SwapTokens.Got a 1 []
             /\ fetch 0%nat = Returned a)
  \/ (exists a, SwapTokens.fetch_with_retry fetch = SwapTokens.Got a 2 [2000]
                /\ fetch 1%nat = Returned a)
  \/ (exists a, SwapTokens.fetch_with_retry fetch = SwapTokens.Got a 3 [2000; 4000]
                /\ fetch 2%nat = Returned a)
  \/ SwapTokens.fetch_with_retry fetch = SwapTokens.Unavailable 3 [2000; 4000].
Proof.
  unfold SwapTokens.fetch_with_retry. simpl.
  destruct (fetch 0%nat) as [a0 | e0]; [left; eauto |].
  destruct (fetch 1%nat) as [a1 | e1]; [right; left; eauto |].
  destruct (fetch 2%nat) as [a2 | e2]; [right; right; left; eauto |].
  right; right; right. reflexivity.
Qed.

(** One loop: the number of requests, the waits between them, and the
    answer of the last request when there is one. *)
Lemma fetch_with_retry_budget {A : Type} (fetch : nat -> outcome A) :
  exists n : nat,
    (1 <= n <= 3)%nat
    /\ foldr Z.add 0 (take (n - 1) [2000; 4000]) <= 6000
    /\ ((exists a, SwapTokens.fetch_with_retry fetch
                   = SwapTokens.Got a n (take (n - 1) [2000; 4000])
                   /\ fetch (n - 1)%nat = Returned a)
        \/ SwapTokens.fetch_with_retry fetch
           = SwapTokens.Unavailable n (take (n - 1) [2000; 4000])).
Proof.
  destruct (fetch_with_retry_cases fetch)
    as [(a & E & Ha) | [(a & E & Ha) | [(a & E & Ha) | E]]]; rewrite E;
    [exists 1%nat | exists 2%nat | exists 3%nat | exists 3%nat];
    (split; [lia |]); (split; [simpl; lia |]); simpl; eauto.
Qed.

Lemma execute_broadcast_bound (w : SwapTokens.world) (b : SwapTokens.body)
    (q : SwapTokens.quote) (key : option string) (sym : jsval) (st : session_store) :
  (length (SwapTokens.execute w b q key sym st).2 <= 2)%nat.
Proof. unfold SwapTokens.execute. repeat case_match; simpl; lia. Qed.

(** X13: the retry budget of swap-tokens.  Whatever the providers do, a
    call asks for a quote at most 3 times and for a swap transaction at
    most 3 times; it asks for a swap transaction only with the quote that
    its last quote request returned; the waits between the attempts of one
    step are 2000 ms and then 4000 ms, as many as there were attempts
    after the first (the cap of 8000 ms is never reached), at most
    12000 ms in all; and it sends at most two transactions, none of them
    unless the last quote request and the last request for a swap
    transaction were both answered. *)
Theorem swap_retry_budget (cfg : config) (w : SwapTokens.world)
    (b : SwapTokens.body) (st : session_store) :
  let res := SwapTokens.handler cfg w b st in
  let quoted amount quoteData :=
    SwapTokens.validate cfg w b = inl amount
    /\ SwapTokens.quote_fetch w (Math_round (js_mul amount (inject_Z (10 ^ 9))))
         (SwapTokens.quote_attempts res - 1) = Returned quoteData in
  (SwapTokens.quote_attempts res <= 3)%nat
  /\ (SwapTokens.swap_attempts res <= 3)%nat
  /\ ((0 < SwapTokens.swap_attempts res)%nat ->
      (0 < SwapTokens.quote_attempts res)%nat
      /\ exists amount quoteData, quoted amount quoteData)
  /\ SwapTokens.sleeps res
     = take (SwapTokens.quote_attempts res - 1) [2000; 4000]
       ++ take (SwapTokens.swap_attempts res - 1) [2000; 4000]
  /\ foldr Z.add 0 (SwapTokens.sleeps res) <= 12000
  /\ (length (SwapTokens.broadcast res) <= 2)%nat
  /\ (SwapTokens.broadcast res <> [] ->
      (0 < SwapTokens.quote_attempts res)%nat /\ (0 < SwapTokens.swap_attempts res)%nat
      /\ exists amount quoteData swapTransaction,
           quoted amount quoteData
           /\ SwapTokens.swap_fetch w quoteData (SwapTokens.swap_attempts res - 1)
              = Returned swapTransaction).
Proof.
  intros res quoted. unfold quoted, res, SwapTokens.handler.
  assert (Hsum : forall l l' : list Z,
             foldr Z.add 0 l <= 6000 -> foldr Z.add 0 l' <= 6000 ->
             foldr Z.add 0 (l ++ l') <= 12000).
  { intros l l' Hl Hl'. rewrite foldr_app.
    assert (E : forall z, foldr Z.add z l = foldr Z.add 0 l + z).
    { intros z. clear. induction l as [| x l IH]; simpl; lia. }
    rewrite E. lia. }
  destruct (SwapTokens.validate cfg w b) as [amount | refusal]; simpl.
  2: { repeat split; simpl; try lia; try contradiction; exfalso; lia. }
  set (lamports := Math_round (js_mul amount (inject_Z (10 ^ 9)))).
  destruct (fetch_with_retry_budget (SwapTokens.quote_fetch w lamports))
    as (qa & Hqa & Hws & [(q & -> & Hq) | ->]); simpl.
  2: { repeat split; simpl; try lia; try contradiction; try (exfalso; lia);
         now rewrite app_nil_r. }
  destruct (fetch_with_retry_budget (SwapTokens.swap_fetch w q))
    as (sa & Hsa & Hws' & [(t & -> & Ht) | ->]); simpl.
  2: { repeat split; simpl; try lia; eauto; try contradiction. }
  pose proof (execute_broadcast_bound w b q (SwapTokens.session_key b st)
                (SwapTokens.symbol_of (SwapTokens.session_key b st) st) st) as Hlen.
  destruct (SwapTokens.execute w b q (SwapTokens.session_key b st)
              (SwapTokens.symbol_of (SwapTokens.session_key b st) st) st)
    as [[r st'] sent]; simpl in *.
  repeat split; simpl; try lia; eauto 10.
Qed.

Lemma execute_cases (w : SwapTokens.world) (b : SwapTokens.body)
    (q : SwapTokens.quote) (key : option string) (sym : jsval) (st : session_store) :
  (exists code msg d,
     (SwapTokens.execute w b q key sym st).1.1 = SwapTokens.Error code msg d
     /\ (SwapTokens.execute w b q key sym st).1.2 = st)
  \/ (exists r,
        (SwapTokens.execute w b q key sym st).1.1 = SwapTokens.Success r
        /\ (SwapTokens.execute w b q key sym st).1.2
           = match key with
             | Some sid =>
                 alter (SwapTokens.record_swap (SwapTokens.swap_id r)
                          (SwapTokens.transfer_id r) (SwapTokens.final_amount r)) sid st
             | None => st
             end
        /\ (SwapTokens.execute w b q key sym st).2
           = [SwapTokens.swap_id r; SwapTokens.transfer_id r]
        /\ SwapTokens.swap_explorerLink r
           = "https://solscan.io/tx/" +:+ SwapTokens.swap_id r
        /\ SwapTokens.transfer_explorerLink r
           = "https://solscan.io/tx/" +:+ SwapTokens.transfer_id r
        /\ SwapTokens.final_mint r = SwapTokens.toToken b
        /\ SwapTokens.final_symbol r = sym).
Proof.
  unfold SwapTokens.execute.
  repeat case_match; simpl; try (left; do 3 eexists; split; reflexivity).
  all: right; eexists; split; [reflexivity | simpl; repeat split].
Qed.

Lemma swap_handler_cases (cfg : config) (w : SwapTokens.world)
    (b : SwapTokens.body) (st : session_store) :
  let res := SwapTokens.handler cfg w b st in
  (exists code msg d,
     SwapTokens.resp res = SwapTokens.Error code msg d /\ SwapTokens.store res = st)
  \/ (exists r,
        SwapTokens.resp res = SwapTokens.Success r
        /\ SwapTokens.store res
           = match SwapTokens.session_key b st with
             | Some sid =>
                 alter (SwapTokens.record_swap (SwapTokens.swap_id r)
                          (SwapTokens.transfer_id r) (SwapTokens.final_amount r)) sid st
             | None => st
             end
        /\ SwapTokens.broadcast res = [SwapTokens.swap_id r; SwapTokens.transfer_id r]
        /\ SwapTokens.swap_explorerLink r
           = "https://solscan.io/tx/" +:+ SwapTokens.swap_id r
        /\ SwapTokens.transfer_explorerLink r
           = "https://solscan.io/tx/" +:+ SwapTokens.transfer_id r
        /\ SwapTokens.final_mint r = SwapTokens.toToken b
        /\ SwapTokens.final_symbol r
           = SwapTokens.symbol_of (SwapTokens.session_key b st) st).
Proof.
  intros res. unfold res, SwapTokens.handler.
  assert (Hrefusal : forall refusal, SwapTokens.validate cfg w b = inr refusal ->
                       exists code msg d, refusal = SwapTokens.Error code msg d).
  { unfold SwapTokens.validate. intros refusal.
    repeat case_match; intros [= <-]; eauto. }
  destruct (SwapTokens.validate cfg w b) as [amount | refusal] eqn:Hval; simpl.
  2: { destruct (Hrefusal refusal eq_refl) as (c & m & d & ->). left. eauto. }
  destruct (SwapTokens.fetch_with_retry _) as [q qa ws | qa ws | qa ws]; simpl;
    try (left; unfold SwapTokens.unavailable; eauto; fail).
  destruct (SwapTokens.fetch_with_retry _) as [t sa ws' | sa ws' | sa ws']; simpl;
    try (left; unfold SwapTokens.unavailable; eauto; fail).
  pose proof (execute_cases w b q (SwapTokens.session_key b st)
                (SwapTokens.symbol_of (SwapTokens.session_key b st) st) st) as Hex.
  destruct (SwapTokens.execute w b q (SwapTokens.session_key b st)
              (SwapTokens.symbol_of (SwapTokens.session_key b st) st) st)
    as [[r0 st'] sent]; simpl in *.
  destruct Hex as [(c & m & d & -> & ->) | (r & -> & -> & -> & H1 & H2 & H3 & H4)].
  - left. eauto.
  - right. exists r. repeat split; assumption.
Qed.

Lemma session_key_named (b : SwapTokens.body) (st : session_store) (sid : string) :
  SwapTokens.session_key b st = Some sid ->
  SwapTokens.sessionId b = Some sid /\ sid <> "" /\ is_Some (st !! sid).
Proof.
  unfold SwapTokens.session_key.
  destruct (SwapTokens.sessionId b) as [k |]; [| discriminate]. simpl.
  destruct (String.eqb_spec k "") as [-> | Hne]; simpl; [discriminate |].
  destruct (st !! k) eqn:Hk; [| discriminate]. intros [= <-]. eauto.
Qed.

(** X14: swap-tokens writes the store only when it answers success.  An
    error answer, at whatever step, leaves the store as it was; a success
    answer names the two transactions that were sent, in order, with their
    explorer links [https://solscan.io/tx/<id>] and the requested mint;
    and no entry other than the one the request names is ever changed. *)
Theorem swap_writes_only_on_success (cfg : config) (w : SwapTokens.world)
    (b : SwapTokens.body) (st : session_store) :
  let res := SwapTokens.handler cfg w b st in
  (forall code msg d, SwapTokens.resp res = SwapTokens.Error code msg d ->
     SwapTokens.store res = st)
  /\ (forall r, SwapTokens.resp res = SwapTokens.Success r ->
        SwapTokens.broadcast res = [SwapTokens.swap_id r; SwapTokens.transfer_id r]
        /\ SwapTokens.swap_explorerLink r
           = "https://solscan.io/tx/" +:+ SwapTokens.swap_id r
        /\ SwapTokens.transfer_explorerLink r
           = "https://solscan.io/tx/" +:+ SwapTokens.transfer_id r
        /\ SwapTokens.final_mint r = SwapTokens.toToken b)
  /\ (forall other, SwapTokens.sessionId b <> Some other ->
        SwapTokens.store res !! other = st !! other).
Proof.
  intros res.
  destruct (swap_handler_cases cfg w b st)
    as [(c & m & d & Hr & Hst) | (r & Hr & Hst & Hb & H1 & H2 & H3 & _)];
    fold res in Hr, Hst; try fold res in Hb.
  - split; [intros; exact Hst |]. split; [intros r Hr'; congruence |].
    intros other _. now rewrite Hst.
  - split; [intros c m d Hr'; congruence |].
    split; [intros r' Hr'; assert (r' = r) by congruence; subst; auto |].
    intros other Hother. rewrite Hst.
    destruct (SwapTokens.session_key b st) as [sid |] eqn:Hkey; [| reflexivity].
    apply session_key_named in Hkey as [Hsid _].
    apply lookup_alter_ne. congruence.
Qed.

(** X15: what a completed swap leaves in the session.  When swap-tokens
    answers success for a request that names a stored session, that
    session gets the status [completed] and the ids of both transactions,
    its token amount is overwritten with the output amount of the answer,
    what it was created with is kept, and the status message of the poll
    is still 'Processing your transaction...': the status
    [token_swap_completed] and its message are never produced. *)
Theorem swap_success_marks_completed (cfg : config) (w : SwapTokens.world)
    (b : SwapTokens.body) (st : session_store) (r : SwapTokens.success)
    (sid : string) (s : session) :
  SwapTokens.resp (SwapTokens.handler cfg w b st) = SwapTokens.Success r ->
  SwapTokens.sessionId b = Some sid -> sid <> "" -> st !! sid = Some s ->
  exists s',
    SwapTokens.store (SwapTokens.handler cfg w b st) !! sid = Some s'
    /\ Session.status s' = "completed"
    /\ Session.swapTxId s' = Some (SwapTokens.swap_id r)
    /\ Session.transferTxId s' = Some (SwapTokens.transfer_id r)
    /\ Session.tokenAmount s' = JNum (SwapTokens.final_amount r)
    /\ Session.explorerLink s' = Session.explorerLink s
    /\ creation_data s' = creation_data s
    /\ getStatusMessage s' = "Processing your transaction..."
    /\ SwapTokens.final_symbol r = js_or (Session.tokenSymbol s) (JStr "Token").
Proof.
  intros Hr Hsid Hne Hs.
  destruct (swap_handler_cases cfg w b st)
    as [(c & m & d & Hr' & _) | (r' & Hr' & Hst & _ & _ & _ & _ & Hsym)];
    [congruence |].
  assert (r' = r) by congruence. subst r'.
  assert (Hkey : SwapTokens.session_key b st = Some sid).
  { unfold SwapTokens.session_key. rewrite Hsid. simpl.
    destruct (String.eqb_spec sid "") as [-> | _]; [congruence |]. simpl.
    now rewrite Hs. }
  rewrite Hkey in Hst, Hsym. rewrite Hst.
  exists (SwapTokens.record_swap (SwapTokens.swap_id r) (SwapTokens.transfer_id r)
            (SwapTokens.final_amount r) s).
  split; [now rewrite lookup_alter_eq, Hs |].
  unfold SwapTokens.symbol_of in Hsym. rewrite Hs in Hsym.
  destruct s; simpl in *. repeat split. exact Hsym.
Qed.

Lemma swap_success_marks_completed_witness :
  let res := SwapTokens.handler example_cfg swap_world swap_body (fresh_store true) in
  exists r s',
    SwapTokens.resp res = SwapTokens.Success r
    /\ SwapTokens.store res !! example_sid = Some s'
    /\ Session.status s' = "completed"
    /\ Session.tokenAmount s' = JNum (SwapTokens.final_amount r)
    /\ getStatusMessage s' = "Processing your transaction...".
Proof.
  intros res. eexists.
  assert (Hr : SwapTokens.resp res = SwapTokens.Success _) by (vm_compute; reflexivity).
  destruct (swap_success_marks_completed example_cfg swap_world swap_body
              (fresh_store true) _ example_sid (fresh_session true) Hr)
    as (s' & H1 & H2 & _ & _ & H5 & _ & _ & H8 & _).
  - reflexivity.
  - discriminate.
  - reflexivity.
  - exists s'. repeat split; assumption.
Defined.



(** ** payment-success and payment-status *)

(** X17: for a session id that is not in the store (or a missing id), the
    payment-success page takes the token data from the query: the
    token-swap flag of its message is true exactly when [token_swap] is
    the string [true], symbol and address are those of the query (empty
    when missing) and the status is [payment_completed]; the text written
    in the script where the amount is expected is the [amount] parameter
    as it was sent, without quotes, or 0.1 when it is missing or empty,
    and the text where the token amount is expected is 0; the store is not
    touched. *)
Theorem payment_success_unknown_session (q : PaymentSuccess.query)
    (st : session_store) :
  (forall sid, PaymentSuccess.session_id q = Some sid -> st !! sid = None) ->
  let res := PaymentSuccess.handler q st in
  PaymentSuccess.store res = st
  /\ PaymentSuccess.m_status (PaymentSuccess.page res) = "payment_completed"
  /\ (PaymentSuccess.m_isTokenSwap (PaymentSuccess.page res) = true
      <-> PaymentSuccess.token_swap q = Some "true")
  /\ PaymentSuccess.m_tokenSymbol (PaymentSuccess.page res)
     = js_or (PaymentSuccess.param (PaymentSuccess.token_symbol q)) (JStr "")
  /\ PaymentSuccess.m_tokenAddress (PaymentSuccess.page res)
     = js_or (PaymentSuccess.param (PaymentSuccess.token_address q)) (JStr "")
  /\ PaymentSuccess.tokenAmount_expr (PaymentSuccess.page res) = JNum 0
  /\ PaymentSuccess.amount_expr (PaymentSuccess.page res)
     = match PaymentSuccess.amount q with
       | Some a => if String.eqb a "" then JNum (binary64 (1 # 10)) else JStr a
       | None => JNum (binary64 (1 # 10))
       end.
Proof.
  intros Hunknown res.
  assert (Hstored : match PaymentSuccess.session_id q with
                    | Some sid => if truthy (JStr sid) then st !! sid else None
                    | None => None
                    end = None).
  { destruct (PaymentSuccess.session_id q) as [sid |]; [| reflexivity].
    rewrite (Hunknown sid eq_refl). now destruct (truthy (JStr sid)). }
  unfold res, PaymentSuccess.handler, PaymentSuccess.sessionData.
  rewrite Hstored. cbn [PaymentSuccess.store PaymentSuccess.page
    PaymentSuccess.m_status PaymentSuccess.m_isTokenSwap PaymentSuccess.m_tokenSymbol
    PaymentSuccess.m_tokenAddress PaymentSuccess.tokenAmount_expr
    PaymentSuccess.amount_expr].
  split; [reflexivity |]. split; [reflexivity |].
  assert (Hidem : forall v d, js_or (js_or v d) d = js_or v d).
  { intros v d. unfold js_or. destruct (truthy v) eqn:E; [now rewrite E |].
    now destruct (truthy d). }
  destruct (PaymentSuccess.token_swap q) as [ts |]; simpl.
  - destruct (String.eqb_spec ts "") as [-> | Hne]; simpl.
    + split; [split; discriminate |].
      rewrite !Hidem. repeat split.
      destruct (PaymentSuccess.amount q) as [a |]; simpl; [| reflexivity].
      unfold js_or. simpl. now destruct (String.eqb a "").
    + split.
      { rewrite String.eqb_eq. split; [intros -> | intros [= ->]]; reflexivity. }
      repeat split.
      destruct (PaymentSuccess.amount q) as [a |]; simpl; [| reflexivity].
      unfold js_or. simpl. now destruct (String.eqb a "").
  - split; [split; discriminate |].
    rewrite !Hidem. repeat split.
    destruct (PaymentSuccess.amount q) as [a |]; simpl; [| reflexivity].
    unfold js_or. simpl. now destruct (String.eqb a "").
Qed.

Lemma payment_success_unknown_session_witness :
  let q := {|
    PaymentSuccess.session_id := Some "session_1600000000000_zzzzzz";
    PaymentSuccess.wallet := Some example_wallet;
    PaymentSuccess.amount := None;
    PaymentSuccess.token_swap := Some "true";
    PaymentSuccess.token_symbol := Some "BONK";
    PaymentSuccess.token_address := None |} in
  let res := PaymentSuccess.handler q settled_store in
  PaymentSuccess.store res = settled_store
  /\ PaymentSuccess.m_isTokenSwap (PaymentSuccess.page res) = true
  /\ PaymentSuccess.m_tokenSymbol (PaymentSuccess.page res) = JStr "BONK"
  /\ PaymentSuccess.m_tokenAddress (PaymentSuccess.page res) = JStr ""
  /\ PaymentSuccess.amount_expr (PaymentSuccess.page res) = JNum (binary64 (1 # 10)).
Proof.
  intros q res.
  destruct (payment_success_unknown_session q settled_store)
    as (H1 & _ & H3 & H4 & H5 & _ & H7).
  - intros sid [= <-]. reflexivity.
  - split; [exact H1 |]. split; [apply H3; reflexivity |].
    split; [exact H4 |]. split; [exact H5 | exact H7].
Defined.

(** X18: checkout, success page, poll.  After a successful checkout, the
    payment-success page for the answered session id reports the token-swap
    flag of the checkout, and a status poll that follows it still answers
    from the store with the status [created], no explorer link and the
    message 'Your payment is being processed.', whatever Stripe would say:
    the message for [payment_completed] is never reached. *)
Theorem checkout_page_poll (cfg : config) (wc : CreateCheckout.world)
    (bc : CreateCheckout.body) (q : PaymentSuccess.query)
    (ws : PaymentStatus.world) (st : session_store) (r : CreateCheckout.created) :
  CreateCheckout.resp (CreateCheckout.handler cfg wc bc st) = CreateCheckout.Created r ->
  PaymentSuccess.session_id q = Some (CreateCheckout.r_sessionId r) ->
  let st1 := CreateCheckout.store (CreateCheckout.handler cfg wc bc st) in
  let shown := PaymentSuccess.handler q st1 in
  PaymentSuccess.m_isTokenSwap (PaymentSuccess.page shown) = CreateCheckout.r_isTokenSwap r
  /\ PaymentSuccess.m_status (PaymentSuccess.page shown) = "payment_completed"
  /\ exists s,
       PaymentStatus.resp
         (PaymentStatus.handler ws (CreateCheckout.r_sessionId r)
            (PaymentSuccess.store shown))
       = PaymentStatus.Snapshot s None "Your payment is being processed."
       /\ Session.status s = "created"
       /\ Session.solAmount s = CreateCheckout.r_solAmount r.
Proof.
  intros Hr Hq st1 shown.
  destruct (checkout_created_inversion cfg wc bc st r Hr)
    as (record & req & Hst1 & _ & Huid
        & (_ & Hstatus & _ & _ & Hsol & Hflag & _) & (_ & Hlink & _) & _).
  assert (Hne : negb (String.eqb (CreateCheckout.r_sessionId r) "") = true).
  { rewrite Huid. reflexivity. }
  assert (H1 : st1 !! CreateCheckout.r_sessionId r = Some record).
  { unfold st1. rewrite Hst1. apply lookup_insert_eq. }
  split.
  { unfold shown, PaymentSuccess.handler, PaymentSuccess.sessionData. simpl.
    rewrite Hq. simpl. rewrite Hne, H1. simpl. exact Hflag. }
  split; [reflexivity |].
  exists record. simpl. unfold PaymentStatus.handler. rewrite H1. simpl.
  unfold getStatusMessage. rewrite Hstatus, Hlink. simpl.
  repeat split; assumption.
Qed.

Lemma checkout_page_poll_witness :
  let bc := checkout_body JUndefined (JNum 25) (JStr "BONK") JUndefined in
  let q := {|
    PaymentSuccess.session_id := Some (CreateCheckout.uniqueSessionId checkout_world);
    PaymentSuccess.wallet := Some example_wallet;
    PaymentSuccess.amount := Some "0.16666667";
    PaymentSuccess.token_swap := None;
    PaymentSuccess.token_symbol := None;
    PaymentSuccess.token_address := None |} in
  let st1 := CreateCheckout.store (CreateCheckout.handler example_cfg checkout_world bc ∅) in
  let shown := PaymentSuccess.handler q st1 in
  PaymentSuccess.m_isTokenSwap (PaymentSuccess.page shown) = true
  /\ exists s,
       PaymentStatus.resp
         (PaymentStatus.handler status_world
            (CreateCheckout.uniqueSessionId checkout_world) (PaymentSuccess.store shown))
       = PaymentStatus.Snapshot s None "Your payment is being processed.".
Proof.
  intros bc q st1 shown.
  assert (Hr : exists r,
             CreateCheckout.resp (CreateCheckout.handler example_cfg checkout_world bc ∅)
             = CreateCheckout.Created r
             /\ CreateCheckout.r_isTokenSwap r = true
             /\ CreateCheckout.r_sessionId r = CreateCheckout.uniqueSessionId checkout_world).
  { eexists. split; [vm_compute; reflexivity |]. split; reflexivity. }
  destruct Hr as (r & Hr & Hflag & Hid).
  destruct (checkout_page_poll example_cfg checkout_world bc q status_world ∅ r Hr)
    as (H1 & _ & s & H3 & _).
  - rewrite Hid. reflexivity.
  - fold st1 shown in H1, H3. split; [congruence |].
    exists s. rewrite <- Hid. exact H3.
Defined.

(** ** More on the priority fee *)

Lemma slot_determines (l : list fee_observation) (x y : fee_observation) :
  NoDup (map slot l) -> x ∈ l -> y ∈ l -> slot x = slot y -> x = y.
Proof.
  induction l as [| z l IH]; simpl; intros Hnd Hx Hy E.
  - inversion Hx.
  - apply NoDup_cons in Hnd as [Hz Hnd].
    apply elem_of_cons in Hx as [-> | Hx]; apply elem_of_cons in Hy as [-> | Hy].
    + reflexivity.
    + exfalso. apply Hz. rewrite E. apply list_elem_of_fmap. eauto.
    + exfalso. apply Hz. rewrite <- E. apply list_elem_of_fmap. eauto.
    + now apply IH.
Qed.

Lemma sort_by_slot_of_permutation (obs obs' : list fee_observation) :
  Permutation obs obs' -> NoDup (map slot obs) ->
  Array_sort (fun a b => slot b - slot a) obs
  = Array_sort (fun a b => slot b - slot a) obs'.
Proof.
  intros Hperm Hnd.
  pose proof (Array_sort_perm (fun a b => slot b - slot a) obs) as P1.
  pose proof (Array_sort_perm (fun a b => slot b - slot a) obs') as P2.
  apply (StronglySorted_unique_strong (fun a b => slot b <= slot a)).
  - intros x1 x2 H1 H2 L1 L2.
    apply (slot_determines obs); [exact Hnd | | | lia].
    + now rewrite <- P1.
    + rewrite Hperm. now rewrite <- P2.
  - apply (Array_sort_sorted (fun a b => slot b - slot a)); intros; lia.
  - apply (Array_sort_sorted (fun a b => slot b - slot a)); intros; lia.
  - now rewrite P1, P2.
Qed.

Lemma priority_fee_of_permutation (obs obs' : list fee_observation) :
  Permutation obs obs' -> NoDup (map slot obs) ->
  getDynamicPriorityFee (Returned obs) = getDynamicPriorityFee (Returned obs').
Proof.
  intros Hperm Hnd. unfold getDynamicPriorityFee.
  rewrite (sort_by_slot_of_permutation obs obs' Hperm Hnd).
  now rewrite (Permutation_length Hperm).
Qed.

(** X19: with one observation per slot, the estimate depends on the
    observations only, not on the order in which the network lists them. *)
Theorem priority_fee_ignores_listing_order (obs obs' : list fee_observation) :
  Permutation obs obs' -> NoDup (map slot obs) ->
  getDynamicPriorityFee (Returned obs) = getDynamicPriorityFee (Returned obs').
Proof. exact (priority_fee_of_permutation obs obs'). Qed.

Lemma priority_fee_ignores_listing_order_witness :
  getDynamicPriorityFee (Returned spec_example_observations)
  = getDynamicPriorityFee (Returned (rev spec_example_observations)).
Proof.
  apply priority_fee_ignores_listing_order.
  - apply Permutation_rev.
  - apply (bool_decide_unpack (NoDup (map slot spec_example_observations))).
    vm_compute. exact I.
Defined.

Lemma sort_insert_before_older {A : Type} (cmp : A -> A -> Z) (x : A)
    (l older : list A) :
  Forall (fun y => 0 <= cmp y x) older ->
  sort_insert cmp x (l ++ older) = sort_insert cmp x l ++ older.
Proof.
  intros Hold. induction l as [| y l IH]; simpl.
  - destruct older as [| o older]; [reflexivity |]. simpl.
    inversion Hold as [| ? ? Ho _]; subst.
    destruct (Z.ltb_spec (cmp o x) 0); [lia | reflexivity].
  - destruct (cmp y x <? 0); [now rewrite IH | reflexivity].
Qed.

Lemma sort_recent_then_older {A : Type} (cmp : A -> A -> Z) (recent older : list A) :
  (forall r o, In r recent -> In o older -> 0 <= cmp o r) ->
  Array_sort cmp (recent ++ older) = Array_sort cmp recent ++ Array_sort cmp older.
Proof.
  intros Hcmp. induction recent as [| x recent IH]; simpl; [reflexivity |].
  rewrite IH by (intros r o Hr Ho; apply Hcmp; [now right | exact Ho]).
  apply sort_insert_before_older.
  apply List.Forall_forall. intros o Ho. apply Hcmp; [now left |].
  eapply Permutation_in; [apply Array_sort_perm | exact Ho].
Qed.

(** X20: only the five most recent observations count.  If the sample,
    with one observation per slot, consists of at least five observations
    and of older ones (none in a later slot than any of the former), the
    estimate is the one of the former alone, whatever fees the older
    observations paid. *)
Theorem priority_fee_ignores_older (obs recent older : list fee_observation) :
  Permutation obs (recent ++ older) -> NoDup (map slot obs) ->
  (5 <= length recent)%nat ->
  (forall r o, In r recent -> In o older -> slot o <= slot r) ->
  getDynamicPriorityFee (Returned obs) = getDynamicPriorityFee (Returned recent).
Proof.
  intros Hperm Hnd Hlen Hold.
  rewrite (priority_fee_of_permutation obs (recent ++ older) Hperm Hnd).
  unfold getDynamicPriorityFee.
  rewrite sort_recent_then_older by (intros r o Hr Ho; specialize (Hold r o Hr Ho); lia).
  rewrite take_app_le by (rewrite Array_sort_length; exact Hlen).
  rewrite length_app.
  destruct recent as [| r0 recent]; [simpl in Hlen; lia |]. reflexivity.
Qed.

Lemma priority_fee_ignores_older_witness :
  getDynamicPriorityFee (Returned (older_observations ++ spec_example_observations))
  = getDynamicPriorityFee (Returned spec_example_observations).
Proof.
  apply (priority_fee_ignores_older _ spec_example_observations older_observations).
  - apply Permutation_app_comm.
  - apply (bool_decide_unpack
             (NoDup (map slot (older_observations ++ spec_example_observations)))).
    vm_compute. exact I.
  - simpl. lia.
  - intros r o Hr Ho. simpl in Hr, Ho.
    repeat (destruct Ho as [<- | Ho]; [| ]); try contradiction;
      repeat (destruct Hr as [<- | Hr]; [simpl; lia |]); contradiction.
Defined.

(** X21: small samples.  With a single observation the estimate is its
    fee times 1.2, rounded up and clamped; with two observations it is
    computed from the LARGER of the two fees (the fee at index
    [floor(2/2) = 1] of the sorted pair), whatever their slots. *)
Theorem priority_fee_of_small_samples (a b : fee_observation) :
  let clamp fee :=
    Z.min (Z.max (Qceiling (inject_Z fee * (12 # 10))) 100000) 1000000 in
  getDynamicPriorityFee (Returned [a]) = clamp (prioritizationFee a)
  /\ getDynamicPriorityFee (Returned [a; b])
     = clamp (Z.max (prioritizationFee a) (prioritizationFee b)).
Proof.
  intros clamp. unfold getDynamicPriorityFee, clamp. cbv zeta.
  rewrite !clamped_fee_exact. split; [reflexivity |].
  unfold Math_ceil. simpl.
  destruct (Z.ltb_spec (slot a - slot b) 0); simpl;
    match goal with
    | |- context [?x - ?y <? 0] => destruct (Z.ltb_spec (x - y) 0)
    end; simpl;
    first [ rewrite (Z.max_r (prioritizationFee a) (prioritizationFee b)) by lia;
            reflexivity
          | rewrite (Z.max_l (prioritizationFee a) (prioritizationFee b)) by lia;
            reflexivity ].
Qed.

(** ** The string tests *)

(** X22: which failures transfer-sol offers to retry.  An error is in the
    retried class exactly when its message contains, as written and in
    this letter case, [BlockheightExceededError], [TimeoutError] or
    [block height exceeded] somewhere; an error without a message never
    is, and is answered as fatal whatever the retry count, with the text
    'Transaction failed: undefined' and without [details]. *)
Theorem retryable_messages (message : string) (retryCount : jsval) :
  (TransferSol.retryable (Some message) = true
   <-> occurs_in "BlockheightExceededError" message
       \/ occurs_in "TimeoutError" message
       \/ occurs_in "block height exceeded" message)
  /\ TransferSol.retryable None = false
  /\ TransferSol.on_txError None retryCount
     = TransferSol.Error 500 "Transaction failed: undefined" None None None.
Proof.
  split; [| split; reflexivity].
  unfold TransferSol.retryable.
  rewrite !orb_true_iff, !includes_spec. tauto.
Qed.

(** X23: the e-mail check of create-checkout-session accepts exactly the
    strings of the pattern [^[^\s@]+@[^\s@]+\.[^\s@]+$]: a non-empty local
    part, one [@], and a domain with a dot that has something on both
    sides, with no white space of the language (the Unicode spaces and
    line separators included) and no second [@] anywhere.  The string is
    read by UTF-16 code units. *)
Theorem email_pattern_test_spec (s : string) :
  email_pattern_test s = true <-> email_pattern_matches s.
Proof. exact (email_pattern_test_iff s). Qed.

(** ** The token price service *)

Lemma add_token_lookup (m : gmap string BirdeyeService.token)
    (t : BirdeyeService.token) (key : string) :
  (filed_under t key -> BirdeyeService.add_token m t !! key = Some t)
  /\ (~ filed_under t key -> BirdeyeService.add_token m t !! key = m !! key).
Proof.
  unfold filed_under, BirdeyeService.add_token. simpl.
  destruct (String.eqb_spec (BirdeyeService.symbol t) "") as [Es | Es];
    destruct (String.eqb_spec (BirdeyeService.address t) "") as [Ea | Ea]; simpl.
  - split; [intros [[H _] | [H _]]; contradiction | reflexivity].
  - split.
    + intros [[H _] | [_ ->]]; [contradiction | apply lookup_insert_eq].
    + intros Hno. apply lookup_insert_ne. intros E. apply Hno. right. auto.
  - split.
    + intros [[_ ->] | [H _]]; [apply lookup_insert_eq | contradiction].
    + intros Hno. apply lookup_insert_ne. intros E. apply Hno. left. auto.
  - split.
    + intros [[_ ->] | [_ ->]].
      * destruct (decide (BirdeyeService.address t
                          = toLowerCase (BirdeyeService.symbol t))) as [E | E].
        -- rewrite E. apply lookup_insert_eq.
        -- rewrite lookup_insert_ne by exact E. apply lookup_insert_eq.
      * apply lookup_insert_eq.
    + intros Hno. rewrite !lookup_insert_ne; [reflexivity | |];
        intros E; apply Hno; [left | right]; auto.
Qed.

Lemma filed_under_dec (t : BirdeyeService.token) (key : string) :
  filed_under t key \/ ~ filed_under t key.
Proof.
  unfold filed_under.
  destruct (decide (BirdeyeService.symbol t = "")),
    (decide (key = toLowerCase (BirdeyeService.symbol t))),
    (decide (BirdeyeService.address t = "")),
    (decide (key = BirdeyeService.address t)); tauto.
Qed.

Lemma initialize_lookup (tokens : list BirdeyeService.token)
    (m : gmap string BirdeyeService.token) (key : string) :
  ((exists t, In t tokens /\ filed_under t key) ->
   exists t, foldl BirdeyeService.add_token m tokens !! key = Some t
             /\ In t tokens /\ filed_under t key)
  /\ ((forall t, In t tokens -> ~ filed_under t key) ->
      foldl BirdeyeService.add_token m tokens !! key = m !! key).
Proof.
  induction tokens as [| x tokens IH] using rev_ind.
  - simpl. split; [intros (t & [] & _) | reflexivity].
  - rewrite foldl_app. simpl. destruct IH as [IH1 IH2].
    destruct (add_token_lookup (foldl BirdeyeService.add_token m tokens) x key)
      as [A1 A2].
    split.
    + intros (t & Hin & Hf).
      destruct (filed_under_dec x key) as [Hx | Hx].
      * exists x. split; [now apply A1 |]. split; [| exact Hx].
        apply in_or_app. right. now left.
      * rewrite (A2 Hx). apply in_app_or in Hin as [Hin | [<- | []]]; [| contradiction].
        destruct IH1 as (t' & Ht' & Hin' & Hf'); [eauto |].
        exists t'. split; [exact Ht' |]. split; [| exact Hf'].
        apply in_or_app. now left.
    + intros Hnone.
      rewrite A2 by (apply Hnone, in_or_app; right; now left).
      apply IH2. intros t Hin. apply Hnone, in_or_app. now left.
Qed.

(** X24: looking a token up by symbol ignores the letter case.  Once the
    token list is loaded, every token of the list with a non-empty symbol
    is found by [getToken] under any spelling of that symbol that differs
    only in letter case; what is found is a token of the list filed under
    that key (the last one, when several share it). *)
Theorem symbol_lookup_ignores_case (tokens : list BirdeyeService.token)
    (m : gmap string BirdeyeService.token) (t : BirdeyeService.token) (id : string) :
  In t tokens -> BirdeyeService.symbol t <> "" ->
  toLowerCase id = toLowerCase (BirdeyeService.symbol t) ->
  exists t',
    BirdeyeService.getToken (BirdeyeService.initializeTokenMap (Returned tokens) m) id
    = Some t'
    /\ In t' tokens
    /\ filed_under t' (toLowerCase id).
Proof.
  intros Hin Hsym Hid. unfold BirdeyeService.getToken, BirdeyeService.initializeTokenMap.
  apply (initialize_lookup tokens m (toLowerCase id)).
  exists t. split; [exact Hin |]. left. auto.
Qed.

Lemma symbol_lookup_ignores_case_witness :
  exists t',
    BirdeyeService.getToken
      (BirdeyeService.initializeTokenMap (Returned [usdc; bonk]) ∅) "BONK" = Some t'
    /\ In t' [usdc; bonk]
    /\ filed_under t' (toLowerCase "BONK").
Proof.
  apply (symbol_lookup_ignores_case [usdc; bonk] ∅ bonk "BONK").
  - right. now left.
  - discriminate.
  - reflexivity.
Defined.

(** X25: the fallback for an address.  For an identifier longer than 30
    characters the price is asked of Birdeye under the identifier as
    written, but the fallback looks the token up under its lower-cased
    form, while the list files tokens under their addresses as written.
    So when Birdeye fails and no token is filed under the lower-cased
    identifier, the answer is 'Birdeye failed and token not found in
    Jupiter list for fallback', Jupiter is not asked, and this is so even
    if the list holds a token with exactly that address. *)
Theorem address_fallback_looks_up_lower_case (w : BirdeyeService.world)
    (tokens : list BirdeyeService.token) (id : string) :
  (30 < js_length id)%nat ->
  (forall t, In t tokens ->
     toLowerCase (BirdeyeService.symbol t) <> toLowerCase id
     /\ BirdeyeService.address t <> toLowerCase id) ->
  BirdeyeService.success (BirdeyeService.getPriceFromBirdeye w id) = false ->
  BirdeyeService.getToken (BirdeyeService.initializeTokenMap (Returned tokens) ∅) id = None
  /\ forall w',
       BirdeyeService.birdeye_fetch w' = BirdeyeService.birdeye_fetch w ->
       BirdeyeService.getTokenPrice w'
         (BirdeyeService.initializeTokenMap (Returned tokens) ∅) id
       = BirdeyeService.failed None
           (Some ("Birdeye failed and token not found in Jupiter list for fallback: "
                  +:+ id)).
Proof.
  intros Hlen Hkeys Hfail.
  assert (Hnone : BirdeyeService.getToken
                    (BirdeyeService.initializeTokenMap (Returned tokens) ∅) id = None).
  { unfold BirdeyeService.getToken, BirdeyeService.initializeTokenMap.
    rewrite (proj2 (initialize_lookup tokens ∅ (toLowerCase id))).
    - apply lookup_empty.
    - intros t Hin [[_ E] | [_ E]]; destruct (Hkeys t Hin) as [H1 H2]; congruence. }
  split; [exact Hnone |].
  intros w' Hsame. unfold BirdeyeService.getTokenPrice.
  apply Nat.ltb_lt in Hlen. rewrite Hlen.
  assert (E : BirdeyeService.getPriceFromBirdeye w' id
              = BirdeyeService.getPriceFromBirdeye w id).
  { unfold BirdeyeService.getPriceFromBirdeye. now rewrite Hsame. }
  rewrite E, Hfail, Hnone. reflexivity.
Qed.

Lemma address_fallback_looks_up_lower_case_witness :
  let id := BirdeyeService.address bonk in
  In bonk [usdc; bonk]
  /\ BirdeyeService.getToken
       (BirdeyeService.initializeTokenMap (Returned [usdc; bonk]) ∅) id = None
  /\ BirdeyeService.getTokenPrice birdeye_down_world
       (BirdeyeService.initializeTokenMap (Returned [usdc; bonk]) ∅) id
     = BirdeyeService.failed None
         (Some ("Birdeye failed and token not found in Jupiter list for fallback: "
                +:+ id)).
Proof.
  intros id. split; [right; now left |].
  destruct (address_fallback_looks_up_lower_case birdeye_down_world [usdc; bonk] id)
    as [H1 H2].
  - vm_compute. lia.
  - intros t [<- | [<- | []]]; split; discriminate.
  - reflexivity.
  - split; [exact H1 | apply H2; reflexivity].
Defined.

(** X26: the shape of a price answer.  A success of [getTokenPrice]
    carries no error and comes from Birdeye, with a truthy price, or from
    Jupiter; a failure carries no price and never names Birdeye as its
    source, so the error of a failed Birdeye request is not what the
    caller sees; for an identifier longer than 30 characters a Birdeye
    success is returned as it is, whatever the token list and Jupiter
    hold. *)
Theorem token_price_answer_shape (w : BirdeyeService.world)
    (m : gmap string BirdeyeService.token) (id : string) :
  let r := BirdeyeService.getTokenPrice w m id in
  (BirdeyeService.success r = true ->
     BirdeyeService.error r = None
     /\ ((BirdeyeService.source r = Some "birdeye"
          /\ truthy (BirdeyeService.price r) = true)
         \/ BirdeyeService.source r = Some "jupiter"))
  /\ (BirdeyeService.success r = false ->
      BirdeyeService.price r = JNull
      /\ BirdeyeService.source r <> Some "birdeye")
  /\ ((30 < js_length id)%nat ->
      BirdeyeService.success (BirdeyeService.getPriceFromBirdeye w id) = true ->
      r = BirdeyeService.getPriceFromBirdeye w id).
Proof.
  intros r. unfold r, BirdeyeService.getTokenPrice.
  assert (Hb : forall a,
             let x := BirdeyeService.getPriceFromBirdeye w a in
             BirdeyeService.success x = true ->
             BirdeyeService.error x = None
             /\ BirdeyeService.source x = Some "birdeye"
             /\ truthy (BirdeyeService.price x) = true).
  { intros a. unfold BirdeyeService.getPriceFromBirdeye, BirdeyeService.failed.
    repeat case_match; simpl; try discriminate; eauto. }
  assert (Hj : forall t,
             let x := BirdeyeService.getPriceFromJupiter w t in
             (BirdeyeService.success x = true ->
                BirdeyeService.error x = None
                /\ BirdeyeService.source x = Some "jupiter")
             /\ (BirdeyeService.success x = false ->
                 BirdeyeService.price x = JNull
                 /\ BirdeyeService.source x <> Some "birdeye")).
  { intros t. unfold BirdeyeService.getPriceFromJupiter, BirdeyeService.failed.
    repeat case_match; simpl; split; try discriminate; eauto. }
  destruct (Nat.ltb_spec 30 (js_length id)) as [Hlen | Hlen].
  - specialize (Hb id).
    destruct (BirdeyeService.success (BirdeyeService.getPriceFromBirdeye w id)) eqn:Eb.
    + split; [intros _; destruct (Hb Eb) as (? & ? & ?); auto |].
      split; [congruence | reflexivity].
    + destruct (BirdeyeService.getToken m id) as [t |].
      * destruct (Hj t) as [J1 J2].
        split; [intros Hs; destruct (J1 Hs); auto |].
        split; [exact J2 | discriminate].
      * simpl. split; [discriminate |]. split; [split; [reflexivity | discriminate] | discriminate].
  - destruct (BirdeyeService.getToken m id) as [t |].
    + specialize (Hb (BirdeyeService.address t)).
      destruct (BirdeyeService.success
                  (BirdeyeService.getPriceFromBirdeye w (BirdeyeService.address t)))
        eqn:Eb.
      * split; [intros _; destruct (Hb Eb) as (? & ? & ?); auto |].
        split; [congruence | lia].
      * destruct (Hj t) as [J1 J2].
        split; [intros Hs; destruct (J1 Hs); auto |].
        split; [exact J2 | lia].
    + simpl. split; [discriminate |]. split; [split; [reflexivity | discriminate] | lia].
Qed.

(** ** The amount gate of the client's token purchase *)

Lemma half_is_double : is_double (1 # 2).
Proof. exists 1%Z, (-1)%Z. split; [lia |]. split; [simpl; lia | reflexivity]. Qed.

Lemma is_double_50 : is_double 50.
Proof. apply (integer_is_double 50). simpl. lia. Qed.

Lemma is_double_100 : is_double 100.
Proof. apply (integer_is_double 100). simpl. lia. Qed.

(** X27: the amount gate of the client.  A purchase is turned down as too
    small only if the exact product of the amount and the price, as the
    numbers they are read as, is below 1/2; a product of at least 1/2 is
    let through, with a dollar amount of at least 1/2 and the amount asked
    for as the token amount.  The amount named in 'Please buy at least
    ...' depends on the price alone, and it is not always accepted: at a
    price of 5.555555555555555 the suggestion is 0.09, and a purchase of
    0.09 is turned down with the same suggestion. *)
Theorem too_small_gate (amount p : Q) (t : BirdeyeService.token) :
  (forall m, ChatClient.price_purchase amount p t = ChatClient.TooSmall m ->
     (binary64 amount * binary64 p < 1 # 2)%Q)
  /\ ((1 # 2 <= binary64 amount * binary64 p)%Q ->
      exists params,
        ChatClient.price_purchase amount p t = ChatClient.ProceedToCheckout params)
  /\ (forall params,
        ChatClient.price_purchase amount p t = ChatClient.ProceedToCheckout params ->
        (1 # 2 <= ChatClient.dollarAmount params)%Q
        /\ ChatClient.tokenAmount params = amount
        /\ ChatClient.tokenSymbol params = BirdeyeService.symbol t
        /\ ChatClient.tokenAddress params = BirdeyeService.address t)
  /\ (forall amount' t' m m',
        ChatClient.price_purchase amount p t = ChatClient.TooSmall m ->
        ChatClient.price_purchase amount' p t' = ChatClient.TooSmall m' ->
        m = m')
  /\ (let price := binary64 (5555555555555555 # 1000000000000000) in
      let suggested := binary64 (9 # 100) in
      ChatClient.price_purchase (1 # 100) price t = ChatClient.TooSmall suggested
      /\ ChatClient.price_purchase suggested price t = ChatClient.TooSmall suggested).
Proof.
  assert (Hgate : (1 # 2 <= binary64 amount * binary64 p)%Q ->
                  (1 # 2 <= js_mul amount p)%Q).
  { intros H. unfold js_mul. apply binary64_ge; [exact half_is_double | exact H]. }
  unfold ChatClient.price_purchase.
  split; [| split; [| split; [| split; [| split]]]].
  - intros m.
    destruct (Qlt_le_dec (js_mul amount p) (1 # 2)) as [Hlt |]; [| discriminate].
    intros _. destruct (Qlt_le_dec (binary64 amount * binary64 p) (1 # 2)) as [| Hge];
      [assumption |].
    specialize (Hgate Hge). lra.
  - intros Hge. specialize (Hgate Hge).
    destruct (Qlt_le_dec (js_mul amount p) (1 # 2)) as [Hlt |]; [lra | eauto].
  - intros params.
    destruct (Qlt_le_dec (js_mul amount p) (1 # 2)) as [| Hge]; [discriminate |].
    intros [= <-]. split; [exact Hge |]. split; [reflexivity |]. split; reflexivity.
  - intros amount' t' m m'.
    destruct (Qlt_le_dec (js_mul amount p) (1 # 2)); [| discriminate].
    destruct (Qlt_le_dec (js_mul amount' p) (1 # 2)); [| discriminate].
    congruence.
  - vm_compute. reflexivity.
  - vm_compute. reflexivity.
Qed.

(** X28: what the client lets through, the server can charge.  When the
    gate of the client accepts a purchase, a create-checkout-session
    request that carries its [dollarAmount] and no positive [solAmount] is
    never answered 'Invalid price configuration': the amount resolves to
    at least 50 minor units, within half a unit of the dollar amount times
    100, whatever the price settings and the SOL rate are; for an amount
    and a price in the normal range of the format that is within half a
    unit, and a relative error of [2^-51], of the price of the tokens. *)
Theorem accepted_purchase_is_chargeable (cfg : config) (b : CreateCheckout.body)
    (price : CreateCheckout.sol_price) (amount p : Q) (t : BirdeyeService.token)
    (params : ChatClient.checkout_params) :
  ChatClient.price_purchase amount p t = ChatClient.ProceedToCheckout params ->
  positive_number (CreateCheckout.solAmount b) = None ->
  CreateCheckout.dollarAmount b = JNum (ChatClient.dollarAmount params) ->
  exists charged sol,
    CreateCheckout.resolve_amounts cfg b price
    = Some (CreateCheckout.selected_currency b, charged, sol)
    /\ (50 <= charged)%Q
    /\ (Qabs (charged - js_mul (ChatClient.dollarAmount params) 100) <= 1 # 2)%Q
    /\ (is_double amount -> is_double p -> (0 < amount)%Q -> (0 < p)%Q ->
        (2 ^ (-1022) <= amount * p)%Q ->
        (Qabs (charged - amount * p * 100)
         <= (1 # 2) + amount * p * 100 * 2 ^ (-51))%Q).
Proof.
  intros H Hsol Hd. unfold ChatClient.price_purchase in H.
  destruct (Qlt_le_dec (js_mul amount p) (1 # 2)) as [| Hge]; [discriminate |].
  injection H as <-. cbn [ChatClient.dollarAmount] in *.
  set (d := js_mul amount p) in *.
  assert (Hfiat : (50 <= js_mul d 100)%Q).
  { unfold js_mul at 1. apply binary64_ge; [exact is_double_50 |].
    rewrite (binary64_of_double 100 is_double_100).
    assert (Hd' : (1 # 2 <= binary64 d)%Q)
      by (apply binary64_ge; [exact half_is_double | exact Hge]).
    lra. }
  destruct (Math_round_near (js_mul d 100)) as [H1 H2].
  assert (H50 : (50 <= Math_round (js_mul d 100))%Z).
  { unfold Math_round. change 50%Z with (Qfloor (inject_Z 50)).
    apply Qfloor_resp_le. change (inject_Z 50) with 50%Q. lra. }
  pose proof (resolve_amounts_of_dollarAmount cfg b price d Hsol Hd) as Hres.
  cbv zeta in Hres. rewrite (proj2 (Z.ltb_lt 0 _)) in Hres by lia.
  eexists _, _. split; [apply Hres; lra |]. split; [| split].
  - change 50%Q with (inject_Z 50). now rewrite <- Zle_Qle.
  - apply (proj2 (Qabs_Qle_condition _ _)). split; lra.
  - intros Ha Hp Hpa Hpp Hnorm.
    pose proof (js_mul_mul_100_error amount p Ha Hp Hpa Hpp Hnorm) as E.
    fold d in E.
    assert (Heps : (2 ^ (-51) == 1 # 2251799813685248)%Q) by reflexivity.
    rewrite Heps in *.
    set (x := (amount * p * 100)%Q) in *.
    set (f := js_mul d 100) in *.
    set (r := inject_Z (Math_round f)) in *.
    apply Qabs_Qle_condition in E as [E E'].
    apply (proj2 (Qabs_Qle_condition _ _)). split; lra.
Qed.

Lemma accepted_purchase_is_chargeable_witness :
  let b := checkout_body JUndefined (JNum (js_mul 25000 (2 # 100000))) (JStr "Bonk")
             (JStr (BirdeyeService.address bonk)) in
  exists charged sol,
    CreateCheckout.resolve_amounts example_cfg b
      {| CreateCheckout.price_usd := 150; CreateCheckout.price_inr := 12500 |}
    = Some ("usd", charged, sol)
    /\ (50 <= charged)%Q.
Proof.
  intros b.
  destruct (accepted_purchase_is_chargeable example_cfg b
              {| CreateCheckout.price_usd := 150; CreateCheckout.price_inr := 12500 |}
              25000 (2 # 100000) bonk
              {| ChatClient.dollarAmount := js_mul 25000 (2 # 100000);
                 ChatClient.tokenSymbol := "Bonk";
                 ChatClient.tokenAddress := BirdeyeService.address bonk;
                 ChatClient.tokenAmount := 25000 |})
    as (charged & sol & H1 & H2 & _).
  - vm_compute. reflexivity.
  - reflexivity.
  - reflexivity.
  - exists charged, sol. split; [exact H1 | exact H2].
Defined.
